(** * express-rate-limit: the IP key generator and the counter store

    A shallow embedding of [ipKeyGenerator] (the key normalizer of the
    rate limiter) together with the two platform functions it calls,
    [isIPv6] of [node:net] and [Address6] of the [ip-address] package, and
    of the fixed-window counter store the benchmark drives.

    Strings are [string], JavaScript numbers that are integers are [Z], the
    module-level [Map] is an insertion-ordered association list, and a
    [throw] is the left injection of a sum. *)

From Stdlib Require Import ZArith NArith List String Ascii Bool Lia.
From Stdlib Require Import DecimalString HexadecimalString DecimalPos FinFun.
Import ListNotations.

Local Open Scope string_scope.
Local Open Scope Z_scope.

(* ================================================================== *)
(** ** Strings *)

Module Str.

(** [s.includes(c)] for a one-character needle. *)
Fixpoint includes (c : ascii) (s : string) : bool :=
  match s with
  | EmptyString => false
  | String a s' => Ascii.eqb a c || includes c s'
  end.

(** [parts.join(sep)]. *)
Fixpoint join (sep : string) (parts : list string) : string :=
  match parts with
  | [] => ""
  | [p] => p
  | p :: rest => p ++ sep ++ join sep rest
  end.

(** Put one more character in front of the first part of a split. *)
Definition cons_head (a : ascii) (parts : list string) : list string :=
  match parts with
  | [] => [String a ""]
  | p :: rest => String a p :: rest
  end.

(** [s.split(c)] for a one-character separator: never the empty list. *)
Fixpoint split (c : ascii) (s : string) : list string :=
  match s with
  | EmptyString => [""]
  | String a s' =>
      if Ascii.eqb a c then "" :: split c s' else cons_head a (split c s')
  end.

(** [s.split("::")]: the separator is two colons; matches are taken
    left to right and do not overlap. *)
Fixpoint split_elision (s : string) : list string :=
  match s with
  | EmptyString => [""]
  | String a s' =>
      match s' with
      | String b s'' =>
          if Ascii.eqb a ":" && Ascii.eqb b ":"
          then "" :: split_elision s''
          else cons_head a (split_elision s')
      | EmptyString => [String a ""]
      end
  end.

(** The characters of a string, for the matchers below. *)
Definition chars (s : string) : list ascii := list_ascii_of_string s.

End Str.

(* ================================================================== *)
(** ** Regular expressions

    [node:net] and [ip-address] recognise addresses with anchored regular
    expressions without back-references or look-around, so a match is
    membership in a regular language.  The matcher takes derivatives. *)

Module Regex.

Inductive regex : Type :=
| Void                         (* matches nothing *)
| Eps                          (* the empty string *)
| Range (lo hi : ascii)        (* [lo-hi]; one character when lo = hi *)
| Alt (r1 r2 : regex)          (* r1|r2 *)
| Seq (r1 r2 : regex)          (* r1r2 *)
| Star (r : regex).            (* r* *)

Definition in_range (lo hi c : ascii) : bool :=
  (N_of_ascii lo <=? N_of_ascii c)%N && (N_of_ascii c <=? N_of_ascii hi)%N.

Definition Chr (c : ascii) : regex := Range c c.
Definition Opt (r : regex) : regex := Alt Eps r.
Definition Plus (r : regex) : regex := Seq r (Star r).

(** [r{n}] *)
Fixpoint Times (n : nat) (r : regex) : regex :=
  match n with
  | O => Eps
  | S n' => Seq r (Times n' r)
  end.

(** [r{0,n}] *)
Fixpoint Upto (n : nat) (r : regex) : regex :=
  match n with
  | O => Eps
  | S n' => Opt (Seq r (Upto n' r))
  end.

(** [r{m,n}] *)
Definition Between (m n : nat) (r : regex) : regex :=
  Seq (Times m r) (Upto (n - m) r).

Fixpoint nullable (r : regex) : bool :=
  match r with
  | Void => false
  | Eps => true
  | Range _ _ => false
  | Alt r1 r2 => nullable r1 || nullable r2
  | Seq r1 r2 => nullable r1 && nullable r2
  | Star _ => true
  end.

(** Constructors that drop [Void], to keep derivatives small. *)
Definition alt (r1 r2 : regex) : regex :=
  match r1, r2 with
  | Void, _ => r2
  | _, Void => r1
  | _, _ => Alt r1 r2
  end.

Definition seq (r1 r2 : regex) : regex :=
  match r1 with
  | Void => Void
  | Eps => r2
  | _ => Seq r1 r2
  end.

Fixpoint deriv (c : ascii) (r : regex) : regex :=
  match r with
  | Void => Void
  | Eps => Void
  | Range lo hi => if in_range lo hi c then Eps else Void
  | Alt r1 r2 => alt (deriv c r1) (deriv c r2)
  | Seq r1 r2 =>
      if nullable r1
      then alt (seq (deriv c r1) r2) (deriv c r2)
      else seq (deriv c r1) r2
  | Star r1 => seq (deriv c r1) (Star r1)
  end.

Fixpoint matches (r : regex) (s : list ascii) : bool :=
  match s with
  | [] => nullable r
  | c :: s' => matches (deriv c r) s'
  end.

(** [new RegExp("^r$").test(s)] *)
Definition test (r : regex) (s : string) : bool := matches r (Str.chars s).

(** Does some character class of [r] contain [c]? *)
Fixpoint mentions (c : ascii) (r : regex) : bool :=
  match r with
  | Void => false
  | Eps => false
  | Range lo hi => in_range lo hi c
  | Alt r1 r2 => mentions c r1 || mentions c r2
  | Seq r1 r2 => mentions c r1 || mentions c r2
  | Star r1 => mentions c r1
  end.

End Regex.

(* ================================================================== *)
(** ** [node:net]: [isIPv6]

    [isIPv6(s)] is [IPv6Reg.test(s)] for the expression that
    [lib/internal/net.js] builds from the pieces below. *)

Module Net.
Import Regex.

Definition digit : regex := Range "0" "9".

(** [v4Seg = (?:25[0-5]|2[0-4]\d|1\d\d|[1-9]\d|\d)] *)
Definition v4Seg : regex :=
  Alt (Seq (Chr "2") (Seq (Chr "5") (Range "0" "5")))
 (Alt (Seq (Chr "2") (Seq (Range "0" "4") digit))
 (Alt (Seq (Chr "1") (Seq digit digit))
 (Alt (Seq (Range "1" "9") digit)
      digit))).

(** [v4Str = (?:v4Seg\.){3}v4Seg] *)
Definition v4Str : regex := Seq (Times 3 (Seq v4Seg (Chr "."))) v4Seg.

(** [v6Seg = (?:[0-9a-fA-F]{1,4})] *)
Definition hexdigit : regex :=
  Alt (Range "0" "9") (Alt (Range "a" "f") (Range "A" "F")).
Definition v6Seg : regex := Between 1 4 hexdigit.

Definition colon : regex := Chr ":".
(** [(?:v6Seg:){n}] and [(?::v6Seg){m,n}] *)
Definition segs (n : nat) : regex := Times n (Seq v6Seg colon).
Definition tails (m n : nat) : regex := Between m n (Seq colon v6Seg).

(** [(?:%[0-9a-zA-Z-.:]{1,})?] *)
Definition zoneChar : regex :=
  Alt (Range "0" "9") (Alt (Range "a" "z") (Alt (Range "A" "Z")
 (Alt (Chr "-") (Alt (Chr ".") (Chr ":"))))).
Definition zone : regex := Opt (Seq (Chr "%") (Plus zoneChar)).

Definition IPv6Reg : regex :=
  Seq
   (Alt (Seq (segs 7) (Alt v6Seg colon))
   (Alt (Seq (segs 6) (Alt v4Str (Alt (Seq colon v6Seg) colon)))
   (Alt (Seq (segs 5)
             (Alt (Seq colon v4Str) (Alt (tails 1 2) colon)))
   (Alt (Seq (segs 4)
             (Alt (Seq (tails 0 1) (Seq colon v4Str))
                  (Alt (tails 1 3) colon)))
   (Alt (Seq (segs 3)
             (Alt (Seq (tails 0 2) (Seq colon v4Str))
                  (Alt (tails 1 4) colon)))
   (Alt (Seq (segs 2)
             (Alt (Seq (tails 0 3) (Seq colon v4Str))
                  (Alt (tails 1 5) colon)))
   (Alt (Seq (segs 1)
             (Alt (Seq (tails 0 4) (Seq colon v4Str))
                  (Alt (tails 1 6) colon)))
        (Seq colon
             (Alt (Seq (tails 0 5) (Seq colon v4Str))
                  (Alt (tails 1 7) colon))))))))))
   zone.

Definition isIPv6 (s : string) : bool := test IPv6Reg s.

End Net.

(* ================================================================== *)
(** ** JavaScript numbers that are integers *)

Module Num.

(** [String(n)], as a template literal renders an integer. *)
Definition toString (n : Z) : string :=
  DecimalString.NilZero.string_of_int (Z.to_int n).

(** [n.toString(16)] for a non-negative integer. *)
Definition toHex (n : N) : string :=
  HexadecimalString.NilZero.string_of_uint (N.to_hex_uint n).

Definition is_digit (c : ascii) : bool := Regex.in_range "0" "9" c.

Definition hex_value (c : ascii) : option N :=
  if Regex.in_range "0" "9" c then Some (N_of_ascii c - 48)%N
  else if Regex.in_range "a" "f" c then Some (N_of_ascii c - 87)%N
  else if Regex.in_range "A" "F" c then Some (N_of_ascii c - 55)%N
  else None.

(** The longest prefix of digits in the given radix, read left to
    right onto the accumulator; [seen] records that there was one. *)
Fixpoint parse_prefix (radix : N) (s : string) (seen : bool) (acc : N)
  : option N :=
  match s with
  | EmptyString => if seen then Some acc else None
  | String c s' =>
      match hex_value c with
      | Some d =>
          if (d <? radix)%N
          then parse_prefix radix s' true (acc * radix + d)%N
          else if seen then Some acc else None
      | None => if seen then Some acc else None
      end
  end.

(** [parseInt(s, radix)] on a string without sign or blanks; [None] is
    [NaN]. *)
Definition parseInt (s : string) (radix : N) : option N :=
  parse_prefix radix s false 0%N.

(** [s.padStart(width, "0")] *)
Fixpoint zeros (n : nat) : string :=
  match n with
  | O => ""
  | S n' => String "0" (zeros n')
  end.
Definition padStart0 (width : nat) (s : string) : string :=
  zeros (width - String.length s) ++ s.

(** [/^\d*$/.test(s)] *)
Fixpoint all_digits (s : string) : bool :=
  match s with
  | EmptyString => true
  | String c s' => is_digit c && all_digits s'
  end.

End Num.

(* ================================================================== *)
(** ** The [ip-address] package: [Address6]

    The constructor, [startAddress] and [correctForm], the three members
    [ipKeyGenerator] uses.  A [throw new AddressError(...)] is [inl] of the
    reason; the message texts are in the comments. *)

Module IpAddress.
Import Regex.

Inductive AddressError : Type :=
| InvalidSubnetMask        (* 'Invalid subnet mask.' *)
| LeadingZeroes4           (* "IPv4 addresses can't have leading zeroes." *)
| BadCharacters            (* 'Bad character(s) detected in address: ...' *)
| AddressFailedRegex       (* 'Address failed regex: ...' *)
| ErrorParsingGroups       (* 'Error parsing groups' *)
| TooManyElisions          (* 'Too many :: groups found' *)
| IncorrectNumberOfGroups  (* 'Incorrect number of groups found' *)
| GroupNotANumber.         (* a group [parseInt] reads as [NaN] *)

Definition result (A : Type) : Type := (AddressError + A)%type.
Definition ok {A : Type} (a : A) : result A := inr a.
Definition throw {A : Type} (e : AddressError) : result A := inl e.
Definition bind {A B : Type} (m : result A) (k : A -> result B) : result B :=
  match m with
  | inl e => inl e
  | inr a => k a
  end.

Notation "x <- m ;; k" := (bind m (fun x => k))
  (at level 61, m at next level, right associativity).

Definition BITS : Z := 128.
Definition GROUPS : nat := 8.

(** *** Regular expressions of [v4/constants] and [v6/constants] *)

Definition digit : regex := Range "0" "9".
Definition hexdigit : regex :=
  Alt (Range "0" "9") (Alt (Range "a" "f") (Range "A" "F")).
Definition any : regex := Range zero "255".
Definition notColon : regex := Alt (Range zero "9") (Range ";" "255").

(** [(25[0-5]|2[0-4][0-9]|[01]?[0-9][0-9]?)] *)
Definition octet : regex :=
  Alt (Seq (Chr "2") (Seq (Chr "5") (Range "0" "5")))
 (Alt (Seq (Chr "2") (Seq (Range "0" "4") digit))
      (Seq (Opt (Range "0" "1")) (Seq digit (Opt digit)))).

(** [constants4.RE_ADDRESS]: four octets between [^] and [$]. *)
Definition RE_ADDRESS : regex := Seq (Times 3 (Seq octet (Chr "."))) octet.

(** [/^0[0-9]+/], a prefix test. *)
Definition RE_LEADING_ZERO : regex :=
  Seq (Chr "0") (Seq (Plus digit) (Star any)).

(** [constants6.RE_BAD_CHARACTERS = /([^0-9a-f:/%])/gi]: the test
    succeeds when every character is outside the negated class. *)
Definition allowedChar : regex :=
  Alt hexdigit (Alt (Chr ":") (Alt (Chr "/") (Chr "%"))).
Definition no_bad_characters (s : string) : bool := test (Star allowedChar) s.

(** [constants6.RE_BAD_ADDRESS =
    /([0-9a-f]{5,}|:{3,}|[^:]:$|^:[^:]|\/$)/gi], found anywhere. *)
Definition RE_BAD_ADDRESS : regex :=
  Alt (Seq (Star any) (Seq (Times 5 hexdigit) (Star any)))
 (Alt (Seq (Star any) (Seq (Times 3 (Chr ":")) (Star any)))
 (Alt (Seq (Star any) (Seq notColon (Chr ":")))
 (Alt (Seq (Chr ":") (Seq notColon (Star any)))
      (Seq (Star any) (Chr "/"))))).

(** *** Subnet and zone suffixes *)

(** The leading run of decimal digits and what follows it. *)
Fixpoint span_digits (s : string) : string * string :=
  match s with
  | EmptyString => ("", "")
  | String c s' =>
      if Num.is_digit c
      then let (ds, rest) := span_digits s' in (String c ds, rest)
      else ("", s)
  end.

(** The look-ahead [(?=%|$)]. *)
Definition at_zone_or_end (s : string) : bool :=
  match s with
  | EmptyString => true
  | String c _ => Ascii.eqb c "%"
  end.

(** [constants6.RE_SUBNET_STRING.exec(address)] for
    [/\/\d{1,3}(?=%|$)/]: the leftmost slash followed by one to three
    digits after which comes [%] or the end.  A longer run of digits
    cannot match, the look-ahead meets a digit.  Returns what precedes
    the match, its digits and what follows it. *)
Fixpoint exec_subnet (s : string) : option (string * string * string) :=
  match s with
  | EmptyString => None
  | String c s' =>
      let (ds, rest) := span_digits s' in
      if Ascii.eqb c "/"
         && (1 <=? String.length ds)%nat && (String.length ds <=? 3)%nat
         && at_zone_or_end rest
      then Some ("", ds, rest)
      else match exec_subnet s' with
           | Some (pre, ds', post) => Some (String c pre, ds', post)
           | None => None
           end
  end.

Definition is_line_terminator (c : ascii) : bool :=
  Ascii.eqb c "010" || Ascii.eqb c "013".

Fixpoint no_line_terminator (s : string) : bool :=
  match s with
  | EmptyString => true
  | String c s' => negb (is_line_terminator c) && no_line_terminator s'
  end.

(** [constants6.RE_ZONE_STRING = /%.*$/]: the address without the
    match, and the match (the zone). *)
Fixpoint split_zone (s : string) : string * string :=
  match s with
  | EmptyString => ("", "")
  | String c s' =>
      if Ascii.eqb c "%" && no_line_terminator s'
      then ("", s)
      else let (a, z) := split_zone s' in (String c a, z)
  end.

(** *** IPv4 in the last group *)

(** [stringToPaddedHex] of [v4/Address4]. *)
Definition stringToPaddedHex (octet : string) : string :=
  match Num.parseInt octet 10 with
  | Some n => Num.padStart0 2 (Num.toHex n)
  | None => "NaN"
  end.

(** [Address4.toGroup6]: the four octets as two groups. *)
Definition toGroup6 (parsed4 : list string) : string :=
  match parsed4 with
  | [a; b; c; d] =>
      (stringToPaddedHex a ++ stringToPaddedHex b) ++ ":" ++
      (stringToPaddedHex c ++ stringToPaddedHex d)
  | _ => ""
  end.

(** [groups.slice(0, -1)] and [groups.slice(-1)[0]] *)
Definition init_last (groups : list string) : list string * string :=
  (removelast groups, last groups "").

(** [Address6.parse4in6] *)
Definition parse4in6 (address : string) : result string :=
  let groups := Str.split ":" address in
  let (front, lastGroup) := init_last groups in
  if test RE_ADDRESS lastGroup then
    let parsed4 := Str.split "." lastGroup in
    if existsb (test RE_LEADING_ZERO) parsed4 then throw LeadingZeroes4
    else ok (Str.join ":" (front ++ [toGroup6 parsed4])%list)
  else ok address.

(** *** Groups *)

(** [sprintf('%x', parseInt(group, 16))], kept as the number. *)
Fixpoint parse_groups (groups : list string) : result (list N) :=
  match groups with
  | [] => ok []
  | g :: rest =>
      match Num.parseInt g 16 with
      | None => throw GroupNotANumber
      | Some n => ns <- parse_groups rest ;; ok (n :: ns)
      end
  end.

Definition split_groups (half : string) : list string :=
  match Str.split ":" half with
  | [""] => []
  | gs => gs
  end.

(** [Address6.parse] *)
Definition parse (address0 : string) : result (list N) :=
  address <- parse4in6 address0 ;;
  if negb (no_bad_characters address) then throw BadCharacters
  else if test RE_BAD_ADDRESS address then throw AddressFailedRegex
  else
    groups <-
      match Str.split_elision address with
      | [h0; h1] =>
          let first := split_groups h0 in
          let last := split_groups h1 in
          let remaining :=
            Z.of_nat GROUPS - Z.of_nat (List.length first + List.length last) in
          if remaining =? 0 then throw ErrorParsingGroups
          else ok (first ++ repeat "0" (Z.to_nat remaining) ++ last)%list
      | [_] => ok (Str.split ":" address)
      | _ => throw TooManyElisions
      end ;;
    parsed <- parse_groups groups ;;
    if negb (List.length parsed =? GROUPS)%nat then throw IncorrectNumberOfGroups
    else ok parsed.

(** *** The class *)

Record Address6 : Type := mkAddress6 {
  address : string;
  subnetMask : Z;
  zone : string;
  addressMinusSuffix : string;
  parsedAddress : list N
}.

(** The head of the constructor: the subnet mask the address carries
    ([128] when it carries none) and the address without it. *)
Definition take_subnet (address0 : string) : result (Z * string) :=
  match exec_subnet address0 with
  | Some (pre, ds, post) =>
      match Num.parseInt ds 10 with
      | Some m =>
          if (Z.of_N m <? 0) || (BITS <? Z.of_N m)
          then throw InvalidSubnetMask
          else ok (Z.of_N m, pre ++ post)
      | None => throw InvalidSubnetMask
      end
  | None =>
      if Str.includes "/" address0 then throw InvalidSubnetMask
      else ok (128, address0)
  end.

(** [new Address6(address)] *)
Definition new_Address6 (address0 : string) : result Address6 :=
  p <- take_subnet address0 ;;
  let (mask, address1) := p in
  let (address2, zone0) := split_zone address1 in
  parsed <- parse address2 ;;
  ok (mkAddress6 address0 mask zone0 address2 parsed).

(** [Address6.bigInt]: the eight groups as one 128-bit number. *)
Definition bigInt (a : Address6) : Z :=
  fold_left (fun acc g => Z.shiftl acc 16 + Z.of_N g) (parsedAddress a) 0.

(** [Address6._startAddress]: the first [subnetMask] bits of the
    zero-padded binary form, then zeros up to [BITS]. *)
Definition _startAddress (a : Address6) : Z :=
  Z.shiftl (Z.shiftr (bigInt a) (BITS - subnetMask a)) (BITS - subnetMask a).

(** [hex.slice(i * 4, (i + 1) * 4)] of the 32-digit hexadecimal form. *)
Definition hex_group (z : Z) (i : nat) : string :=
  Num.padStart0 4
    (Num.toHex (Z.to_N (Z.land (Z.shiftr z (16 * (7 - Z.of_nat i))) 65535))).

(** [Address6.fromBigInt] *)
Definition fromBigInt (z : Z) : result Address6 :=
  new_Address6 (Str.join ":" (map (hex_group z) (List.seq 0%nat GROUPS))).

(** [Address6.startAddress] *)
Definition startAddress (a : Address6) : result Address6 :=
  fromBigInt (_startAddress a).

(** *** [correctForm] *)

(** The runs of two or more zero groups, as [start, end] index pairs,
    [i] the index of the head of [groups] and [zeroCounter] the zeros
    seen just before it. *)
Fixpoint zero_runs (groups : list N) (i zeroCounter : nat)
  : list (nat * nat) :=
  match groups with
  | [] =>
      if (1 <? zeroCounter)%nat then [(i - zeroCounter, i - 1)%nat] else []
  | g :: rest =>
      if (g =? 0)%N then zero_runs rest (S i) (S zeroCounter)
      else if (1 <? zeroCounter)%nat
           then (i - zeroCounter, i - 1)%nat :: zero_runs rest (S i) 0
           else zero_runs rest (S i) 0
  end.

Definition run_length (r : nat * nat) : nat := snd r - fst r + 1.

(** [zeroes[zeroLengths.indexOf(Math.max(...zeroLengths))]]: the first
    of the longest runs. *)
Fixpoint longest_run (runs : list (nat * nat)) : option (nat * nat) :=
  match runs with
  | [] => None
  | r :: rest =>
      match longest_run rest with
      | Some r' => if (run_length r <? run_length r')%nat
                   then Some r' else Some r
      | None => Some r
      end
  end.

(** [compact(address, slice)] followed by the hexadecimal rendering
    and the three [replace] calls: the marker becomes ["::"] when it
    stands alone, [":"] at either end and the empty string inside. *)
Definition compacted (groups : list N) (slice : nat * nat) : list string :=
  let s1 := map Num.toHex (firstn (fst slice) groups) in
  let s2 := map Num.toHex (skipn (S (snd slice)) groups) in
  let marker :=
    match s1, s2 with
    | [], [] => "::"
    | [], _ => ":"
    | _, [] => ":"
    | _, _ => ""
    end in
  (s1 ++ [marker] ++ s2)%list.

(** [Address6.correctForm] *)
Definition correctForm (a : Address6) : string :=
  match longest_run (zero_runs (parsedAddress a) 0 0) with
  | Some slice => Str.join ":" (compacted (parsedAddress a) slice)
  | None => Str.join ":" (map Num.toHex (parsedAddress a))
  end.

End IpAddress.

(* ================================================================== *)
(** ** [Map<string, string>]

    A JavaScript [Map] iterates in insertion order, and [ipKeyGenerator]
    relies on it: the first key is the oldest.  The model is the list of
    entries in that order, one entry per key. *)

Module JsMap.

Definition Map : Type := list (string * string).

(** [new Map()] *)
Definition empty : Map := [].

(** [m.get(k)]; [None] is [undefined]. *)
Fixpoint get (k : string) (m : Map) : option string :=
  match m with
  | [] => None
  | (k', v) :: m' => if String.eqb k' k then Some v else get k m'
  end.

(** [m.size] *)
Definition size (m : Map) : Z := Z.of_nat (List.length m).

(** [m.keys().next().value] *)
Definition first_key (m : Map) : option string :=
  match m with
  | [] => None
  | (k, _) :: _ => Some k
  end.

(** [m.delete(k)] *)
Fixpoint delete (k : string) (m : Map) : Map :=
  match m with
  | [] => []
  | (k', v) :: m' =>
      if String.eqb k' k then delete k m' else (k', v) :: delete k m'
  end.

(** [m.set(k, v)]: a key already present keeps its place and takes the
    new value, a new key goes last. *)
Fixpoint set (k v : string) (m : Map) : Map :=
  match m with
  | [] => [(k, v)]
  | (k', v') :: m' =>
      if String.eqb k' k then (k, v) :: m' else (k', v') :: set k v m'
  end.

Definition keys (m : Map) : list string := map fst m.

End JsMap.

(* ================================================================== *)
(** ** [ipKeyGenerator] *)

Import IpAddress.

(** The second parameter, [number | false].  The number is a prefix length
    and is an integer here.  Of the other numbers [NaN] is falsy like 0,
    and a fraction or an infinity renders with a character that is no
    digit, which [Address6] refuses as it refuses a sign. *)
Inductive Ipv6Subnet : Type :=
| SubnetFalse
| SubnetNumber (n : Z).

(** [!ipv6Subnet] is false for a number other than zero only. *)
Definition truthy (s : Ipv6Subnet) : bool :=
  match s with
  | SubnetFalse => false
  | SubnetNumber n => negb (n =? 0)
  end.

(** [`${ipv6Subnet}`] *)
Definition render (s : Ipv6Subnet) : string :=
  match s with
  | SubnetFalse => "false"
  | SubnetNumber n => Num.toString n
  end.

Definition MAX_CACHE_SIZE : Z := 10000.

(** [`${ip}/${ipv6Subnet}`] *)
Definition cacheKeyOf (ip : string) (ipv6Subnet : Ipv6Subnet) : string :=
  ip ++ "/" ++ render ipv6Subnet.

(** One call of [ipKeyGenerator], with the module's [ipv6Cache] before the
    call as first argument and after it in the result.  An omitted
    second argument is [None]; a thrown [AddressError] is [inl]. *)
Definition ipKeyGenerator (ipv6Cache : JsMap.Map) (ip : string)
    (arg : option Ipv6Subnet) : result string * JsMap.Map :=
  let ipv6Subnet := match arg with
                    | Some s => s
                    | None => SubnetNumber 56
                    end in
  if negb (truthy ipv6Subnet) || negb (Net.isIPv6 ip) then
    (ok ip, ipv6Cache)
  else
    let cacheKey := cacheKeyOf ip ipv6Subnet in
    match JsMap.get cacheKey ipv6Cache with
    | Some cached => (ok cached, ipv6Cache)
    | None =>
        match (a <- new_Address6 cacheKey ;;
               start <- startAddress a ;;
               ok (correctForm start ++ "/" ++ render ipv6Subnet)) with
        | inl e => (throw e, ipv6Cache)
        | inr result =>
            let ipv6Cache1 :=
              if JsMap.size ipv6Cache >=? MAX_CACHE_SIZE then
                match JsMap.first_key ipv6Cache with
                | Some firstKey => JsMap.delete firstKey ipv6Cache
                | None => ipv6Cache
                end
              else ipv6Cache in
            (ok result, JsMap.set cacheKey result ipv6Cache1)
        end
    end.

(** A call as the caller writes it: the address and, when given, the
    subnet. *)
Definition Call : Type := (string * option Ipv6Subnet)%type.

(** The cache after a sequence of calls. *)
Definition cache_after (calls : list Call) (ipv6Cache : JsMap.Map)
  : JsMap.Map :=
  fold_left (fun c call => snd (ipKeyGenerator c (fst call) (snd call)))
            calls ipv6Cache.

(** The states the module's cache can be in: it starts empty and only
    [ipKeyGenerator] touches it. *)
Definition history (calls : list Call) : JsMap.Map :=
  cache_after calls JsMap.empty.

(** *** The cache-free reference

    What the specification asks of a call that collapses: the subnet's
    starting address in canonical compressed form, then [/subnetSize];
    nothing is remembered between calls. *)
Definition subnet_start (ip : string) (subnetSize : Z) : result string :=
  a <- new_Address6 (ip ++ "/" ++ Num.toString subnetSize) ;;
  start <- startAddress a ;;
  ok (correctForm start).

Definition normalize_reference (ip : string) (subnetSize : Z)
  : result string :=
  start <- subnet_start ip subnetSize ;;
  ok (start ++ "/" ++ Num.toString subnetSize).

(* ================================================================== *)
(** ** The counter store *)

Module CounterStore.

(** Modelled from the spec: the Hit Record of the data model, the
    store's class [MemoryStore] being built into [dist/index.mjs], which
    is not part of the sources; [count] is the number of hits in the
    current window and [resetTime] the instant the window ends. *)
Record HitRecord : Type := mkHitRecord {
  count : Z;
  resetTime : Z
}.

(** Modelled from the spec: the store holds the window length once
    [init] has been called, and one record per client key. *)
Record Store : Type := mkStore {
  windowDurationMs : option Z;
  records : list (string * HitRecord)
}.

Inductive StoreError : Type :=
| NotInitialized.

Definition create : Store := mkStore None [].

(** Modelled from the spec: [init(windowDurationMs)] configures the
    window length. *)
Definition init (w : Z) (st : Store) : Store :=
  mkStore (Some w) (records st).

Fixpoint lookup (key : string) (rs : list (string * HitRecord))
  : option HitRecord :=
  match rs with
  | [] => None
  | (k, r) :: rs' => if String.eqb k key then Some r else lookup key rs'
  end.

Fixpoint put (key : string) (r : HitRecord) (rs : list (string * HitRecord))
  : list (string * HitRecord) :=
  match rs with
  | [] => [(key, r)]
  | (k, r') :: rs' =>
      if String.eqb k key then (key, r) :: rs' else (k, r') :: put key r rs'
  end.

(** Modelled from the spec: a record with [resetTime <= t] is expired
    at time [t], whether or not it has been cleaned up; the live record
    of a key is the one it has that is not expired. *)
Definition live_record (st : Store) (now : Z) (key : string)
  : option HitRecord :=
  match lookup key (records st) with
  | Some r => if resetTime r <=? now then None else Some r
  | None => None
  end.

(** Modelled from the spec: [increment(key)] at time [now].  Without a
    live record a fresh one is created with [count = 1] and
    [resetTime = now + windowDurationMs]; a live record has its count
    raised by one and keeps its [resetTime].  The result is the
    record's count and reset time; before [init] it is
    [NotInitialized]. *)
Definition increment (st : Store) (now : Z) (key : string)
  : StoreError + (HitRecord * Store) :=
  match windowDurationMs st with
  | None => inl NotInitialized
  | Some w =>
      let r :=
        match live_record st now key with
        | None => mkHitRecord 1 (now + w)
        | Some r0 => mkHitRecord (count r0 + 1) (resetTime r0)
        end in
      inr (r, mkStore (Some w) (put key r (records st)))
  end.

(** Consecutive [increment(key)] calls at the given times; the
    results in call order and the store they leave. *)
Fixpoint increments (st : Store) (key : string) (times : list Z)
  : StoreError + (list HitRecord * Store) :=
  match times with
  | [] => inr ([], st)
  | t :: times' =>
      match increment st t key with
      | inl e => inl e
      | inr (r, st') =>
          match increments st' key times' with
          | inl e => inl e
          | inr (rs, st'') => inr (r :: rs, st'')
          end
      end
  end.

(** The results the spec announces: counts [first], [first + 1], ...
    with one reset time. *)
Fixpoint counting (first : Z) (n : nat) (reset : Z) : list HitRecord :=
  match n with
  | O => []
  | S n' => mkHitRecord first reset :: counting (first + 1) n' reset
  end.

End CounterStore.

(* ================================================================== *)
(** ** Vocabulary of the statements *)

(** The subnet a call works with: the argument, or 56. *)
Definition subnetOf (arg : option Ipv6Subnet) : Ipv6Subnet :=
  match arg with
  | Some s => s
  | None => SubnetNumber 56
  end.

(** What a cache miss computes. *)
Definition computed (ip : string) (s : Ipv6Subnet) : result string :=
  a <- new_Address6 (cacheKeyOf ip s) ;;
  start <- startAddress a ;;
  ok (correctForm start ++ "/" ++ render s).

(** The cache a miss leaves: the oldest entry dropped when the cache is
    full, the new entry last. *)
Definition inserted (c : JsMap.Map) (key v : string) : JsMap.Map :=
  ((if JsMap.size c >=? MAX_CACHE_SIZE then tl c else c) ++ [(key, v)])%list.

(** *** The states of the cache *)

(** Keys are unique, the size is bounded, and every entry holds what a
    miss on its key computes. *)
Record cache_ok (c : JsMap.Map) : Prop := mk_cache_ok {
  ok_keys : NoDup (JsMap.keys c);
  ok_size : JsMap.size c <= MAX_CACHE_SIZE;
  ok_values : forall ip s v,
      JsMap.get (cacheKeyOf ip s) c = Some v -> computed ip s = inr v
}.

Definition capacity : nat := Z.to_nat MAX_CACHE_SIZE.

(** The last [n] elements of a list. *)
Definition lastn {A : Type} (n : nat) (l : list A) : list A :=
  skipn (List.length l - n) l.

(** The key a call looks up, the string a miss on it computes, and the
    cache entry the two make. *)
Definition keyOf (call : Call) : string :=
  cacheKeyOf (fst call) (subnetOf (snd call)).

Definition valueOf (call : Call) : string :=
  match computed (fst call) (subnetOf (snd call)) with
  | inr v => v
  | inl _ => ""
  end.

Definition entryOf (call : Call) : string * string :=
  (keyOf call, valueOf call).

(** The call collapses an IPv6 address and the computation succeeds. *)
Definition collapses (call : Call) : bool :=
  truthy (subnetOf (snd call)) && Net.isIPv6 (fst call)
  && match computed (fst call) (subnetOf (snd call)) with
     | inr _ => true
     | inl _ => false
     end.

(** Two calls in a row, the second on the string the first returned;
    an error of the first is the error of both. *)
Definition normalize_twice (c : JsMap.Map) (ip : string)
    (arg : option Ipv6Subnet) : result string * JsMap.Map :=
  let (r, c1) := ipKeyGenerator c ip arg in
  match r with
  | inl e => (inl e, c1)
  | inr v => ipKeyGenerator c1 v arg
  end.

(** Pairwise different strings, decided. *)
Fixpoint distinct (l : list string) : bool :=
  match l with
  | [] => true
  | x :: rest => negb (existsb (String.eqb x) rest) && distinct rest
  end.

(** *** Sample inputs *)

Definition sample_ip : string := "2001:db8:85a3::8a2e:370:7334".


Definition sample_calls : list Call :=
  [(sample_ip, None);
   ("::1", Some (SubnetNumber 64));
   (sample_ip, Some (SubnetNumber 64))].

Definition sample_cache : JsMap.Map :=
  [("::1/64", "::/64"); ("::2/64", "::/64")].

(* ================================================================== *)
(** ** The benchmark's key-generation runs

    [benchmark.mjs] drives [ipKeyGenerator] twice, over a thousand IPv6
    addresses with the subnet size 56 and over a thousand IPv4 addresses
    with [false].  The clock, the console and the figures computed from
    the clock are left out; what is kept is which calls are made, in
    which order, on which state. *)

Module Benchmark.

Definition ITERATIONS : N := 100000.
Definition WARMUP : N := 1000.

(** [fn] called [n] times in a row; a call that throws ends the run. *)
Definition repeatM {S : Type} (n : N) (fn : S -> result S) (s : S)
  : result S :=
  N.iter n (fun r => bind r fn) (ok s).

(** [benchmark(name, fn)]: the warm-up calls, then the timed calls. *)
Definition benchmark {S : Type} (fn : S -> result S) (s : S) : result S :=
  s1 <- repeatM WARMUP fn s ;;
  repeatM ITERATIONS fn s1.

(** The indices [Array.from({ length: n }, (_, i) => ...)] runs over. *)
Definition indices (n : nat) : list N := map N.of_nat (List.seq 0 n).

(** [`2001:0db8:85a3:${i.toString(16).padStart(4, '0')}:0000:8a2e:0370:7334`] *)
Definition ipv6Address (i : N) : string :=
  "2001:0db8:85a3:" ++ Num.padStart0 4 (Num.toHex i) ++ ":0000:8a2e:0370:7334".

Definition ipv6Addresses : list string := map ipv6Address (indices 1000).

(** [`192.168.${Math.floor(i / 256)}.${i % 256}`] *)
Definition ipv4Address (i : N) : string :=
  "192.168." ++ Num.toString (Z.of_N (i / 256)) ++ "."
  ++ Num.toString (Z.of_N (i mod 256)).

Definition ipv4Addresses : list string := map ipv4Address (indices 1000).

(** What a run's closure works on: its own [index] and the module's
    cache. *)
Record State : Type := mkState {
  index : N;
  ipv6Cache : JsMap.Map
}.

(** [addresses[index % addresses.length]] *)
Definition pick (addresses : list string) (index : N) : string :=
  nth (N.to_nat (index mod N.of_nat (List.length addresses))) addresses "".

(** The closure of a run: pick the address, advance the index, call
    [ipKeyGenerator]; the returned key is dropped by [benchmark]. *)
Definition keyCall (addresses : list string) (subnet : Ipv6Subnet)
    (st : State) : result State :=
  let ip := pick addresses (index st) in
  let index1 := (index st + 1)%N in
  match ipKeyGenerator (ipv6Cache st) ip (Some subnet) with
  | (inl e, _) => throw e
  | (inr _, c) => ok (mkState index1 c)
  end.

(** [testIpv6KeyGeneration] and [testIpv4KeyGeneration], on the cache the
    module has when they start. *)
Definition testIpv6KeyGeneration (c : JsMap.Map) : result State :=
  benchmark (keyCall ipv6Addresses (SubnetNumber 56)) (mkState 0 c).

Definition testIpv4KeyGeneration (c : JsMap.Map) : result State :=
  benchmark (keyCall ipv4Addresses SubnetFalse) (mkState 0 c).

(** The key the IPv6 run gets for its [i]-th address: the fourth group
    keeps its high byte only. *)
Definition subnetKey (i : N) : string :=
  if (i / 256 =? 0)%N then "2001:db8:85a3::/56"
  else "2001:db8:85a3:" ++ Num.toHex (i / 256 * 256) ++ "::/56".

(** The cache once every address of the IPv6 run has been seen. *)
Definition warmCache : JsMap.Map :=
  map (fun i => (cacheKeyOf (ipv6Address i) (SubnetNumber 56), subnetKey i))
      (indices 1000).

(** What stands before and after the fourth group of an address of the
    IPv6 run. *)
Definition before4 : string := "2001:0db8:85a3:".
Definition after4 : string := ":0000:8a2e:0370:7334".

(** The calls of the warm-up of the IPv6 run, one per address. *)
Definition warmCalls : list Call :=
  map (fun i => (ipv6Address i, Some (SubnetNumber 56))) (indices 1000).

(** *** Addresses that differ in four hexadecimal digits

    The addresses of the IPv6 run differ in their fourth group only, so
    what the regular expressions make of one of them is settled by what
    they make of the digits [0000] there. *)

Definition lower_hex (c : ascii) : bool :=
  Regex.in_range "0" "9" c || Regex.in_range "a" "f" c.

Definition is_hex4 (h : string) : bool :=
  match h with
  | String a (String b (String c (String d EmptyString))) =>
      lower_hex a && lower_hex b && lower_hex c && lower_hex d
  | _ => false
  end.

(** The derivative by a string. *)
Definition derivs (r : Regex.regex) (l : list ascii) : Regex.regex :=
  fold_left (fun r c => Regex.deriv c r) l r.

(** Every lower-case hexadecimal digit takes [r] where [0] takes it. *)
Definition hex_uniform (r : Regex.regex) : Prop :=
  forall c, lower_hex c = true -> Regex.deriv c r = Regex.deriv "0" r.

Definition hex_uniform4 (r : Regex.regex) : Prop :=
  hex_uniform r
  /\ hex_uniform (Regex.deriv "0" r)
  /\ hex_uniform (Regex.deriv "0" (Regex.deriv "0" r))
  /\ hex_uniform (Regex.deriv "0" (Regex.deriv "0" (Regex.deriv "0" r))).

(** [Address6.parse] after its three screens: the groups. *)
Definition parse_tail (address : string) : result (list N) :=
  groups <-
    match Str.split_elision address with
    | [h0; h1] =>
        let first := split_groups h0 in
        let last := split_groups h1 in
        let remaining :=
          Z.of_nat GROUPS - Z.of_nat (List.length first + List.length last) in
        if remaining =? 0 then throw ErrorParsingGroups
        else ok (first ++ repeat "0" (Z.to_nat remaining) ++ last)%list
    | [_] => ok (Str.split ":" address)
    | _ => throw TooManyElisions
    end ;;
  parsed <- parse_groups groups ;;
  if negb (List.length parsed =? GROUPS)%nat then throw IncorrectNumberOfGroups
  else ok parsed.

(** The number the eight groups make. *)
Definition groupsValue (groups : list N) : Z :=
  fold_left (fun acc g => Z.shiftl acc 16 + Z.of_N g) groups 0.

(** The first 56 bits of the benchmark's addresses, but for the last
    two. *)
Definition prefix56 : Z := 0x20010db885a300.

(** What is settled address by address, without a regular expression
    over the whole address: the fourth group is four hexadecimal digits
    and reads back as the index, there is no zone, the last group is no
    IPv4 address, and the groups make a number whose first 56 bits are
    [prefix56] plus the high byte of the index. *)
Definition address_ok (j : N) : bool :=
  let ip := ipv6Address j in
  is_hex4 (Num.padStart0 4 (Num.toHex j))
  && match Num.parseInt (substring 15 4 ip) 16 with
     | Some k => (k =? j)%N
     | None => false
     end
  && negb (Str.includes "%" ip)
  && match parse4in6 ip with
     | inr a => String.eqb a ip
     | inl _ => false
     end
  && match parse_tail ip with
     | inr groups =>
         Z.shiftr (groupsValue groups) 72 =? prefix56 + Z.of_N (j / 256)
     | inl _ => false
     end.

(** What a miss computes from the first 56 bits [prefix56 + k], checked
    against the key of the addresses with that high byte. *)
Definition group_ok (k : N) : bool :=
  match (start <- fromBigInt (Z.shiftl (prefix56 + Z.of_N k) 72) ;;
         ok (correctForm start ++ "/" ++ Num.toString 56)) with
  | inr v => String.eqb v (subnetKey (k * 256))
  | inl _ => false
  end.

End Benchmark.

(** The address as the 128-bit number [Address6] reads from it. *)
Definition addressBits (ip : string) : result Z :=
  a <- new_Address6 ip ;;
  ok (bigInt a).

(* ================================================================== *)
(** ** Addresses as they are written

    The vocabulary for the texts [isIPv6] accepts and [Address6] reads:
    groups of hexadecimal digits between colons, with an IPv4 part at
    the end at most. *)

Module Text.

(** A hexadecimal digit, of either case. *)
Definition is_hex (c : ascii) : bool := Regex.mentions c Net.hexdigit.

(** The strings of a list, one after the other. *)
Definition flat (parts : list string) : string := fold_right append "" parts.

(** A group of an address as it is written: one to four hexadecimal
    digits. *)
Definition group (g : string) : bool :=
  (1 <=? String.length g)%nat && (String.length g <=? 4)%nat
  && forallb is_hex (Str.chars g).

(** One pass over an address that holds hexadecimal digits and colons
    only: [h] counts the digits and [c] the colons read in a row just
    before; a fifth digit or a third colon in a row, or any other
    character, ends the pass with [None]. *)
Fixpoint scan (h c : nat) (s : string) : option (nat * nat) :=
  match s with
  | EmptyString => Some (h, c)
  | String a s' =>
      if is_hex a then
        if (h <? 4)%nat then scan (S h) 0 s' else None
      else if Ascii.eqb a ":" then
        if (c <? 2)%nat then scan 0 (S c) s' else None
      else None
  end.

(** The string starts with a colon that is not followed by another. *)
Definition starts_single_colon (s : string) : bool :=
  match s with
  | String a (String b _) => Ascii.eqb a ":" && negb (Ascii.eqb b ":")
  | _ => false
  end.

(** [parseInt(g, 16)] reads the number [n] from the group. *)
Definition reads (g : string) (n : N) : Prop := Num.parseInt g 16 = Some n.

(** *** The groups [fromBigInt] writes *)

(** The hexadecimal digit of a number below sixteen, four of them in a
    row, and the number the four make. *)
Definition nibble (k : N) : ascii :=
  nth (N.to_nat k) (Str.chars "0123456789abcdef") "0"%char.

Definition digits4 (a b c d : N) : string :=
  String (nibble a) (String (nibble b) (String (nibble c)
    (String (nibble d) ""))).

Definition number4 (a b c d : N) : N := (((a * 16 + b) * 16 + c) * 16 + d)%N.

(** A digit is hexadecimal and has its number as value. *)
Definition nibble_ok (k : N) : bool :=
  is_hex (nibble k)
  && match Num.hex_value (nibble k) with
     | Some d => (d =? k)%N
     | None => false
     end.

(** A property of four numbers, checked for all numbers below
    sixteen. *)
Definition all16 (P : N -> N -> N -> N -> bool) : bool :=
  let below16 := Benchmark.indices 16 in
  forallb (fun a => forallb (fun b => forallb (fun c => forallb (fun d =>
    P a b c d) below16) below16) below16) below16.

(** A number below [16^4] is written, as [fromBigInt] writes a group,
    with its four digits. *)
Definition hex4_ok (a b c d : N) : bool :=
  String.eqb (Num.padStart0 4 (Num.toHex (number4 a b c d))) (digits4 a b c d).

(** *** The octets of an IPv4 part *)

(** The characters of a class [[lo-hi]]. *)
Definition range_chars (lo hi : ascii) : list ascii :=
  map (fun n => ascii_of_N (N.of_nat n))
      (List.seq (N.to_nat (N_of_ascii lo))
                (S (N.to_nat (N_of_ascii hi)) - N.to_nat (N_of_ascii lo))).

(** The strings an expression without a star matches. *)
Fixpoint strings (r : Regex.regex) : list string :=
  match r with
  | Regex.Void => []
  | Regex.Eps => [""]
  | Regex.Range lo hi => map (fun c => String c "") (range_chars lo hi)
  | Regex.Alt r1 r2 => (strings r1 ++ strings r2)%list
  | Regex.Seq r1 r2 =>
      flat_map (fun x => map (append x) (strings r2)) (strings r1)
  | Regex.Star _ => []
  end.

Fixpoint star_free (r : Regex.regex) : bool :=
  match r with
  | Regex.Alt r1 r2 | Regex.Seq r1 r2 => star_free r1 && star_free r2
  | Regex.Star _ => false
  | _ => true
  end.

(** Two hexadecimal digits. *)
Definition hex2 (s : string) : bool :=
  (String.length s =? 2)%nat && forallb is_hex (Str.chars s).

(** What [Address6.parse4in6] needs of an octet of an IPv4 part:
    [Address4] takes it, it has no leading zero nor a colon or a dot,
    and it is written as two hexadecimal digits. *)
Definition octet_ok (o : string) : bool :=
  Regex.test octet o
  && negb (Regex.test RE_LEADING_ZERO o)
  && negb (Str.includes ":" o) && negb (Str.includes "." o)
  && hex2 (stringToPaddedHex o).

End Text.

(** [Address6.parse] reads the address: it returns eight groups, each
    a number below [2^16]. *)
Definition readable (s : string) : Prop :=
  exists ns, parse s = ok ns
             /\ List.length ns = 8%nat
             /\ Forall (fun n => (n < 65536)%N) ns.

(** *** Subnet keys from bits *)

(** The eight 16-bit groups of a number, the first the most
    significant; bits beyond the 128th are left out. *)
Definition groupsOfBits (z : Z) : list N :=
  map (fun i => Z.to_N (Z.land (Z.shiftr z (16 * (7 - Z.of_nat i))) 65535))
      (List.seq 0 GROUPS).

(** The canonical compressed text of the address with these bits. *)
Definition canonicalText (z : Z) : string :=
  correctForm (mkAddress6 "" 128 "" "" (groupsOfBits z)).

(** The first [n] bits of the 128 of [z] kept, the other [128 - n]
    cleared. *)
Definition subnetBits (z n : Z) : Z :=
  Z.shiftl (Z.shiftr z (128 - n)) (128 - n).

(** The key of the [/n] subnet of the address with the bits [z]: the
    canonical text of the subnet's first address, then [/n]. *)
Definition subnetKeyOf (z n : Z) : string :=
  canonicalText (subnetBits z n) ++ "/" ++ Num.toString n.

(* ================================================================== *)
(** * Properties *)

(** ** Strings *)

Lemma includes_app (c : ascii) (a b : string) :
  Str.includes c (a ++ b) = Str.includes c a || Str.includes c b.
Proof.
  induction a as [|x a IH]; simpl.
  - reflexivity.
  - rewrite IH. now rewrite orb_assoc.
Qed.

Lemma includes_after_slash (a b : string) :
  Str.includes "/" (a ++ "/" ++ b) = true.
Proof.
  rewrite includes_app. simpl. now rewrite orb_true_r.
Qed.

(** A suffix free of [c] after the last [c] is determined by the whole. *)
Lemma app_sep_inj (c : ascii) (a1 a2 s1 s2 : string) :
  Str.includes c s1 = false -> Str.includes c s2 = false ->
  a1 ++ String c s1 = a2 ++ String c s2 ->
  a1 = a2 /\ s1 = s2.
Proof.
  intros H1 H2. revert a2.
  induction a1 as [|x a1 IH]; intros [|y a2] E; simpl in E.
  - injection E as E. now split.
  - injection E as Ey E. subst s1 y.
    rewrite includes_app in H1. simpl in H1.
    rewrite Ascii.eqb_refl in H1. simpl in H1.
    now rewrite orb_true_r in H1.
  - injection E as Ex E. subst s2 x.
    rewrite includes_app in H2. simpl in H2.
    rewrite Ascii.eqb_refl in H2. simpl in H2.
    now rewrite orb_true_r in H2.
  - injection E as Ex E. subst y.
    destruct (IH a2 E) as [-> ->]. now split.
Qed.

Lemma includes_chars (c : ascii) (s : string) :
  Str.includes c s = true -> In c (Str.chars s).
Proof.
  induction s as [|x s IH]; simpl; [discriminate|].
  intros H. apply orb_true_iff in H as [H|H].
  - left. now apply Ascii.eqb_eq.
  - right. now apply IH.
Qed.

(** ** The matcher *)

Module RegexFacts.
Import Regex.

Lemma matches_Void (s : list ascii) : matches Void s = false.
Proof. induction s; simpl; auto. Qed.

Lemma mentions_alt c r1 r2 :
  mentions c (alt r1 r2) = true -> mentions c r1 || mentions c r2 = true.
Proof.
  destruct r1, r2; simpl; intros H; rewrite ?orb_false_r in *; auto.
Qed.

Lemma mentions_seq c r1 r2 :
  mentions c (seq r1 r2) = true -> mentions c r1 || mentions c r2 = true.
Proof.
  destruct r1; simpl; intros H; auto; discriminate.
Qed.

(** A derivative mentions no character the expression does not. *)
Lemma mentions_deriv c a r :
  mentions c (deriv a r) = true -> mentions c r = true.
Proof.
  induction r as [| |lo hi|r1 IH1 r2 IH2|r1 IH1 r2 IH2|r1 IH1]; simpl.
  - discriminate.
  - discriminate.
  - destruct (in_range lo hi a); discriminate.
  - intros H. apply mentions_alt in H.
    apply orb_true_iff in H as [H|H]; apply orb_true_iff; auto.
  - destruct (nullable r1); intros H.
    + apply mentions_alt in H. apply orb_true_iff in H as [H|H].
      * apply mentions_seq in H.
        apply orb_true_iff in H as [H|H]; apply orb_true_iff; auto.
      * apply orb_true_iff; auto.
    + apply mentions_seq in H.
      apply orb_true_iff in H as [H|H]; apply orb_true_iff; auto.
  - intros H. apply mentions_seq in H. simpl in H.
    apply orb_true_iff in H as [H|H]; auto.
Qed.

(** The derivative by a character the expression does not mention is
    [Void]. *)
Lemma deriv_unmentioned a r : mentions a r = false -> deriv a r = Void.
Proof.
  induction r as [| |lo hi|r1 IH1 r2 IH2|r1 IH1 r2 IH2|r1 IH1]; simpl;
    intros H; auto.
  - now rewrite H.
  - apply orb_false_iff in H as [H1 H2]. now rewrite IH1, IH2.
  - apply orb_false_iff in H as [H1 H2]. rewrite IH1, IH2 by assumption.
    now destruct (nullable r1).
  - now rewrite IH1.
Qed.

(** Every character of a matched string is mentioned. *)
Lemma matches_mentions r s c :
  matches r s = true -> In c s -> mentions c r = true.
Proof.
  revert r. induction s as [|a s IH]; intros r M I; [destruct I|].
  simpl in M. destruct I as [->|I].
  - destruct (mentions c r) eqn:E; [reflexivity|].
    rewrite (deriv_unmentioned _ _ E), matches_Void in M. discriminate.
  - apply (mentions_deriv c a). now apply IH.
Qed.

End RegexFacts.

(** [isIPv6] accepts no string with a slash in it. *)
Lemma isIPv6_no_slash (s : string) :
  Net.isIPv6 s = true -> Str.includes "/" s = false.
Proof.
  intros H. destruct (Str.includes "/" s) eqn:E; [|reflexivity].
  apply includes_chars in E.
  pose proof (RegexFacts.matches_mentions _ _ _ H E) as M.
  vm_compute in M. discriminate.
Qed.

(** ** Decimal rendering *)

Module NumFacts.

Lemma uint_all_digits (d : Decimal.uint) :
  Num.all_digits (DecimalString.NilEmpty.string_of_uint d) = true.
Proof. induction d; simpl; auto. Qed.

Lemma all_digits_no_slash (s : string) :
  Num.all_digits s = true -> Str.includes "/" s = false.
Proof.
  induction s as [|c s IH]; simpl; [reflexivity|].
  intros H. apply andb_true_iff in H as [Hc Hs].
  rewrite (IH Hs), orb_false_r.
  destruct (Ascii.eqb c "/") eqn:E; [|reflexivity].
  apply Ascii.eqb_eq in E. subst c. discriminate.
Qed.

Lemma nilzero_nonnil (d : Decimal.uint) :
  d <> Decimal.Nil ->
  DecimalString.NilZero.string_of_uint d = DecimalString.NilEmpty.string_of_uint d.
Proof. destruct d; simpl; congruence. Qed.

Lemma toString_pos (p : positive) :
  Num.toString (Z.pos p) = DecimalString.NilEmpty.string_of_uint (Pos.to_uint p).
Proof.
  unfold Num.toString. simpl.
  apply nilzero_nonnil, DecimalPos.Unsigned.to_uint_nonnil.
Qed.

Lemma toString_neg (p : positive) :
  Num.toString (Z.neg p)
  = String "-" (DecimalString.NilEmpty.string_of_uint (Pos.to_uint p)).
Proof.
  unfold Num.toString. simpl. f_equal.
  apply nilzero_nonnil, DecimalPos.Unsigned.to_uint_nonnil.
Qed.

Lemma toString_no_slash (n : Z) : Str.includes "/" (Num.toString n) = false.
Proof.
  destruct n as [|p|p].
  - reflexivity.
  - rewrite toString_pos. apply all_digits_no_slash, uint_all_digits.
  - rewrite toString_neg. simpl.
    apply all_digits_no_slash, uint_all_digits.
Qed.

Lemma parse_prefix_digit (c : ascii) (k : N) (s : string) (seen : bool)
    (acc : N) :
  Num.hex_value c = Some k -> (k <? 10)%N = true ->
  Num.parse_prefix 10 (String c s) seen acc
  = Num.parse_prefix 10 s true (acc * 10 + k)%N.
Proof. intros H1 H2. simpl. now rewrite H1, H2. Qed.

Ltac step_digit :=
  cbn [DecimalString.NilEmpty.string_of_uint Pos.of_uint_acc Pos.of_uint];
  match goal with
  | |- context [Num.parse_prefix _ (String ?c _) _ _] =>
      let k := eval vm_compute in (Num.hex_value c) in
      match k with
      | Some ?v => rewrite (parse_prefix_digit c v) by reflexivity
      end
  end.

Ltac read_digit IH := step_digit; rewrite <- IH; f_equal; lia.

(** Reading the digits back, with a positive accumulator. *)
Lemma parse_prefix_acc (d : Decimal.uint) (p : positive) :
  Num.parse_prefix 10 (DecimalString.NilEmpty.string_of_uint d) true
    (N.pos p)
  = Some (N.pos (Pos.of_uint_acc d p)).
Proof.
  revert p. induction d; intros p; [reflexivity | read_digit IHd ..].
Qed.

Lemma parse_prefix_seen (d : Decimal.uint) :
  Num.parse_prefix 10 (DecimalString.NilEmpty.string_of_uint d) true 0%N
  = Some (Pos.of_uint d).
Proof.
  induction d;
    [reflexivity | step_digit; apply IHd
     | step_digit; apply (parse_prefix_acc d) ..].
Qed.

Lemma parseInt_uint (d : Decimal.uint) :
  d <> Decimal.Nil ->
  Num.parseInt (DecimalString.NilEmpty.string_of_uint d) 10
  = Some (Pos.of_uint d).
Proof.
  unfold Num.parseInt. destruct d; intros H;
    [congruence | step_digit; apply parse_prefix_seen
     | step_digit; apply (parse_prefix_acc d) ..].
Qed.

Lemma parseInt_toString (p : positive) :
  Num.parseInt (Num.toString (Z.pos p)) 10 = Some (N.pos p).
Proof.
  rewrite toString_pos, parseInt_uint.
  - now rewrite DecimalPos.Unsigned.of_to.
  - apply DecimalPos.Unsigned.to_uint_nonnil.
Qed.

End NumFacts.

(** ** The subnet suffix of [Address6] *)

Module AddressFacts.
Import NumFacts.

Lemma span_digits_all (s : string) :
  Num.all_digits s = true -> span_digits s = (s, "").
Proof.
  induction s as [|c s IH]; simpl; [reflexivity|].
  intros H. apply andb_true_iff in H as [Hc Hs].
  now rewrite Hc, (IH Hs).
Qed.

Lemma exec_subnet_no_slash (s : string) :
  Str.includes "/" s = false -> exec_subnet s = None.
Proof.
  induction s as [|c s IH]; simpl; [reflexivity|].
  intros H. apply orb_false_iff in H as [Hc Hs].
  rewrite Hc, (IH Hs). simpl. now destruct (span_digits s).
Qed.

(** The search walks over a prefix that has no slash. *)
Lemma exec_subnet_prefix (ip t : string) :
  Str.includes "/" ip = false ->
  exec_subnet (ip ++ t)
  = match exec_subnet t with
    | Some (pre, ds, post) => Some (ip ++ pre, ds, post)
    | None => None
    end.
Proof.
  induction ip as [|c ip IH]; simpl; intros H.
  - now destruct (exec_subnet t) as [[[pre ds] post]|].
  - apply orb_false_iff in H as [Hc Hs].
    rewrite Hc, (IH Hs). simpl.
    destruct (span_digits (ip ++ t)).
    now destruct (exec_subnet t) as [[[pre ds] post]|].
Qed.

(** After a slash come digits only: the match is all of them, when
    they are at most three. *)
Lemma exec_subnet_digits (s : string) :
  Num.all_digits s = true ->
  exec_subnet (String "/" s)
  = if (1 <=? String.length s)%nat && (String.length s <=? 3)%nat
    then Some ("", s, "") else None.
Proof.
  intros D. cbn [exec_subnet].
  rewrite (span_digits_all _ D).
  rewrite (exec_subnet_no_slash _ (all_digits_no_slash _ D)).
  cbn [Ascii.eqb Bool.eqb andb at_zone_or_end].
  now rewrite andb_true_r.
Qed.

Lemma exec_subnet_cons (c : ascii) (s : string) :
  exec_subnet (String c s)
  = let (ds, rest) := span_digits s in
    if Ascii.eqb c "/"
       && (1 <=? String.length ds)%nat && (String.length ds <=? 3)%nat
       && at_zone_or_end rest
    then Some ("", ds, rest)
    else match exec_subnet s with
         | Some (pre, ds', post) => Some (String c pre, ds', post)
         | None => None
         end.
Proof. reflexivity. Qed.

(** After a slash comes a sign: no match. *)
Lemma exec_subnet_signed (s : string) :
  Num.all_digits s = true -> exec_subnet (String "/" (String "-" s)) = None.
Proof.
  intros D.
  assert (N : exec_subnet (String "-" s) = None).
  { apply exec_subnet_no_slash. simpl.
    now apply all_digits_no_slash. }
  rewrite exec_subnet_cons, N.
  change (span_digits (String "-" s)) with ("", String "-" s).
  cbn [String.length Nat.leb andb]. now rewrite andb_false_r.
Qed.

(** A subnet size below 0 or above 128 after the slash is refused. *)
Lemma take_subnet_out_of_range (ip : string) (n : Z) :
  Str.includes "/" ip = false ->
  n < 0 \/ 128 < n ->
  take_subnet (ip ++ "/" ++ Num.toString n) = throw InvalidSubnetMask.
Proof.
  intros Hip Hn. unfold take_subnet.
  rewrite includes_after_slash, (exec_subnet_prefix _ _ Hip).
  cbn [append].
  destruct n as [|p|p]; [lia| |].
  - (* above 128: digits only *)
    pose proof (uint_all_digits (Pos.to_uint p)) as D.
    rewrite <- toString_pos in D.
    rewrite (exec_subnet_digits _ D).
    destruct ((1 <=? String.length (Num.toString (Z.pos p)))%nat
              && (String.length (Num.toString (Z.pos p)) <=? 3)%nat);
      [|reflexivity].
    rewrite parseInt_toString.
    replace (BITS <? Z.of_N (N.pos p)) with true
      by (symmetry; apply Z.ltb_lt; unfold BITS; lia).
    now rewrite orb_true_r.
  - (* below 0: the sign is no digit *)
    rewrite toString_neg.
    now rewrite (exec_subnet_signed _ (uint_all_digits _)).
Qed.

Lemma new_Address6_out_of_range (ip : string) (n : Z) :
  Str.includes "/" ip = false ->
  n < 0 \/ 128 < n ->
  new_Address6 (ip ++ "/" ++ Num.toString n) = throw InvalidSubnetMask.
Proof.
  intros Hip Hn. unfold new_Address6.
  now rewrite (take_subnet_out_of_range _ _ Hip Hn).
Qed.

End AddressFacts.

(** ** The map *)

Module MapFacts.
Import JsMap.
Local Open Scope list_scope.

Lemma get_In (k v : string) (m : Map) : get k m = Some v -> In (k, v) m.
Proof.
  induction m as [|[k' v'] m IH]; simpl; [discriminate|].
  destruct (String.eqb k' k) eqn:E.
  - apply String.eqb_eq in E. intros [= ->]. subst. now left.
  - intros H. right. now apply IH.
Qed.

Lemma get_In_keys (k v : string) (m : Map) :
  get k m = Some v -> In k (keys m).
Proof.
  intros H. apply get_In in H. now apply (in_map fst) in H.
Qed.

Lemma get_None_keys (k : string) (m : Map) :
  get k m = None -> ~ In k (keys m).
Proof.
  induction m as [|[k' v'] m IH]; simpl; [tauto|].
  destruct (String.eqb k' k) eqn:E; [discriminate|].
  apply String.eqb_neq in E. intros H [F|F]; [congruence|].
  now apply IH.
Qed.

Lemma keys_None_get (k : string) (m : Map) :
  ~ In k (keys m) -> get k m = None.
Proof.
  intros H. destruct (get k m) eqn:E; [|reflexivity].
  now apply get_In_keys in E.
Qed.

Lemma In_get (k v : string) (m : Map) :
  NoDup (keys m) -> In (k, v) m -> get k m = Some v.
Proof.
  induction m as [|[k' v'] m IH]; simpl; [tauto|].
  intros ND [E|I].
  - injection E as -> ->. now rewrite String.eqb_refl.
  - inversion ND as [|? ? Hk ND']; subst.
    destruct (String.eqb k' k) eqn:E.
    + apply String.eqb_eq in E. subst k'.
      exfalso. apply Hk. now apply (in_map fst) in I.
    + now apply IH.
Qed.

Lemma get_app (k : string) (m1 m2 : Map) :
  get k (m1 ++ m2)
  = match get k m1 with
    | Some v => Some v
    | None => get k m2
    end.
Proof.
  induction m1 as [|[k' v'] m1 IH]; simpl; [reflexivity|].
  now destruct (String.eqb k' k).
Qed.

(** Setting a key the map does not have appends the entry. *)
Lemma set_absent (k v : string) (m : Map) :
  get k m = None -> set k v m = (m ++ [(k, v)])%list.
Proof.
  induction m as [|[k' v'] m IH]; simpl; [reflexivity|].
  destruct (String.eqb k' k); [discriminate|].
  intros H. now rewrite (IH H).
Qed.

Lemma delete_absent (k : string) (m : Map) :
  ~ In k (keys m) -> delete k m = m.
Proof.
  induction m as [|[k' v'] m IH]; simpl; [reflexivity|].
  intros H. destruct (String.eqb k' k) eqn:E.
  - apply String.eqb_eq in E. tauto.
  - rewrite IH; tauto.
Qed.

(** Deleting the first key leaves the rest of the entries, in order. *)
Lemma delete_first_key (m : Map) :
  NoDup (keys m) ->
  match first_key m with
  | Some firstKey => delete firstKey m
  | None => m
  end = tl m.
Proof.
  destruct m as [|[k v] m]; simpl; [reflexivity|].
  intros ND. inversion ND; subst.
  rewrite String.eqb_refl. now apply delete_absent.
Qed.

Lemma keys_app (m1 m2 : Map) : keys (m1 ++ m2) = (keys m1 ++ keys m2)%list.
Proof. apply map_app. Qed.

Lemma NoDup_tl (m : Map) : NoDup (keys m) -> NoDup (keys (tl m)).
Proof. destruct m; simpl; [auto|]. now inversion 1. Qed.

Lemma get_tl (k v : string) (m : Map) :
  NoDup (keys m) -> get k (tl m) = Some v -> get k m = Some v.
Proof.
  destruct m as [|[k' v'] m]; simpl; [auto|].
  intros ND H. inversion ND; subst.
  destruct (String.eqb k' k) eqn:E; [|assumption].
  apply String.eqb_eq in E. subst k'.
  now apply get_In_keys in H.
Qed.

Lemma NoDup_snoc (k v : string) (m : Map) :
  NoDup (keys m) -> get k m = None -> NoDup (keys (m ++ [(k, v)])).
Proof.
  intros ND H. rewrite keys_app. simpl.
  apply NoDup_app; [assumption| |].
  - constructor; [simpl; tauto | constructor].
  - intros x Hx [<-|[]]. now apply (get_None_keys _ _ H).
Qed.

End MapFacts.

(** ** One call of [ipKeyGenerator] *)

Lemma render_no_slash (s : Ipv6Subnet) : Str.includes "/" (render s) = false.
Proof. destruct s; [reflexivity | apply NumFacts.toString_no_slash]. Qed.

Lemma cacheKeyOf_render (ip ip' : string) (s s' : Ipv6Subnet) :
  cacheKeyOf ip s = cacheKeyOf ip' s' -> render s = render s'.
Proof.
  intros E.
  now destruct (app_sep_inj "/" ip ip' (render s) (render s')
                  (render_no_slash s) (render_no_slash s') E).
Qed.

(** The computation depends on the cache key only. *)
Lemma computed_key (ip ip' : string) (s s' : Ipv6Subnet) :
  cacheKeyOf ip s = cacheKeyOf ip' s' -> computed ip s = computed ip' s'.
Proof.
  intros E. unfold computed.
  now rewrite E, (cacheKeyOf_render _ _ _ _ E).
Qed.

Lemma computed_has_slash (ip v : string) (s : Ipv6Subnet) :
  computed ip s = inr v -> Str.includes "/" v = true.
Proof.
  unfold computed, bind, ok.
  destruct (new_Address6 (cacheKeyOf ip s)) as [e|a]; [discriminate|].
  destruct (startAddress a) as [e|start]; [discriminate|].
  intros [= <-]. apply includes_after_slash.
Qed.

Lemma computed_reference (ip : string) (n : Z) :
  computed ip (SubnetNumber n) = normalize_reference ip n.
Proof.
  unfold computed, normalize_reference, subnet_start, cacheKeyOf, bind, ok.
  simpl render.
  destruct (new_Address6 (ip ++ "/" ++ Num.toString n)) as [e|a];
    [reflexivity|].
  now destruct (startAddress a).
Qed.

(** The function, case by case. *)
Lemma ipKeyGenerator_cases (c : JsMap.Map) (ip : string)
    (arg : option Ipv6Subnet) :
  NoDup (JsMap.keys c) ->
  ipKeyGenerator c ip arg =
    let s := subnetOf arg in
    if negb (truthy s) || negb (Net.isIPv6 ip) then (inr ip, c)
    else match JsMap.get (cacheKeyOf ip s) c with
         | Some cached => (inr cached, c)
         | None =>
             match computed ip s with
             | inl e => (inl e, c)
             | inr v => (inr v, inserted c (cacheKeyOf ip s) v)
             end
         end.
Proof.
  intros ND. unfold ipKeyGenerator. fold (subnetOf arg).
  cbv zeta.
  destruct (negb (truthy (subnetOf arg)) || negb (Net.isIPv6 ip));
    [reflexivity|].
  destruct (JsMap.get (cacheKeyOf ip (subnetOf arg)) c) eqn:G; [reflexivity|].
  fold (computed ip (subnetOf arg)).
  destruct (computed ip (subnetOf arg)) as [e|v]; [reflexivity|].
  unfold ok, inserted. f_equal.
  destruct (JsMap.size c >=? MAX_CACHE_SIZE) eqn:F.
  - rewrite (MapFacts.delete_first_key c ND).
    apply MapFacts.set_absent.
    destruct (JsMap.get (cacheKeyOf ip (subnetOf arg)) (tl c)) eqn:G';
      [|reflexivity].
    apply (MapFacts.get_tl _ _ _ ND) in G'. congruence.
  - now apply MapFacts.set_absent.
Qed.

(** ** The states of the cache *)

Lemma cache_ok_empty : cache_ok JsMap.empty.
Proof.
  split.
  - constructor.
  - unfold JsMap.size, MAX_CACHE_SIZE. simpl. lia.
  - discriminate.
Qed.

Lemma size_tl (c : JsMap.Map) :
  0 < JsMap.size c -> JsMap.size (tl c) = JsMap.size c - 1.
Proof.
  unfold JsMap.size. destruct c; simpl List.length; lia.
Qed.

Lemma size_snoc (c : JsMap.Map) (e : string * string) :
  JsMap.size (c ++ [e])%list = JsMap.size c + 1.
Proof.
  unfold JsMap.size. rewrite length_app. simpl List.length. lia.
Qed.

Lemma cache_ok_inserted (c : JsMap.Map) (ip v : string) (s : Ipv6Subnet) :
  cache_ok c ->
  JsMap.get (cacheKeyOf ip s) c = None ->
  computed ip s = inr v ->
  cache_ok (inserted c (cacheKeyOf ip s) v).
Proof.
  intros [ND SZ VAL] G C. unfold inserted.
  destruct (JsMap.size c >=? MAX_CACHE_SIZE) eqn:F.
  - assert (G' : JsMap.get (cacheKeyOf ip s) (tl c) = None).
    { destruct (JsMap.get (cacheKeyOf ip s) (tl c)) eqn:G'; [|reflexivity].
      apply (MapFacts.get_tl _ _ _ ND) in G'. congruence. }
    split.
    + apply MapFacts.NoDup_snoc; [now apply MapFacts.NoDup_tl | assumption].
    + rewrite Z.geb_leb in F. apply Z.leb_le in F.
      rewrite size_snoc, size_tl; unfold MAX_CACHE_SIZE in *; lia.
    + intros ip' s' v'. rewrite MapFacts.get_app.
      destruct (JsMap.get (cacheKeyOf ip' s') (tl c)) eqn:G1.
      * intros [= <-]. apply VAL. now apply MapFacts.get_tl.
      * simpl. destruct (String.eqb (cacheKeyOf ip s) (cacheKeyOf ip' s'))
          eqn:E; [|discriminate].
        apply String.eqb_eq in E. intros [= <-].
        now rewrite <- (computed_key _ _ _ _ E).
  - split.
    + now apply MapFacts.NoDup_snoc.
    + rewrite Z.geb_leb in F. apply Z.leb_gt in F.
      rewrite size_snoc. lia.
    + intros ip' s' v'. rewrite MapFacts.get_app.
      destruct (JsMap.get (cacheKeyOf ip' s') c) eqn:G1.
      * intros [= <-]. now apply VAL.
      * simpl. destruct (String.eqb (cacheKeyOf ip s) (cacheKeyOf ip' s'))
          eqn:E; [|discriminate].
        apply String.eqb_eq in E. intros [= <-].
        now rewrite <- (computed_key _ _ _ _ E).
Qed.

Lemma cache_ok_step (c : JsMap.Map) (ip : string) (arg : option Ipv6Subnet) :
  cache_ok c -> cache_ok (snd (ipKeyGenerator c ip arg)).
Proof.
  intros H. rewrite (ipKeyGenerator_cases _ _ _ (ok_keys _ H)). cbv zeta.
  destruct (negb (truthy (subnetOf arg)) || negb (Net.isIPv6 ip));
    [assumption|].
  destruct (JsMap.get (cacheKeyOf ip (subnetOf arg)) c) eqn:G; [assumption|].
  destruct (computed ip (subnetOf arg)) as [e|v] eqn:C; [assumption|].
  now apply cache_ok_inserted.
Qed.

Lemma cache_ok_after (calls : list Call) (c : JsMap.Map) :
  cache_ok c -> cache_ok (cache_after calls c).
Proof.
  revert c. induction calls as [|call calls IH]; intros c H; [assumption|].
  apply IH. now apply cache_ok_step.
Qed.

Lemma cache_ok_history (calls : list Call) : cache_ok (history calls).
Proof. apply cache_ok_after, cache_ok_empty. Qed.

Lemma history_snoc (calls : list Call) (ip : string)
    (arg : option Ipv6Subnet) :
  history (calls ++ [(ip, arg)])
  = snd (ipKeyGenerator (history calls) ip arg).
Proof. unfold history, cache_after. now rewrite fold_left_app. Qed.

(** In a state the cache can be in, a call that collapses returns what
    a miss computes, hit or miss. *)
Lemma collapsing_call (c : JsMap.Map) (ip : string) (arg : option Ipv6Subnet) :
  cache_ok c ->
  truthy (subnetOf arg) = true -> Net.isIPv6 ip = true ->
  fst (ipKeyGenerator c ip arg) = computed ip (subnetOf arg).
Proof.
  intros H T V. rewrite (ipKeyGenerator_cases _ _ _ (ok_keys _ H)). cbv zeta.
  rewrite T, V. cbn [negb orb].
  destruct (JsMap.get (cacheKeyOf ip (subnetOf arg)) c) eqn:G.
  - symmetry. now apply (ok_values _ H).
  - now destruct (computed ip (subnetOf arg)).
Qed.

(** After a call that returned a string by collapsing, the cache holds
    that string under the call's key. *)
Lemma collapsing_call_cached (c : JsMap.Map) (ip v : string)
    (arg : option Ipv6Subnet) :
  cache_ok c ->
  truthy (subnetOf arg) = true -> Net.isIPv6 ip = true ->
  fst (ipKeyGenerator c ip arg) = inr v ->
  JsMap.get (cacheKeyOf ip (subnetOf arg)) (snd (ipKeyGenerator c ip arg))
  = Some v.
Proof.
  intros H T V. rewrite (ipKeyGenerator_cases _ _ _ (ok_keys _ H)). cbv zeta.
  rewrite T, V. cbn [negb orb].
  destruct (JsMap.get (cacheKeyOf ip (subnetOf arg)) c) eqn:G.
  - simpl. now intros [= <-].
  - destruct (computed ip (subnetOf arg)) as [e|v'] eqn:C; simpl;
      [discriminate|].
    intros [= <-]. unfold inserted. rewrite MapFacts.get_app.
    match goal with
    | |- context [JsMap.get ?k ?m] => destruct (JsMap.get k m) eqn:G'
    end; [|simpl; now rewrite String.eqb_refl].
    destruct (JsMap.size c >=? MAX_CACHE_SIZE); [|congruence].
    apply (MapFacts.get_tl _ _ _ (ok_keys _ H)) in G'. congruence.
Qed.

(** The guard: what [isIPv6] rejects comes back as it is. *)
Lemma guard_not_ipv6 (c : JsMap.Map) (ip : string) (arg : option Ipv6Subnet) :
  Net.isIPv6 ip = false -> ipKeyGenerator c ip arg = (inr ip, c).
Proof.
  intros H. unfold ipKeyGenerator. rewrite H. cbn [negb].
  now rewrite orb_true_r.
Qed.

(* ================================================================== *)
(** * The claims *)

Lemma sample_ip_valid : Net.isIPv6 sample_ip = true.
Proof. vm_compute. reflexivity. Qed.

(** C1: an input that is not a syntactically valid IPv6 address (a plain
    IPv4 address, a malformed string) comes back unchanged whatever the
    subnet size, and so does any input when the subnet size is [false];
    the call raises nothing and leaves the cache as it was. *)
Theorem fast_path_returns_input (c : JsMap.Map) (ip : string)
    (arg : option Ipv6Subnet) :
  Net.isIPv6 ip = false \/ arg = Some SubnetFalse ->
  ipKeyGenerator c ip arg = (inr ip, c).
Proof.
  intros [H | ->]; [now apply guard_not_ipv6 | reflexivity].
Qed.

Lemma fast_path_returns_input_ipv4 :
  Net.isIPv6 "203.0.113.5" = false /\
  ipKeyGenerator JsMap.empty "203.0.113.5" (Some (SubnetNumber 56))
  = (inr "203.0.113.5", JsMap.empty).
Proof.
  split; [vm_compute; reflexivity|].
  apply (fast_path_returns_input JsMap.empty "203.0.113.5"
           (Some (SubnetNumber 56))).
  left. vm_compute. reflexivity.
Defined.

(** C9: with the subnet size 0 every input comes back unchanged, as with
    [false]: the call takes the fast path, reads and writes no cache entry
    and parses nothing. *)
Theorem zero_subnet_is_sentinel (c : JsMap.Map) (ip : string) :
  ipKeyGenerator c ip (Some (SubnetNumber 0)) = (inr ip, c) /\
  ipKeyGenerator c ip (Some (SubnetNumber 0))
  = ipKeyGenerator c ip (Some SubnetFalse).
Proof. split; reflexivity. Qed.

(** C3: the cache is transparent.  For a valid IPv6 address and a subnet
    size from 1 to 128, in any state the cache can reach, the call
    returns what the cache-free reference computes; a second call with
    the same arguments returns the same, and a returned string is then
    the cache's entry for the call's key. *)
Theorem cache_is_transparent (calls : list Call) (ip : string) (n : Z) :
  Net.isIPv6 ip = true -> 1 <= n <= 128 ->
  let c := history calls in
  let arg := Some (SubnetNumber n) in
  fst (ipKeyGenerator c ip arg) = normalize_reference ip n
  /\ fst (ipKeyGenerator (snd (ipKeyGenerator c ip arg)) ip arg)
     = fst (ipKeyGenerator c ip arg)
  /\ (forall v, fst (ipKeyGenerator c ip arg) = inr v ->
        JsMap.get (cacheKeyOf ip (SubnetNumber n))
                  (snd (ipKeyGenerator c ip arg)) = Some v).
Proof.
  intros V R c arg.
  assert (T : truthy (subnetOf arg) = true).
  { simpl. apply negb_true_iff, Z.eqb_neq. lia. }
  assert (E : forall calls', fst (ipKeyGenerator (history calls') ip arg)
                             = normalize_reference ip n).
  { intros calls'. rewrite <- computed_reference.
    apply (collapsing_call _ ip arg (cache_ok_history calls') T V). }
  split; [apply E|]. split.
  - unfold c. rewrite <- history_snoc. now rewrite !E.
  - intros v Hv.
    apply (collapsing_call_cached c ip v arg (cache_ok_history calls) T V Hv).
Qed.

Lemma cache_is_transparent_sample :
  let c := history [(sample_ip, None); ("::1", Some (SubnetNumber 64))] in
  let arg := Some (SubnetNumber 64) in
  fst (ipKeyGenerator c sample_ip arg) = normalize_reference sample_ip 64
  /\ fst (ipKeyGenerator (snd (ipKeyGenerator c sample_ip arg)) sample_ip arg)
     = fst (ipKeyGenerator c sample_ip arg)
  /\ (forall v, fst (ipKeyGenerator c sample_ip arg) = inr v ->
        JsMap.get (cacheKeyOf sample_ip (SubnetNumber 64))
                  (snd (ipKeyGenerator c sample_ip arg)) = Some v).
Proof.
  apply (cache_is_transparent
           [(sample_ip, None); ("::1", Some (SubnetNumber 64))]
           sample_ip 64).
  - vm_compute. reflexivity.
  - lia.
Defined.

(** C4, as the code has it: for a valid IPv6 address, a subnet size below
    0 or above 128 makes the call raise the [Address6] error 'Invalid
    subnet mask.', in any state the cache can reach and without touching
    the cache, so no size is clamped into range; the size 0 raises
    nothing, the address comes back unchanged. *)
Theorem out_of_range_subnet_raises (calls : list Call) (ip : string) (n : Z) :
  Net.isIPv6 ip = true ->
  (n < 0 \/ 128 < n ->
   ipKeyGenerator (history calls) ip (Some (SubnetNumber n))
   = (inl InvalidSubnetMask, history calls))
  /\ (n = 0 ->
      ipKeyGenerator (history calls) ip (Some (SubnetNumber n))
      = (inr ip, history calls)).
Proof.
  intros V. split.
  - intros R.
    pose proof (cache_ok_history calls) as H.
    assert (C : computed ip (SubnetNumber n) = inl InvalidSubnetMask).
    { unfold computed, cacheKeyOf. simpl render.
      now rewrite (AddressFacts.new_Address6_out_of_range _ _
                     (isIPv6_no_slash _ V) R). }
    rewrite (ipKeyGenerator_cases _ _ _ (ok_keys _ H)). cbv zeta.
    simpl subnetOf. rewrite V.
    replace (truthy (SubnetNumber n)) with true
      by (symmetry; apply negb_true_iff, Z.eqb_neq; lia).
    cbn [negb orb].
    destruct (JsMap.get (cacheKeyOf ip (SubnetNumber n)) (history calls))
      eqn:G.
    + apply (ok_values _ H) in G. congruence.
    + now rewrite C.
  - intros ->. reflexivity.
Qed.

Lemma out_of_range_subnet_raises_sample :
  (ipKeyGenerator (history [(sample_ip, None)]) sample_ip
     (Some (SubnetNumber 129))
   = (inl InvalidSubnetMask, history [(sample_ip, None)]))
  /\ (ipKeyGenerator (history [(sample_ip, None)]) sample_ip
        (Some (SubnetNumber (-1)))
      = (inl InvalidSubnetMask, history [(sample_ip, None)])).
Proof.
  split.
  - apply (out_of_range_subnet_raises [(sample_ip, None)] sample_ip 129);
      [vm_compute; reflexivity | lia].
  - apply (out_of_range_subnet_raises [(sample_ip, None)] sample_ip (-1));
      [vm_compute; reflexivity | lia].
Defined.

(** C4 as stated fails: the subnet size 0 lies outside 1-128, the address
    is a valid IPv6 address, and the call raises nothing. *)
Lemma zero_subnet_raises_nothing :
  Net.isIPv6 sample_ip = true
  /\ ~ (1 <= 0 <= 128)
  /\ fst (ipKeyGenerator JsMap.empty sample_ip (Some (SubnetNumber 0)))
     = inr sample_ip.
Proof.
  split; [vm_compute; reflexivity|]. split; [lia | vm_compute; reflexivity].
Qed.

(** C5, as the code has it: for ["2001:db8:85a3::8a2e:370:7334"] and the
    subnet size 56 the call returns ["2001:db8:85a3::/56"], the canonical
    compressed form of the /56 subnet start followed by [/56], in any
    state the cache can reach. *)
Theorem sample_collapses_to_56 (calls : list Call) :
  fst (ipKeyGenerator (history calls) sample_ip (Some (SubnetNumber 56)))
  = inr "2001:db8:85a3::/56"
  /\ subnet_start sample_ip 56 = inr "2001:db8:85a3::"
  /\ match new_Address6 (cacheKeyOf sample_ip (SubnetNumber 56)) with
     | inl _ => False
     | inr a =>
         subnetMask a = 56
         /\ bigInt a = 0x20010db885a3000000008a2e03707334
         /\ _startAddress a = 0x20010db885a300000000000000000000
     end.
Proof.
  split; [|split; [vm_compute; reflexivity | vm_compute; now repeat split]].
  rewrite (collapsing_call _ sample_ip (Some (SubnetNumber 56))
             (cache_ok_history calls) eq_refl sample_ip_valid).
  vm_compute. reflexivity.
Qed.

(** C5 as stated fails: the string the specification gives is not what
    the call returns. *)
Lemma sample_is_not_85 :
  fst (ipKeyGenerator JsMap.empty sample_ip (Some (SubnetNumber 56)))
  <> inr "2001:db8:85::/56".
Proof. vm_compute. discriminate. Qed.

(** C10: the call is idempotent in its first argument.  In any state the
    cache can reach, applying it to its own result gives that result
    again: a collapsed result has a slash in it, is no IPv6 address and
    takes the fast path. *)
Theorem normalize_idempotent (calls : list Call) (ip : string)
    (arg : option Ipv6Subnet) :
  fst (normalize_twice (history calls) ip arg)
  = fst (ipKeyGenerator (history calls) ip arg).
Proof.
  pose proof (cache_ok_history calls) as H.
  unfold normalize_twice.
  destruct (ipKeyGenerator (history calls) ip arg) as [r c1] eqn:E.
  destruct r as [e|v]; [reflexivity|]. simpl.
  rewrite (ipKeyGenerator_cases _ _ _ (ok_keys _ H)) in E. cbv zeta in E.
  destruct (negb (truthy (subnetOf arg)) || negb (Net.isIPv6 ip)) eqn:F.
  - (* fast path: the same call again *)
    injection E as <- <-.
    unfold ipKeyGenerator. fold (subnetOf arg). cbv zeta. now rewrite F.
  - assert (S : Str.includes "/" v = true).
    { destruct (JsMap.get (cacheKeyOf ip (subnetOf arg)) (history calls))
        eqn:G.
      - injection E as <- <-.
        apply (ok_values _ H) in G. now apply computed_has_slash in G.
      - destruct (computed ip (subnetOf arg)) eqn:C; [discriminate|].
        injection E as <- <-. now apply computed_has_slash in C. }
    assert (N : Net.isIPv6 v = false).
    { destruct (Net.isIPv6 v) eqn:V; [|reflexivity].
      apply isIPv6_no_slash in V. congruence. }
    now rewrite (guard_not_ipv6 _ _ _ N).
Qed.

(** ** The counter store *)

Module StoreFacts.
Import CounterStore.

Lemma lookup_put (key : string) (r : HitRecord)
    (rs : list (string * HitRecord)) :
  lookup key (put key r rs) = Some r.
Proof.
  induction rs as [|[k r'] rs IH]; simpl.
  - now rewrite String.eqb_refl.
  - destruct (String.eqb k key) eqn:E; simpl.
    + now rewrite String.eqb_refl.
    + now rewrite E.
Qed.

(** A live record with count [k]: further calls before its reset time
    count on from [k + 1]. *)
Lemma increments_live (times : list Z) (st : Store) (w : Z) (key : string)
    (r : HitRecord) :
  windowDurationMs st = Some w ->
  lookup key (records st) = Some r ->
  Forall (fun t => t < resetTime r) times ->
  exists st',
    increments st key times
    = inr (counting (count r + 1) (List.length times) (resetTime r), st').
Proof.
  revert st r.
  induction times as [|t times IH]; intros st r W L F; simpl.
  - now exists st.
  - inversion F as [|? ? Ht F']; subst.
    unfold increment, live_record. rewrite W, L.
    replace (resetTime r <=? t) with false
      by (symmetry; apply Z.leb_gt; exact Ht).
    set (r1 := mkHitRecord (count r + 1) (resetTime r)).
    set (st1 := mkStore (Some w) (put key r1 (records st))).
    destruct (IH st1 r1 eq_refl (lookup_put _ _ _) F') as [st' E].
    rewrite E. now exists st'.
Qed.

End StoreFacts.

(** C7: fixed-window counting.  For a key without a live record (never
    seen, or expired) [increment] returns the count 1 and the reset time
    [now + windowDurationMs]; that call and the calls that follow within
    the window return the counts 1, 2, ..., N, all with that reset
    time. *)
Theorem increment_fixed_window (st : CounterStore.Store) (w : Z)
    (key : string) (now : Z) (later : list Z) :
  CounterStore.windowDurationMs st = Some w ->
  CounterStore.live_record st now key = None ->
  Forall (fun t => t < now + w) later ->
  (exists st1,
      CounterStore.increment st now key
      = inr (CounterStore.mkHitRecord 1 (now + w), st1))
  /\ (exists st',
         CounterStore.increments st key (now :: later)
         = inr (CounterStore.counting 1 (S (List.length later)) (now + w),
                st')).
Proof.
  intros W L F. split.
  - unfold CounterStore.increment. rewrite W, L. eauto.
  - cbn [CounterStore.increments]. unfold CounterStore.increment.
    rewrite W, L.
    set (r1 := CounterStore.mkHitRecord 1 (now + w)).
    set (st1 := CounterStore.mkStore (Some w)
                  (CounterStore.put key r1 (CounterStore.records st))).
    destruct (StoreFacts.increments_live later st1 w key r1 eq_refl
                (StoreFacts.lookup_put _ _ _) F) as [st' E].
    rewrite E. now exists st'.
Qed.

Lemma increment_fixed_window_sample :
  let st := CounterStore.init 60000 CounterStore.create in
  (exists st1,
      CounterStore.increment st 1000 "test-key"
      = inr (CounterStore.mkHitRecord 1 61000, st1))
  /\ (exists st',
         CounterStore.increments st "test-key" [1000; 1001; 30000; 60999]
         = inr ([CounterStore.mkHitRecord 1 61000;
                 CounterStore.mkHitRecord 2 61000;
                 CounterStore.mkHitRecord 3 61000;
                 CounterStore.mkHitRecord 4 61000], st')).
Proof.
  apply (increment_fixed_window
           (CounterStore.init 60000 CounterStore.create) 60000
           "test-key" 1000 [1001; 30000; 60999]).
  - reflexivity.
  - reflexivity.
  - repeat constructor.
Defined.

(** ** Insertion order and eviction *)

Section Lists.
Context {A : Type}.
Local Open Scope list_scope.

Lemma tl_skipn (n : nat) (l : list A) : tl (skipn n l) = skipn (S n) l.
Proof.
  revert l. induction n as [|n IH]; intros [|a l]; try reflexivity.
  apply (IH l).
Qed.

Lemma In_skipn (x : A) (n : nat) (l : list A) : In x (skipn n l) -> In x l.
Proof.
  intros H. rewrite <- (firstn_skipn n l). apply in_or_app. now right.
Qed.

End Lists.

Lemma keys_entries (calls : list Call) :
  JsMap.keys (map entryOf calls) = map keyOf calls.
Proof. unfold JsMap.keys. rewrite map_map. now apply map_ext. Qed.

(** Inserting into the last [capacity] entries of a list gives the last
    [capacity] entries of the list with the new entry. *)
Lemma inserted_lastn (l : list (string * string)) (k v : string) :
  inserted (lastn capacity l) k v = lastn capacity (l ++ [(k, v)])%list.
Proof.
  unfold inserted, lastn, JsMap.size.
  rewrite length_skipn, length_app. cbn [List.length].
  destruct (Z.of_nat (List.length l - (List.length l - capacity))
            >=? MAX_CACHE_SIZE) eqn:F; rewrite Z.geb_leb in F.
  - apply Z.leb_le in F.
    assert (C : (1 <= capacity <= List.length l)%nat)
      by (unfold capacity, MAX_CACHE_SIZE in *; lia).
    rewrite tl_skipn, skipn_app.
    replace (List.length l + 1 - capacity)%nat
      with (S (List.length l - capacity)) by lia.
    replace (S (List.length l - capacity) - List.length l)%nat
      with 0%nat by lia.
    reflexivity.
  - apply Z.leb_gt in F.
    assert (C : (List.length l < capacity)%nat)
      by (unfold capacity, MAX_CACHE_SIZE in *; lia).
    replace (List.length l - capacity)%nat with 0%nat by lia.
    replace (List.length l + 1 - capacity)%nat with 0%nat by lia.
    reflexivity.
Qed.

(** After calls that all insert, on keys that differ, the cache is the
    last [capacity] of their entries, oldest first. *)
Lemma history_of_insertions (calls : list Call) :
  Forall (fun call => collapses call = true) calls ->
  NoDup (map keyOf calls) ->
  history calls = lastn capacity (map entryOf calls).
Proof.
  induction calls as [|[ip arg] calls IH] using rev_ind; intros F ND.
  - reflexivity.
  - apply Forall_app in F as [F Fx]. inversion Fx as [|? ? Cx _]; subst.
    rewrite map_app in ND. cbn [map] in ND.
    pose proof (NoDup_remove_2 _ _ _ ND) as Nx. rewrite app_nil_r in Nx.
    apply NoDup_app_remove_r in ND.
    rewrite history_snoc, (IH F ND).
    pose proof (cache_ok_history calls) as H. rewrite (IH F ND) in H.
    rewrite (ipKeyGenerator_cases _ _ _ (ok_keys _ H)). cbv zeta.
    unfold collapses in Cx. cbn [fst snd] in Cx.
    apply andb_true_iff in Cx as [Cx Cc].
    apply andb_true_iff in Cx as [Ct Cv].
    rewrite Ct, Cv. cbn [negb orb].
    rewrite MapFacts.keys_None_get.
    + destruct (computed ip (subnetOf arg)) as [e|v] eqn:C; [discriminate|].
      cbn [snd]. rewrite map_app. cbn [map].
      replace (entryOf (ip, arg)) with (cacheKeyOf ip (subnetOf arg), v)
        by (unfold entryOf, keyOf, valueOf; cbn [fst snd]; now rewrite C).
      apply inserted_lastn.
    + intros I. apply Nx. rewrite <- keys_entries.
      unfold JsMap.keys in *. unfold lastn in I. rewrite <- skipn_map in I.
      now apply In_skipn in I.
Qed.

(** The shapes a call can give the cache. *)
Lemma call_shapes (c : JsMap.Map) (ip : string) (arg : option Ipv6Subnet) :
  cache_ok c ->
  let key := cacheKeyOf ip (subnetOf arg) in
  let c' := snd (ipKeyGenerator c ip arg) in
  c' = c
  \/ exists v,
       JsMap.get key c = None
       /\ ((JsMap.size c < MAX_CACHE_SIZE /\ c' = (c ++ [(key, v)])%list)
           \/ (JsMap.size c = MAX_CACHE_SIZE
               /\ c' = (tl c ++ [(key, v)])%list)).
Proof.
  intros H key c'. unfold c', key.
  rewrite (ipKeyGenerator_cases _ _ _ (ok_keys _ H)). cbv zeta.
  destruct (negb (truthy (subnetOf arg)) || negb (Net.isIPv6 ip));
    [now left|].
  destruct (JsMap.get (cacheKeyOf ip (subnetOf arg)) c) eqn:G; [now left|].
  destruct (computed ip (subnetOf arg)) as [e|v]; [now left|].
  right. exists v. split; [reflexivity|]. cbn [snd]. unfold inserted.
  pose proof (ok_size _ H) as SZ.
  destruct (JsMap.size c >=? MAX_CACHE_SIZE) eqn:F; rewrite Z.geb_leb in F.
  - apply Z.leb_le in F. right. split; [lia | reflexivity].
  - apply Z.leb_gt in F. left. split; [lia | reflexivity].
Qed.

(** C2: the cache is bounded and evicts first-in, first-out.  In every
    state it can reach it holds at most [MAX_CACHE_SIZE] entries, and so
    after one more call; a call whose key is cached changes nothing, so
    reading does not reorder; a call that inserts appends its entry and,
    when the cache is full, first drops exactly the head, the entry
    inserted longest ago.  Hence after insertions on keys that differ
    the cache is the last [MAX_CACHE_SIZE] of them: once there were more,
    the first one is gone and the most recent [MAX_CACHE_SIZE] are all
    there. *)
Theorem cache_bounded_fifo (calls : list Call) :
  let c := history calls in
  JsMap.size c <= MAX_CACHE_SIZE
  /\ (forall ip arg,
        let key := cacheKeyOf ip (subnetOf arg) in
        let c' := snd (ipKeyGenerator c ip arg) in
        JsMap.size c' <= MAX_CACHE_SIZE
        /\ (JsMap.get key c <> None -> c' = c)
        /\ (c' = c
            \/ exists v,
                 JsMap.get key c = None
                 /\ ((JsMap.size c < MAX_CACHE_SIZE
                      /\ c' = (c ++ [(key, v)])%list)
                     \/ (JsMap.size c = MAX_CACHE_SIZE
                         /\ c' = (tl c ++ [(key, v)])%list))))
  /\ (Forall (fun call => collapses call = true) calls ->
      NoDup (map keyOf calls) ->
      c = lastn capacity (map entryOf calls)
      /\ (forall call, In call (lastn capacity calls) ->
            JsMap.get (keyOf call) c = Some (valueOf call))
      /\ (MAX_CACHE_SIZE < Z.of_nat (List.length calls) ->
          forall first rest, calls = first :: rest ->
            JsMap.get (keyOf first) c = None)).
Proof.
  intros c. pose proof (cache_ok_history calls) as H. fold c in H.
  split; [apply (ok_size _ H)|]. split.
  - intros ip arg key c'. split; [|split].
    + apply (ok_size _ (cache_ok_step c ip arg H)).
    + intros P. destruct (call_shapes c ip arg H) as [E|[v [G _]]];
        [exact E | contradiction].
    + apply (call_shapes c ip arg H).
  - intros F ND. pose proof (history_of_insertions calls F ND) as E.
    fold c in E. split; [exact E|]. split.
    + intros call I. apply (MapFacts.In_get _ _ _ (ok_keys _ H)).
      rewrite E. unfold lastn in *. rewrite length_map, skipn_map.
      now apply (in_map entryOf) in I.
    + intros L first rest ->. apply MapFacts.keys_None_get.
      rewrite E. unfold lastn. rewrite length_map.
      cbn [List.length map] in *.
      replace (S (List.length rest) - capacity)%nat
        with (S (List.length rest - capacity))
        by (unfold capacity, MAX_CACHE_SIZE in *; lia).
      cbn [skipn]. intros I. unfold JsMap.keys in I.
      rewrite <- skipn_map in I. apply In_skipn in I.
      fold (JsMap.keys (map entryOf rest)) in I. rewrite keys_entries in I.
      now inversion ND.
Qed.

Lemma distinct_NoDup (l : list string) : distinct l = true -> NoDup l.
Proof.
  induction l as [|x l IH]; simpl; intros H; constructor.
  - apply andb_true_iff in H as [H _]. apply negb_true_iff in H.
    intros I. assert (E : existsb (String.eqb x) l = true).
    { apply existsb_exists. exists x. split; [assumption|].
      apply String.eqb_refl. }
    congruence.
  - apply IH. now apply andb_true_iff in H as [_ H].
Qed.

Lemma cache_bounded_fifo_sample :
  history sample_calls = lastn capacity (map entryOf sample_calls)
  /\ (forall call, In call (lastn capacity sample_calls) ->
        JsMap.get (keyOf call) (history sample_calls) = Some (valueOf call))
  /\ (MAX_CACHE_SIZE < Z.of_nat (List.length sample_calls) ->
      forall first rest, sample_calls = first :: rest ->
        JsMap.get (keyOf first) (history sample_calls) = None).
Proof.
  apply (proj2 (proj2 (cache_bounded_fifo sample_calls))).
  - apply Forall_forall. apply forallb_forall. vm_compute. reflexivity.
  - apply distinct_NoDup. vm_compute. reflexivity.
Defined.

(** C6: no entry is mutated.  In any state the cache can reach and for
    any call, a key present before and after maps to the same string;
    every key is either read as before, or it was the oldest key and is
    gone, or it is the call's key and was absent; and the cache after the
    call is the cache before, or that with the call's entry appended, the
    head dropped first when the cache was full. *)
Theorem entries_never_mutated (calls : list Call) (ip : string)
    (arg : option Ipv6Subnet) (k : string) :
  let c := history calls in
  let key := cacheKeyOf ip (subnetOf arg) in
  let c' := snd (ipKeyGenerator c ip arg) in
  (forall v v', JsMap.get k c = Some v -> JsMap.get k c' = Some v' -> v = v')
  /\ (JsMap.get k c' = JsMap.get k c
      \/ (JsMap.first_key c = Some k /\ JsMap.get k c' = None)
      \/ (k = key /\ JsMap.get k c = None))
  /\ (c' = c
      \/ exists v, c' = (c ++ [(key, v)])%list
                   \/ c' = (tl c ++ [(key, v)])%list).
Proof.
  intros c key c'. pose proof (cache_ok_history calls) as H. fold c in H.
  assert (T : JsMap.get k c' = JsMap.get k c
              \/ (JsMap.first_key c = Some k /\ JsMap.get k c' = None)
              \/ (k = key /\ JsMap.get k c = None)).
  { pose proof (call_shapes c ip arg H) as S. cbv zeta in S.
    fold key in S. fold c' in S.
    destruct S as [E|[v [G [[_ E]|[_ E]]]]]; rewrite E.
    - now left.
    - rewrite MapFacts.get_app.
      destruct (JsMap.get k c) eqn:Gk; [now left|].
      simpl. destruct (String.eqb key k) eqn:Ek; [|now left].
      apply String.eqb_eq in Ek. right. right. now split.
    - rewrite MapFacts.get_app.
      destruct c as [|[k0 v0] m]; cbn [tl].
      + simpl. destruct (String.eqb key k) eqn:Ek; [|now left].
        apply String.eqb_eq in Ek. right. right. now split.
      + pose proof (ok_keys _ H) as ND. inversion ND as [|? ? N0 ND']; subst.
        cbn [JsMap.get JsMap.first_key] in *.
        destruct (String.eqb k0 k) eqn:E0.
        * apply String.eqb_eq in E0. subst k0.
          right. left. split; [reflexivity|].
          rewrite (MapFacts.keys_None_get _ _ N0). simpl.
          destruct (String.eqb key k) eqn:Ek; [|reflexivity].
          apply String.eqb_eq in Ek. subst k.
          rewrite String.eqb_refl in G. discriminate.
        * destruct (JsMap.get k m) eqn:Gk; [now left|].
          simpl. destruct (String.eqb key k) eqn:Ek; [|now left].
          apply String.eqb_eq in Ek. right. right. now split. }
  split; [|split].
  - intros v v' Hv Hv'.
    destruct T as [E|[[_ E]|[_ E]]]; congruence.
  - exact T.
  - destruct (call_shapes c ip arg H) as [E|[v [G [[_ E]|[_ E]]]]];
      [now left | right; exists v; now left | right; exists v; now right].
Qed.

Lemma entries_never_mutated_sample :
  let c := history sample_calls in
  let k := cacheKeyOf sample_ip (SubnetNumber 56) in
  let c' := snd (ipKeyGenerator c "::2" None) in
  JsMap.get k c = Some "2001:db8:85a3::/56"
  /\ JsMap.get k c' = Some "2001:db8:85a3::/56"
  /\ "2001:db8:85a3::/56" = "2001:db8:85a3::/56".
Proof.
  intros c k c'.
  assert (G : JsMap.get k c = Some "2001:db8:85a3::/56")
    by (vm_compute; reflexivity).
  assert (G' : JsMap.get k c' = Some "2001:db8:85a3::/56")
    by (vm_compute; reflexivity).
  split; [exact G|]. split; [exact G'|].
  exact (proj1 (entries_never_mutated sample_calls "::2" None k) _ _ G G').
Defined.


(* ================================================================== *)
(** * Further properties of [ipKeyGenerator] *)

(** ** Rendering is injective *)

Lemma toString_zero : Num.toString 0 = "0".
Proof. reflexivity. Qed.

Lemma toString_inj (n m : Z) : Num.toString n = Num.toString m -> n = m.
Proof.
  assert (PP : forall p q, Num.toString (Z.pos p) = Num.toString (Z.pos q)
                           -> p = q).
  { intros p q E. apply (f_equal (fun s => Num.parseInt s 10)) in E.
    rewrite !NumFacts.parseInt_toString in E. congruence. }
  assert (ZP : forall p, Num.toString 0 <> Num.toString (Z.pos p)).
  { intros p E. apply (f_equal (fun s => Num.parseInt s 10)) in E.
    rewrite NumFacts.parseInt_toString in E. discriminate. }
  assert (PN : forall p q, Num.toString (Z.pos p) <> Num.toString (Z.neg q)).
  { intros p q E.
    pose proof (NumFacts.uint_all_digits (Pos.to_uint p)) as D.
    rewrite <- NumFacts.toString_pos, E, NumFacts.toString_neg in D.
    discriminate. }
  destruct n as [|p|p], m as [|q|q]; intros E; try reflexivity.
  - now apply ZP in E.
  - rewrite NumFacts.toString_neg in E. discriminate.
  - symmetry in E. now apply ZP in E.
  - f_equal. now apply PP.
  - now apply PN in E.
  - rewrite NumFacts.toString_neg in E. discriminate.
  - symmetry in E. now apply PN in E.
  - rewrite !NumFacts.toString_neg in E. injection E as E.
    rewrite <- !NumFacts.toString_pos in E. f_equal. now apply PP.
Qed.

Lemma render_inj (s s' : Ipv6Subnet) : render s = render s' -> s = s'.
Proof.
  assert (F : forall n, "false" <> Num.toString n).
  { intros [|p|p] E.
    - discriminate.
    - pose proof (NumFacts.uint_all_digits (Pos.to_uint p)) as D.
      rewrite <- NumFacts.toString_pos, <- E in D. discriminate.
    - rewrite NumFacts.toString_neg in E. discriminate. }
  destruct s as [|n], s' as [|m]; simpl; intros E.
  - reflexivity.
  - now apply F in E.
  - symmetry in E. now apply F in E.
  - f_equal. now apply toString_inj.
Qed.

(** X2: the cache key determines the call.  Two calls with the same cache
    key have the same address and the same subnet argument, whatever the
    address holds, so no two of them share a cache entry. *)
Theorem cache_key_injective (ip ip' : string) (s s' : Ipv6Subnet) :
  cacheKeyOf ip s = cacheKeyOf ip' s' -> ip = ip' /\ s = s'.
Proof.
  intros E.
  destruct (app_sep_inj "/" ip ip' (render s) (render s')
              (render_no_slash s) (render_no_slash s') E) as [Hip Hs].
  split; [assumption | now apply render_inj].
Qed.

Lemma cache_key_injective_sample :
  "::1" = "::1" /\ SubnetNumber 56 = subnetOf None.
Proof.
  apply (cache_key_injective "::1" "::1" (SubnetNumber 56) (subnetOf None)).
  reflexivity.
Defined.

(** X1: a call that raises changes nothing.  When the call ends in an
    error the cache is the one it started with, on any cache: the
    address was a valid IPv6 address, the subnet was truthy, the key was
    not cached, and neither the eviction nor the insertion took place. *)
Theorem error_leaves_cache (c : JsMap.Map) (ip : string)
    (arg : option Ipv6Subnet) (e : AddressError) :
  fst (ipKeyGenerator c ip arg) = inl e ->
  snd (ipKeyGenerator c ip arg) = c
  /\ Net.isIPv6 ip = true
  /\ truthy (subnetOf arg) = true
  /\ JsMap.get (cacheKeyOf ip (subnetOf arg)) c = None.
Proof.
  unfold ipKeyGenerator. fold (subnetOf arg). cbv zeta.
  destruct (truthy (subnetOf arg)); cbn [negb orb]; [|discriminate].
  destruct (Net.isIPv6 ip); cbn [negb]; [|discriminate].
  destruct (JsMap.get (cacheKeyOf ip (subnetOf arg)) c); [discriminate|].
  match goal with
  | |- context [match ?r with inl _ => _ | inr _ => _ end] => destruct r
  end; [|discriminate].
  intros _. now repeat split.
Qed.

Lemma error_leaves_cache_sample :
  snd (ipKeyGenerator sample_cache sample_ip (Some (SubnetNumber 129)))
  = sample_cache
  /\ Net.isIPv6 sample_ip = true
  /\ truthy (subnetOf (Some (SubnetNumber 129))) = true
  /\ JsMap.get (cacheKeyOf sample_ip (subnetOf (Some (SubnetNumber 129))))
               sample_cache = None.
Proof.
  apply (error_leaves_cache sample_cache sample_ip (Some (SubnetNumber 129))
           InvalidSubnetMask).
  vm_compute. reflexivity.
Defined.

(** ** Where the entries of the cache come from *)

Lemma In_tl {A : Type} (x : A) (l : list A) : In x (tl l) -> In x l.
Proof. destruct l; simpl; auto. Qed.

Lemma guard_passed (ip : string) (arg : option Ipv6Subnet) :
  negb (truthy (subnetOf arg)) || negb (Net.isIPv6 ip) = false ->
  truthy (subnetOf arg) = true /\ Net.isIPv6 ip = true.
Proof.
  intros F. apply orb_false_iff in F as [T V].
  now apply negb_false_iff in T; apply negb_false_iff in V.
Qed.

(** An entry of the cache after a call was there before, or it is the
    call's own entry and the call collapsed. *)
Lemma step_entries (c : JsMap.Map) (ip : string) (arg : option Ipv6Subnet)
    (k v : string) :
  cache_ok c ->
  In (k, v) (snd (ipKeyGenerator c ip arg)) ->
  In (k, v) c \/ (collapses (ip, arg) = true /\ (k, v) = entryOf (ip, arg)).
Proof.
  intros H. rewrite (ipKeyGenerator_cases _ _ _ (ok_keys _ H)). cbv zeta.
  destruct (negb (truthy (subnetOf arg)) || negb (Net.isIPv6 ip)) eqn:F;
    [now left|].
  destruct (guard_passed _ _ F) as [T V].
  destruct (JsMap.get (cacheKeyOf ip (subnetOf arg)) c); [now left|].
  destruct (computed ip (subnetOf arg)) as [e|v0] eqn:C; [now left|].
  cbn [snd]. unfold inserted. intros I. apply in_app_or in I as [I|I].
  - left. destruct (JsMap.size c >=? MAX_CACHE_SIZE); [|assumption].
    now apply In_tl.
  - right. destruct I as [I|[]]. unfold collapses, entryOf, keyOf, valueOf.
    cbn [fst snd]. rewrite T, V, C. now split.
Qed.

Lemma entries_provenance (calls : list Call) (k v : string) :
  In (k, v) (history calls) ->
  exists call,
    In call calls /\ collapses call = true /\ (k, v) = entryOf call.
Proof.
  induction calls as [|[ip arg] calls IH] using rev_ind; [intros []|].
  rewrite history_snoc. intros I.
  apply (step_entries _ _ _ _ _ (cache_ok_history calls)) in I as [I|[C E]].
  - destruct (IH I) as [call [Ic R]]. exists call.
    split; [apply in_or_app; now left | exact R].
  - exists (ip, arg). split; [apply in_or_app; right; now left | now split].
Qed.

(** X3: every entry of the cache was put there by a collapsing call.  In
    any state the cache can reach, each entry is the entry of one of the
    calls made: a call on a valid IPv6 address with a truthy subnet whose
    computation succeeded, under that call's key and with the string it
    computed.  Addresses that take the fast path and calls that raise
    leave no entry. *)
Theorem cache_entries_from_calls (calls : list Call) (k v : string) :
  In (k, v) (history calls) ->
  exists call,
    In call calls /\ collapses call = true /\ (k, v) = entryOf call.
Proof. apply entries_provenance. Qed.

Lemma cache_entries_from_calls_sample :
  exists call,
    In call sample_calls /\ collapses call = true
    /\ ("::1/64", "::/64") = entryOf call.
Proof.
  apply (cache_entries_from_calls sample_calls "::1/64" "::/64").
  vm_compute. right. left. reflexivity.
Defined.

(** ** The size of the cache *)

Lemma step_size (c : JsMap.Map) (ip : string) (arg : option Ipv6Subnet) :
  cache_ok c ->
  JsMap.size c <= JsMap.size (snd (ipKeyGenerator c ip arg))
               <= JsMap.size c + 1.
Proof.
  intros H.
  destruct (call_shapes c ip arg H) as [E|[v [_ [[L E]|[L E]]]]]; rewrite E.
  - lia.
  - rewrite size_snoc. lia.
  - rewrite size_snoc, size_tl; unfold MAX_CACHE_SIZE in *; lia.
Qed.

(** X4: the cache never shrinks.  Further calls leave it at least as
    large as it was, add at most one entry each and never take it past
    [MAX_CACHE_SIZE]; so a cache that has reached [MAX_CACHE_SIZE] entries
    keeps exactly that many. *)
Theorem cache_never_shrinks (calls more : list Call) :
  JsMap.size (history calls) <= JsMap.size (history (calls ++ more))
  /\ JsMap.size (history (calls ++ more))
     <= Z.min (JsMap.size (history calls) + Z.of_nat (List.length more))
              MAX_CACHE_SIZE.
Proof.
  assert (M : JsMap.size (history calls)
              <= JsMap.size (history (calls ++ more))
              <= JsMap.size (history calls) + Z.of_nat (List.length more)).
  { induction more as [|[ip arg] more IH] using rev_ind.
    - rewrite app_nil_r. simpl List.length. lia.
    - rewrite app_assoc, history_snoc, length_app. cbn [List.length].
      pose proof (step_size _ ip arg (cache_ok_history (calls ++ more))).
      lia. }
  pose proof (ok_size _ (cache_ok_history (calls ++ more))). lia.
Qed.

(** ** Within capacity nothing is evicted *)

(** A call whose key is among at most [MAX_CACHE_SIZE] keys that hold all
    the cached ones finds room: the cache is kept or extended. *)
Lemma step_keeps_entries (c : JsMap.Map) (ip : string)
    (arg : option Ipv6Subnet) (universe : list string) (k v : string) :
  cache_ok c ->
  Z.of_nat (List.length universe) <= MAX_CACHE_SIZE ->
  incl (JsMap.keys c) universe ->
  (collapses (ip, arg) = true -> In (keyOf (ip, arg)) universe) ->
  JsMap.get k c = Some v ->
  JsMap.get k (snd (ipKeyGenerator c ip arg)) = Some v.
Proof.
  intros H L I U G.
  rewrite (ipKeyGenerator_cases _ _ _ (ok_keys _ H)). cbv zeta.
  destruct (negb (truthy (subnetOf arg)) || negb (Net.isIPv6 ip)) eqn:F;
    [assumption|].
  destruct (guard_passed _ _ F) as [T V].
  destruct (JsMap.get (cacheKeyOf ip (subnetOf arg)) c) eqn:Gk;
    [assumption|].
  destruct (computed ip (subnetOf arg)) as [e|v0] eqn:C; [assumption|].
  cbn [snd]. unfold inserted.
  destruct (JsMap.size c >=? MAX_CACHE_SIZE) eqn:S.
  - exfalso. rewrite Z.geb_leb in S. apply Z.leb_le in S.
    apply (MapFacts.get_None_keys _ _ Gk).
    apply (@NoDup_length_incl _ (JsMap.keys c) universe (ok_keys _ H));
      [|assumption|].
    + unfold JsMap.keys, JsMap.size in *. rewrite length_map. lia.
    + apply U. unfold collapses. cbn [fst snd]. now rewrite T, V, C.
  - rewrite MapFacts.get_app. now rewrite G.
Qed.

Lemma keys_from_calls (calls : list Call) (universe : list string) :
  (forall call, In call calls -> collapses call = true ->
                In (keyOf call) universe) ->
  incl (JsMap.keys (history calls)) universe.
Proof.
  intros U k I. unfold JsMap.keys in I.
  apply in_map_iff in I as [[k' v] [E I]]. cbn [fst] in E. subst k'.
  destruct (entries_provenance calls k v I) as [call [Ic [C E]]].
  injection E as -> _. now apply U.
Qed.

Lemma history_app (calls more : list Call) :
  history (calls ++ more) = cache_after more (history calls).
Proof. unfold history, cache_after. now rewrite fold_left_app. Qed.

Lemma cache_after_keeps (later : list Call) (universe : list string)
    (k v : string) :
  Z.of_nat (List.length universe) <= MAX_CACHE_SIZE ->
  forall (c : JsMap.Map) (before : list Call),
    c = history before ->
    (forall call, In call (before ++ later) -> collapses call = true ->
                  In (keyOf call) universe) ->
    JsMap.get k c = Some v ->
    JsMap.get k (cache_after later c) = Some v.
Proof.
  intros L.
  induction later as [|[ip arg] later IH]; intros c before -> U G;
    [exact G|].
  cbn [cache_after fold_left fst snd].
  apply (IH _ (before ++ [(ip, arg)])%list).
  - now rewrite history_snoc.
  - intros call I. apply U. apply in_app_or in I as [I|I].
    + apply in_app_or in I as [I|[<-|[]]]; apply in_or_app;
        [now left | right; now left].
    + apply in_or_app. right. now right.
  - apply (step_keeps_entries _ _ _ universe _ _
             (cache_ok_history before) L); [| |assumption].
    + apply keys_from_calls. intros call I. apply U.
      apply in_or_app. now left.
    + apply U. apply in_or_app. right. now left.
Qed.

(** X10: within capacity nothing is evicted.  While the collapsing calls
    use no more than [MAX_CACHE_SIZE] different cache keys, an entry once
    in the cache stays there with its string through all later calls, so
    no key is computed twice. *)
Theorem no_eviction_within_capacity (before later : list Call)
    (universe : list string) (k v : string) :
  Z.of_nat (List.length universe) <= MAX_CACHE_SIZE ->
  (forall call, In call (before ++ later) -> collapses call = true ->
                In (keyOf call) universe) ->
  JsMap.get k (history before) = Some v ->
  JsMap.get k (history (before ++ later)) = Some v.
Proof.
  intros L U G. rewrite history_app.
  apply (cache_after_keeps later universe k v L _ before eq_refl U G).
Qed.

Lemma no_eviction_within_capacity_sample :
  JsMap.get (cacheKeyOf sample_ip (SubnetNumber 56))
            (history ([(sample_ip, None)] ++ tl sample_calls))
  = Some "2001:db8:85a3::/56".
Proof.
  apply (no_eviction_within_capacity [(sample_ip, None)] (tl sample_calls)
           (map keyOf sample_calls)).
  - vm_compute. discriminate.
  - intros call I _. apply (in_map keyOf) in I. exact I.
  - vm_compute. reflexivity.
Defined.

(** ** The subnet size in the key *)

Lemma computed_form (ip v : string) (s : Ipv6Subnet) :
  computed ip s = inr v -> exists start, v = start ++ "/" ++ render s.
Proof.
  unfold computed, bind, ok.
  destruct (new_Address6 (cacheKeyOf ip s)) as [e|a]; [discriminate|].
  destruct (startAddress a) as [e|start]; [discriminate|].
  intros [= <-]. now exists (correctForm start).
Qed.

Lemma nonzero_truthy (n : Z) : n <> 0 -> truthy (SubnetNumber n) = true.
Proof. intros H. now apply negb_true_iff, Z.eqb_neq. Qed.

(** X6: the returned key carries the subnet size.  A string returned for
    a valid IPv6 address and a subnet size other than 0 ends in a slash
    and that size, so keys made with different subnet sizes are
    different, whatever the addresses and the state of the cache. *)
Theorem subnet_size_in_key (calls1 calls2 : list Call) (ip1 ip2 : string)
    (n1 n2 : Z) (v1 v2 : string) :
  Net.isIPv6 ip1 = true -> Net.isIPv6 ip2 = true ->
  n1 <> 0 -> n2 <> 0 ->
  fst (ipKeyGenerator (history calls1) ip1 (Some (SubnetNumber n1))) = inr v1 ->
  fst (ipKeyGenerator (history calls2) ip2 (Some (SubnetNumber n2))) = inr v2 ->
  (exists start, v1 = start ++ "/" ++ Num.toString n1)
  /\ (v1 = v2 -> n1 = n2).
Proof.
  intros V1 V2 N1 N2 R1 R2.
  rewrite (collapsing_call _ ip1 (Some (SubnetNumber n1))
             (cache_ok_history calls1) (nonzero_truthy _ N1) V1) in R1.
  rewrite (collapsing_call _ ip2 (Some (SubnetNumber n2))
             (cache_ok_history calls2) (nonzero_truthy _ N2) V2) in R2.
  apply computed_form in R1 as [s1 E1]. apply computed_form in R2 as [s2 E2].
  cbn [subnetOf render] in *. split; [now exists s1|].
  intros E. subst v1 v2.
  destruct (app_sep_inj "/" s1 s2 _ _ (NumFacts.toString_no_slash n1)
              (NumFacts.toString_no_slash n2) E) as [_ Hn].
  now apply toString_inj.
Qed.

Lemma subnet_size_in_key_sample :
  (exists start, "2001:db8:85a3::/56" = start ++ "/" ++ Num.toString 56)
  /\ ("2001:db8:85a3::/56" = "2001:db8:85a3::/64" -> 56 = 64).
Proof.
  apply (subnet_size_in_key [] sample_calls sample_ip sample_ip 56 64).
  - vm_compute. reflexivity.
  - vm_compute. reflexivity.
  - lia.
  - lia.
  - vm_compute. reflexivity.
  - vm_compute. reflexivity.
Defined.

(** ** Addresses of one subnet *)

Lemma append_empty (s : string) : s ++ "" = s.
Proof. induction s as [|c s IH]; simpl; [reflexivity | now rewrite IH]. Qed.

(** A check over the subnet sizes 1 to 128 holds for each of them. *)
Lemma forall_subnet_sizes (P : Z -> bool) :
  forallb P (map Z.of_nat (List.seq 1 128)) = true ->
  forall n, 1 <= n <= 128 -> P n = true.
Proof.
  intros H n R. rewrite forallb_forall in H. apply H.
  apply in_map_iff. exists (Z.to_nat n). split; [lia|].
  apply in_seq. lia.
Qed.

Lemma subnet_size_short (n : Z) :
  1 <= n <= 128 ->
  (1 <=? String.length (Num.toString n))%nat
  && (String.length (Num.toString n) <=? 3)%nat = true.
Proof.
  apply (forall_subnet_sizes
           (fun n => (1 <=? String.length (Num.toString n))%nat
                     && (String.length (Num.toString n) <=? 3)%nat)).
  vm_compute. reflexivity.
Qed.

(** A subnet size from 1 to 128 after the slash is taken as the mask. *)
Lemma take_subnet_in_range (ip : string) (n : Z) :
  Str.includes "/" ip = false -> 1 <= n <= 128 ->
  take_subnet (ip ++ "/" ++ Num.toString n) = ok (n, ip).
Proof.
  intros Hip R. unfold take_subnet.
  rewrite (AddressFacts.exec_subnet_prefix _ _ Hip). cbn [append].
  destruct n as [|p|p]; [lia| |lia].
  pose proof (NumFacts.uint_all_digits (Pos.to_uint p)) as D.
  rewrite <- NumFacts.toString_pos in D.
  rewrite (AddressFacts.exec_subnet_digits _ D), (subnet_size_short _ R).
  rewrite NumFacts.parseInt_toString.
  replace ((Z.of_N (N.pos p) <? 0) || (BITS <? Z.of_N (N.pos p))) with false.
  - now rewrite !append_empty.
  - symmetry. apply orb_false_iff. unfold BITS.
    split; apply Z.ltb_ge; lia.
Qed.

Lemma take_subnet_bare (ip : string) :
  Str.includes "/" ip = false -> take_subnet ip = ok (128, ip).
Proof.
  intros Hip. unfold take_subnet.
  now rewrite (AddressFacts.exec_subnet_no_slash _ Hip), Hip.
Qed.

(** What a miss computes, from the address read as a number: the first
    [n] bits are kept, the rest is cleared, and the result is rendered. *)
Lemma computed_from_bits (ip : string) (n z : Z) :
  Net.isIPv6 ip = true -> 1 <= n <= 128 ->
  addressBits ip = inr z ->
  computed ip (SubnetNumber n)
  = (start <- fromBigInt (Z.shiftl (Z.shiftr z (BITS - n)) (BITS - n)) ;;
     ok (correctForm start ++ "/" ++ Num.toString n)).
Proof.
  intros V R. pose proof (isIPv6_no_slash _ V) as Hip.
  unfold addressBits, computed, cacheKeyOf, new_Address6. cbn [render].
  rewrite (take_subnet_in_range _ _ Hip R), (take_subnet_bare _ Hip).
  cbn [bind ok]. destruct (split_zone ip) as [address2 zone0].
  destruct (parse address2) as [e|parsed]; cbn [bind ok]; [discriminate|].
  intros [= <-]. reflexivity.
Qed.

(** X5: addresses of one subnet share their key.  Two valid IPv6
    addresses whose first [n] bits agree, [n] from 1 to 128, get the same
    result from the call with the subnet size [n], whatever their other
    bits, their spelling or zone and the state of the cache. *)
Theorem same_subnet_same_key (calls1 calls2 : list Call) (ip1 ip2 : string)
    (n z1 z2 : Z) :
  Net.isIPv6 ip1 = true -> Net.isIPv6 ip2 = true ->
  1 <= n <= 128 ->
  addressBits ip1 = inr z1 -> addressBits ip2 = inr z2 ->
  Z.shiftr z1 (128 - n) = Z.shiftr z2 (128 - n) ->
  fst (ipKeyGenerator (history calls1) ip1 (Some (SubnetNumber n)))
  = fst (ipKeyGenerator (history calls2) ip2 (Some (SubnetNumber n))).
Proof.
  intros V1 V2 R B1 B2 E.
  assert (T : truthy (SubnetNumber n) = true) by (apply nonzero_truthy; lia).
  rewrite (collapsing_call _ ip1 (Some (SubnetNumber n))
             (cache_ok_history calls1) T V1).
  rewrite (collapsing_call _ ip2 (Some (SubnetNumber n))
             (cache_ok_history calls2) T V2).
  cbn [subnetOf].
  rewrite (computed_from_bits _ _ _ V1 R B1), (computed_from_bits _ _ _ V2 R B2).
  unfold BITS. now rewrite E.
Qed.

Lemma same_subnet_same_key_sample :
  fst (ipKeyGenerator (history []) sample_ip (Some (SubnetNumber 56)))
  = fst (ipKeyGenerator (history sample_calls) "2001:DB8:85A3:00ff::1%eth0"
           (Some (SubnetNumber 56))).
Proof.
  apply (same_subnet_same_key [] sample_calls sample_ip
           "2001:DB8:85A3:00ff::1%eth0" 56
           0x20010db885a3000000008a2e03707334
           0x20010db885a300ff0000000000000001).
  - vm_compute. reflexivity.
  - vm_compute. reflexivity.
  - lia.
  - vm_compute. reflexivity.
  - vm_compute. reflexivity.
  - vm_compute. reflexivity.
Defined.

(* ================================================================== *)
(** * Zones, and what a key holds *)

Lemma computed_via_bits (ip : string) (n : Z) :
  Net.isIPv6 ip = true -> 1 <= n <= 128 ->
  computed ip (SubnetNumber n)
  = (z <- addressBits ip ;;
     start <- fromBigInt (Z.shiftl (Z.shiftr z (BITS - n)) (BITS - n)) ;;
     ok (correctForm start ++ "/" ++ Num.toString n)).
Proof.
  intros V R. pose proof (isIPv6_no_slash _ V) as Hip.
  unfold addressBits, computed, cacheKeyOf, new_Address6. cbn [render].
  rewrite (take_subnet_in_range _ _ Hip R), (take_subnet_bare _ Hip).
  cbn [bind ok]. destruct (split_zone ip) as [address2 zone0].
  now destruct (parse address2) as [e|parsed].
Qed.

Lemma split_zone_none (s : string) :
  Str.includes "%" s = false -> split_zone s = (s, "").
Proof.
  induction s as [|c s IH]; simpl; [reflexivity|].
  intros H. apply orb_false_iff in H as [Hc Hs].
  now rewrite Hc, (IH Hs).
Qed.

Lemma split_zone_at (ip z : string) :
  Str.includes "%" ip = false -> no_line_terminator z = true ->
  split_zone (ip ++ String "%" z) = (ip, String "%" z).
Proof.
  intros Hip Hz. induction ip as [|c ip IH]; simpl.
  - now rewrite Hz.
  - simpl in Hip. apply orb_false_iff in Hip as [Hc Hs].
    now rewrite Hc, (IH Hs).
Qed.

Lemma no_line_terminator_app (a b : string) :
  no_line_terminator (a ++ b) = true -> no_line_terminator b = true.
Proof.
  induction a as [|c a IH]; simpl; [auto|].
  intros H. apply andb_true_iff in H as [_ H]. now apply IH.
Qed.

(** [isIPv6] accepts no string with a line terminator in it. *)
Lemma isIPv6_no_line_terminator (s : string) :
  Net.isIPv6 s = true -> no_line_terminator s = true.
Proof.
  intros V.
  assert (M : forall c, In c (Str.chars s) ->
                        Regex.mentions c Net.IPv6Reg = true)
    by (intros c; apply (RegexFacts.matches_mentions _ _ _ V)).
  clear V. induction s as [|c s IH]; [reflexivity|].
  cbn [no_line_terminator]. apply andb_true_iff. split.
  - pose proof (M c (or_introl eq_refl)) as Mc.
    unfold is_line_terminator.
    destruct (Ascii.eqb c "010") eqn:E1.
    + apply Ascii.eqb_eq in E1. subst c. vm_compute in Mc. discriminate.
    + destruct (Ascii.eqb c "013") eqn:E2; [|reflexivity].
      apply Ascii.eqb_eq in E2. subst c. vm_compute in Mc. discriminate.
  - apply IH. intros c' I. apply M. now right.
Qed.

(** The zone does not change the number read from the address. *)
Lemma addressBits_zone (ip z : string) :
  Net.isIPv6 ip = true -> Net.isIPv6 (ip ++ String "%" z) = true ->
  Str.includes "%" ip = false ->
  addressBits (ip ++ String "%" z) = addressBits ip.
Proof.
  intros V Vz P.
  pose proof (no_line_terminator_app ip (String "%" z)
                (isIPv6_no_line_terminator _ Vz)) as T.
  cbn [no_line_terminator] in T. apply andb_true_iff in T as [_ T].
  unfold addressBits, new_Address6.
  rewrite (take_subnet_bare _ (isIPv6_no_slash _ V)).
  rewrite (take_subnet_bare _ (isIPv6_no_slash _ Vz)).
  cbn [bind ok].
  rewrite (split_zone_at _ _ P T), (split_zone_none _ P).
  now destruct (parse ip).
Qed.

(** X9: the zone is ignored.  An IPv6 address with a zone ([%eth0] and
    the like) gets, for every subnet size from 1 to 128 and in every
    state of the cache, the result of the address without the zone. *)
Theorem zone_is_ignored (calls1 calls2 : list Call) (ip z : string) (n : Z) :
  Net.isIPv6 ip = true -> Net.isIPv6 (ip ++ String "%" z) = true ->
  Str.includes "%" ip = false ->
  1 <= n <= 128 ->
  fst (ipKeyGenerator (history calls1) (ip ++ String "%" z)
         (Some (SubnetNumber n)))
  = fst (ipKeyGenerator (history calls2) ip (Some (SubnetNumber n))).
Proof.
  intros V Vz P R.
  assert (T : truthy (SubnetNumber n) = true) by (apply nonzero_truthy; lia).
  rewrite (collapsing_call _ _ (Some (SubnetNumber n))
             (cache_ok_history calls1) T Vz).
  rewrite (collapsing_call _ _ (Some (SubnetNumber n))
             (cache_ok_history calls2) T V).
  cbn [subnetOf].
  rewrite (computed_via_bits _ _ Vz R), (computed_via_bits _ _ V R).
  now rewrite (addressBits_zone _ _ V Vz P).
Qed.

Lemma zone_is_ignored_sample :
  fst (ipKeyGenerator (history sample_calls) ("fe80::1" ++ String "%" "eth0")
         (Some (SubnetNumber 64)))
  = fst (ipKeyGenerator (history []) "fe80::1" (Some (SubnetNumber 64))).
Proof.
  apply (zone_is_ignored sample_calls [] "fe80::1" "eth0" 64).
  - vm_compute. reflexivity.
  - vm_compute. reflexivity.
  - vm_compute. reflexivity.
  - lia.
Defined.

(** X11: what a key holds does not depend on the history.  Whatever two
    sequences of calls led to them, two states of the cache that both
    hold a key hold the same string under it. *)
Theorem cached_value_is_a_function_of_key (calls1 calls2 : list Call)
    (k v1 v2 : string) :
  JsMap.get k (history calls1) = Some v1 ->
  JsMap.get k (history calls2) = Some v2 ->
  v1 = v2.
Proof.
  intros G1 G2.
  apply MapFacts.get_In, entries_provenance in G1 as [[ip1 a1] [_ [C1 E1]]].
  apply MapFacts.get_In, entries_provenance in G2 as [[ip2 a2] [_ [C2 E2]]].
  injection E1 as K1 ->. injection E2 as K2 ->.
  unfold valueOf, keyOf in *. cbn [fst snd] in *.
  now rewrite (computed_key ip1 ip2 (subnetOf a1) (subnetOf a2))
    by congruence.
Qed.

Lemma cached_value_is_a_function_of_key_sample :
  "::/64" = "::/64".
Proof.
  apply (cached_value_is_a_function_of_key
           sample_calls [("::1", Some (SubnetNumber 64))] "::1/64").
  - vm_compute. reflexivity.
  - vm_compute. reflexivity.
Defined.

(* ================================================================== *)
(** * The benchmark's key-generation runs *)

Module BenchmarkFacts.
Import Benchmark.

Lemma repeatM_succ {S : Type} (n : N) (fn : S -> result S) (s : S) :
  repeatM (N.succ n) fn s = bind (repeatM n fn s) fn.
Proof. unfold repeatM. now rewrite N.iter_succ. Qed.

(** A closure that only advances the index does so [n] times. *)
Lemma repeatM_advance (fn : State -> result State) (c : JsMap.Map) :
  (forall i, fn (mkState i c) = ok (mkState (i + 1) c)) ->
  forall n i, repeatM n fn (mkState i c) = ok (mkState (i + n) c).
Proof.
  intros H n i. induction n as [|n IH] using N.peano_ind.
  - now rewrite N.add_0_r.
  - rewrite repeatM_succ, IH. cbn [bind ok]. rewrite H.
    unfold ok. do 2 f_equal. lia.
Qed.

(** A check over the indices of an array holds for each of them. *)
Lemma forall_indices (P : N -> bool) (n : nat) :
  forallb P (indices n) = true ->
  forall j, (j < N.of_nat n)%N -> P j = true.
Proof.
  intros H j L. rewrite forallb_forall in H. apply H.
  apply in_map_iff. exists (N.to_nat j). split; [lia|].
  apply in_seq. lia.
Qed.

Lemma In_indices (j : N) (n : nat) : In j (indices n) -> (j < N.of_nat n)%N.
Proof.
  intros I. apply in_map_iff in I as [k [<- I]]. apply in_seq in I. lia.
Qed.

Lemma NoDup_indices (n : nat) : NoDup (indices n).
Proof.
  apply Injective_map_NoDup; [|apply seq_NoDup].
  intros x y. apply Nat2N.inj.
Qed.

(** *** Matching around four hexadecimal digits *)

Lemma chars_app (a b : string) :
  Str.chars (a ++ b) = (Str.chars a ++ Str.chars b)%list.
Proof.
  unfold Str.chars. induction a as [|c a IH]; simpl; [reflexivity|].
  now rewrite IH.
Qed.

Lemma matches_app (r : Regex.regex) (l1 l2 : list ascii) :
  Regex.matches r (l1 ++ l2) = Regex.matches (derivs r l1) l2.
Proof.
  revert r. induction l1 as [|c l1 IH]; intros r; [reflexivity|].
  apply IH.
Qed.

Lemma lower_hex_cases (P : ascii -> Prop) :
  P "0"%char -> P "1"%char -> P "2"%char -> P "3"%char -> P "4"%char ->
  P "5"%char -> P "6"%char -> P "7"%char -> P "8"%char -> P "9"%char ->
  P "a"%char -> P "b"%char -> P "c"%char -> P "d"%char -> P "e"%char ->
  P "f"%char ->
  forall c, lower_hex c = true -> P c.
Proof.
  intros H0 H1 H2 H3 H4 H5 H6 H7 H8 H9 Ha Hb Hc Hd He Hf c H.
  destruct c as [[] [] [] [] [] [] [] []];
    try (vm_compute in H; discriminate); assumption.
Qed.

Ltac hex_uniform_by_cases :=
  unfold hex_uniform; apply lower_hex_cases; vm_compute; reflexivity.

Lemma test_hex4 (r : Regex.regex) (pre h suf : string) :
  is_hex4 h = true ->
  hex_uniform4 (derivs r (Str.chars pre)) ->
  Regex.test r (pre ++ h ++ suf) = Regex.test r (pre ++ "0000" ++ suf).
Proof.
  intros H [U0 [U1 [U2 U3]]].
  destruct h as [|a [|b [|c [|d [|x h]]]]]; try discriminate.
  cbn [is_hex4] in H.
  apply andb_true_iff in H as [H Hd]. apply andb_true_iff in H as [H Hc].
  apply andb_true_iff in H as [Ha Hb].
  unfold Regex.test. rewrite !chars_app, !matches_app.
  cbn [Str.chars list_ascii_of_string derivs fold_left].
  now rewrite (U0 a Ha), (U1 b Hb), (U2 c Hc), (U3 d Hd).
Qed.

Lemma ipv6Address_parts (j : N) :
  ipv6Address j = before4 ++ Num.padStart0 4 (Num.toHex j) ++ after4.
Proof. reflexivity. Qed.

Lemma IPv6Reg_uniform : hex_uniform4 (derivs Net.IPv6Reg (Str.chars before4)).
Proof. split; [|split; [|split]]; hex_uniform_by_cases. Qed.

Lemma allowed_uniform :
  hex_uniform4 (derivs (Regex.Star allowedChar) (Str.chars before4)).
Proof. split; [|split; [|split]]; hex_uniform_by_cases. Qed.

Lemma bad_address_uniform :
  hex_uniform4 (derivs RE_BAD_ADDRESS (Str.chars before4)).
Proof. split; [|split; [|split]]; hex_uniform_by_cases. Qed.

(** *** The addresses of the IPv6 run *)

Lemma addresses_ok : forallb address_ok (indices 1000) = true.
Proof. vm_compute. reflexivity. Qed.

Lemma groups_ok : forallb group_ok (indices 4) = true.
Proof. vm_compute. reflexivity. Qed.

Section OneAddress.
Variable j : N.
Hypothesis J : (j < 1000)%N.

Let ip : string := ipv6Address j.

Lemma address_facts :
  is_hex4 (Num.padStart0 4 (Num.toHex j)) = true
  /\ Num.parseInt (substring 15 4 ip) 16 = Some j
  /\ Str.includes "%" ip = false
  /\ parse4in6 ip = inr ip
  /\ exists groups,
       parse_tail ip = inr groups
       /\ Z.shiftr (groupsValue groups) 72 = prefix56 + Z.of_N (j / 256).
Proof.
  pose proof (forall_indices _ 1000 addresses_ok j J) as A.
  unfold address_ok in A. fold ip in A.
  apply andb_true_iff in A as [A A5]. apply andb_true_iff in A as [A A4].
  apply andb_true_iff in A as [A A3]. apply andb_true_iff in A as [A1 A2].
  split; [exact A1|]. split.
  { destruct (Num.parseInt (substring 15 4 ip) 16) as [k|]; [|discriminate].
    apply N.eqb_eq in A2. now subst k. }
  split; [now apply negb_true_iff in A3|]. split.
  { destruct (parse4in6 ip) as [e|a]; [discriminate|].
    apply String.eqb_eq in A4. now subst a. }
  destruct (parse_tail ip) as [e|groups]; [discriminate|].
  exists groups. split; [reflexivity | now apply Z.eqb_eq in A5].
Qed.

Lemma address_valid : Net.isIPv6 ip = true.
Proof.
  unfold Net.isIPv6, ip. rewrite ipv6Address_parts.
  rewrite (test_hex4 _ _ _ _ (proj1 address_facts) IPv6Reg_uniform).
  vm_compute. reflexivity.
Qed.

Lemma address_screens :
  no_bad_characters ip = true /\ Regex.test RE_BAD_ADDRESS ip = false.
Proof.
  unfold no_bad_characters, ip. rewrite ipv6Address_parts.
  rewrite (test_hex4 _ _ _ _ (proj1 address_facts) allowed_uniform).
  rewrite (test_hex4 _ _ _ _ (proj1 address_facts) bad_address_uniform).
  split; vm_compute; reflexivity.
Qed.

Lemma address_bits :
  exists z, addressBits ip = inr z
            /\ Z.shiftr z 72 = prefix56 + Z.of_N (j / 256).
Proof.
  destruct address_facts as [_ [_ [Z [P4 [groups [T B]]]]]].
  destruct address_screens as [S1 S2].
  exists (groupsValue groups). split; [|exact B].
  unfold addressBits, new_Address6.
  rewrite (take_subnet_bare _ (isIPv6_no_slash _ address_valid)).
  cbn [bind ok]. rewrite (split_zone_none _ Z).
  change (parse ip)
    with (address <- parse4in6 ip ;;
          if negb (no_bad_characters address) then throw BadCharacters
          else if Regex.test RE_BAD_ADDRESS address
               then throw AddressFailedRegex
               else parse_tail address).
  rewrite P4. cbn [bind]. rewrite S1, S2. cbn [negb]. rewrite T.
  reflexivity.
Qed.

Lemma address_computed : computed ip (SubnetNumber 56) = inr (subnetKey j).
Proof.
  destruct address_bits as [z [Bz Sz]].
  rewrite (computed_via_bits _ 56 address_valid) by lia.
  rewrite Bz. cbn [bind]. change (BITS - 56) with 72. rewrite Sz.
  assert (K : (j / 256 < N.of_nat 4)%N).
  { apply N.Div0.div_lt_upper_bound. simpl. lia. }
  pose proof (forall_indices _ 4 groups_ok _ K) as G. unfold group_ok in G.
  destruct (start <- fromBigInt (Z.shiftl (prefix56 + Z.of_N (j / 256)) 72) ;;
            ok (correctForm start ++ "/" ++ Num.toString 56)) as [e|v];
    [discriminate|].
  apply String.eqb_eq in G. subst v. f_equal.
  unfold subnetKey. now rewrite N.div_mul by discriminate.
Qed.

Lemma address_collapses :
  collapses (ip, Some (SubnetNumber 56)) = true
  /\ entryOf (ip, Some (SubnetNumber 56))
     = (cacheKeyOf ip (SubnetNumber 56), subnetKey j).
Proof.
  unfold collapses, entryOf, keyOf, valueOf. cbn [fst snd subnetOf].
  now rewrite address_valid, address_computed.
Qed.

Lemma address_picked : pick ipv6Addresses j = ip.
Proof.
  unfold pick, ipv6Addresses, indices.
  rewrite !length_map, length_seq.
  change (N.of_nat 1000) with 1000%N. rewrite (N.mod_small _ _ J).
  rewrite (nth_indep _ _ (ipv6Address (N.of_nat 0)))
    by (rewrite !length_map, length_seq; lia).
  rewrite map_nth, map_nth, seq_nth by lia.
  unfold ip. f_equal. lia.
Qed.

End OneAddress.

Lemma ipv6Address_inj (i j : N) :
  (i < 1000)%N -> (j < 1000)%N -> ipv6Address i = ipv6Address j -> i = j.
Proof.
  intros I J E.
  pose proof (proj1 (proj2 (address_facts i I))) as Di.
  pose proof (proj1 (proj2 (address_facts j J))) as Dj.
  rewrite E in Di. congruence.
Qed.

(** *** The warm cache *)

Lemma warmCalls_keys_NoDup : NoDup (map keyOf warmCalls).
Proof.
  unfold warmCalls. rewrite map_map.
  apply Injective_map_NoDup_in; [|apply NoDup_indices].
  intros i j I J E. unfold keyOf in E. cbn [fst snd subnetOf] in E.
  apply In_indices in I. apply In_indices in J.
  change (N.of_nat 1000) with 1000%N in *.
  apply (ipv6Address_inj i j I J).
  now destruct (app_sep_inj "/" _ _ _ _ (render_no_slash _)
                  (render_no_slash _) E).
Qed.

Lemma warmCache_entries : map entryOf warmCalls = warmCache.
Proof.
  unfold warmCalls, warmCache. rewrite map_map. apply map_ext_in.
  intros j I. apply In_indices in I. change (N.of_nat 1000) with 1000%N in I.
  apply (address_collapses j I).
Qed.

Lemma warmCache_history : history warmCalls = warmCache.
Proof.
  rewrite history_of_insertions.
  - rewrite warmCache_entries. unfold lastn.
    replace (List.length warmCache - capacity)%nat with 0%nat; [reflexivity|].
    unfold warmCache, indices. rewrite !length_map, length_seq.
    unfold capacity, MAX_CACHE_SIZE. lia.
  - apply Forall_forall. intros call I. unfold warmCalls in I.
    apply in_map_iff in I as [j [<- I]]. apply In_indices in I.
    change (N.of_nat 1000) with 1000%N in I.
    apply (address_collapses j I).
  - apply warmCalls_keys_NoDup.
Qed.

(** The state after the first [n] calls of the run on the empty cache. *)
Lemma first_calls (n : nat) :
  repeatM (N.of_nat n) (keyCall ipv6Addresses (SubnetNumber 56))
          (mkState 0 JsMap.empty)
  = inr (mkState (N.of_nat n)
           (history (map (fun k => (pick ipv6Addresses (N.of_nat k),
                                    Some (SubnetNumber 56)))
                         (List.seq 0 n)))).
Proof.
  induction n as [|n IH]; [reflexivity|].
  rewrite Nat2N.inj_succ, repeatM_succ, IH. cbn [bind].
  rewrite seq_S, map_app. cbn [map Nat.add]. rewrite history_snoc.
  set (c := history _). unfold keyCall. cbn [index ipv6Cache].
  assert (L : (N.of_nat n mod 1000 < 1000)%N)
    by (apply N.mod_lt; discriminate).
  assert (P : pick ipv6Addresses (N.of_nat n)
              = ipv6Address (N.of_nat n mod 1000)).
  { rewrite <- (address_picked _ L). unfold pick.
    rewrite N.Div0.mod_mod. reflexivity. }
  pose proof (collapsing_call c _ (Some (SubnetNumber 56))
                (cache_ok_history _) eq_refl
                (eq_ind_r (fun s => Net.isIPv6 s = true)
                   (address_valid _ L) P)) as R.
  cbn [subnetOf] in R. rewrite P in R at 2.
  rewrite (address_computed _ L) in R.
  destruct (ipKeyGenerator c (pick ipv6Addresses (N.of_nat n))
              (Some (SubnetNumber 56))) as [r c'].
  cbn [fst snd] in *. subst r. unfold ok. do 2 f_equal. lia.
Qed.

Lemma warm_up :
  repeatM WARMUP (keyCall ipv6Addresses (SubnetNumber 56))
          (mkState 0 JsMap.empty)
  = inr (mkState 1000 warmCache).
Proof.
  change WARMUP with (N.of_nat 1000). rewrite first_calls.
  replace (map (fun k => (pick ipv6Addresses (N.of_nat k),
                          Some (SubnetNumber 56))) (List.seq 0 1000))
    with warmCalls.
  - rewrite warmCache_history. reflexivity.
  - unfold warmCalls, indices. rewrite map_map. apply map_ext_in.
    intros k I. apply in_seq in I.
    rewrite address_picked by lia. reflexivity.
Qed.

Lemma warm_hit (i : N) :
  JsMap.get (cacheKeyOf (pick ipv6Addresses i) (SubnetNumber 56)) warmCache
  = Some (subnetKey (i mod 1000))
  /\ ipKeyGenerator warmCache (pick ipv6Addresses i) (Some (SubnetNumber 56))
     = (inr (subnetKey (i mod 1000)), warmCache).
Proof.
  assert (L : (i mod 1000 < 1000)%N) by (apply N.mod_lt; discriminate).
  assert (P : pick ipv6Addresses i = ipv6Address (i mod 1000)).
  { rewrite <- (address_picked _ L). unfold pick.
    rewrite N.Div0.mod_mod. reflexivity. }
  rewrite P.
  assert (G : JsMap.get (cacheKeyOf (ipv6Address (i mod 1000))
                           (SubnetNumber 56)) warmCache
              = Some (subnetKey (i mod 1000))).
  { apply MapFacts.In_get.
    - rewrite <- warmCache_entries, keys_entries.
      apply warmCalls_keys_NoDup.
    - unfold warmCache.
      apply (in_map (fun j => (cacheKeyOf (ipv6Address j) (SubnetNumber 56),
                               subnetKey j))).
      revert L. generalize (i mod 1000)%N. intros j L.
      apply in_map_iff. exists (N.to_nat j).
      split; [lia|]. apply in_seq. lia. }
  split; [exact G|].
  unfold ipKeyGenerator. rewrite (address_valid _ L).
  cbn [truthy Z.eqb negb orb]. now rewrite G.
Qed.

(** No string that starts with [192.168.] is an IPv6 address. *)
Lemma ipv4Address_not_ipv6 (i : N) : Net.isIPv6 (ipv4Address i) = false.
Proof.
  unfold Net.isIPv6, Regex.test, ipv4Address.
  rewrite chars_app, matches_app.
  replace (derivs Net.IPv6Reg (Str.chars "192.168.")) with Regex.Void
    by (vm_compute; reflexivity).
  apply RegexFacts.matches_Void.
Qed.

End BenchmarkFacts.

(** X7: the IPv6 run of the benchmark measures cache hits only.  Started
    on the empty cache, the thousand warm-up calls insert one entry per
    address, a thousand in all; from then on every call, whatever the
    index, finds its key in the cache, returns the /56 key of its address
    and leaves the cache as it is, so after the run the index is 101000
    and the cache still holds those thousand entries: the timed calls
    never reach [Address6] and nothing is evicted. *)
Theorem ipv6_run_hits_after_warmup :
  let fn := Benchmark.keyCall Benchmark.ipv6Addresses (SubnetNumber 56) in
  Benchmark.repeatM Benchmark.WARMUP fn (Benchmark.mkState 0 JsMap.empty)
  = inr (Benchmark.mkState 1000 Benchmark.warmCache)
  /\ JsMap.size Benchmark.warmCache = 1000
  /\ (forall i,
        JsMap.get (cacheKeyOf (Benchmark.pick Benchmark.ipv6Addresses i)
                     (SubnetNumber 56)) Benchmark.warmCache
        = Some (Benchmark.subnetKey (i mod 1000))
        /\ ipKeyGenerator Benchmark.warmCache
             (Benchmark.pick Benchmark.ipv6Addresses i)
             (Some (SubnetNumber 56))
           = (inr (Benchmark.subnetKey (i mod 1000)), Benchmark.warmCache))
  /\ (forall n i,
        Benchmark.repeatM n fn (Benchmark.mkState i Benchmark.warmCache)
        = inr (Benchmark.mkState (i + n) Benchmark.warmCache))
  /\ Benchmark.testIpv6KeyGeneration JsMap.empty
     = inr (Benchmark.mkState 101000 Benchmark.warmCache).
Proof.
  intros fn. subst fn.
  assert (S : forall n i,
             Benchmark.repeatM n
               (Benchmark.keyCall Benchmark.ipv6Addresses (SubnetNumber 56))
               (Benchmark.mkState i Benchmark.warmCache)
             = inr (Benchmark.mkState (i + n) Benchmark.warmCache)).
  { apply BenchmarkFacts.repeatM_advance. intros i.
    unfold Benchmark.keyCall. cbn [Benchmark.index Benchmark.ipv6Cache].
    now rewrite (proj2 (BenchmarkFacts.warm_hit i)). }
  split; [apply BenchmarkFacts.warm_up|].
  split; [vm_compute; reflexivity|].
  split; [apply BenchmarkFacts.warm_hit|].
  split; [exact S|].
  unfold Benchmark.testIpv6KeyGeneration, Benchmark.benchmark.
  rewrite BenchmarkFacts.warm_up. cbn [bind]. now rewrite S.
Qed.

(** X8: the IPv4 run of the benchmark never touches the cache.  On any
    cache, each of its calls passes [false] and gets its address back,
    none of the addresses it generates is an IPv6 address, and after the
    101000 calls of the run the cache is the one the run started with. *)
Theorem ipv4_run_leaves_cache (c : JsMap.Map) :
  (forall i,
      ipKeyGenerator c (Benchmark.pick Benchmark.ipv4Addresses i)
        (Some SubnetFalse)
      = (inr (Benchmark.pick Benchmark.ipv4Addresses i), c))
  /\ (forall i, Net.isIPv6 (Benchmark.ipv4Address i) = false)
  /\ Benchmark.testIpv4KeyGeneration c = inr (Benchmark.mkState 101000 c).
Proof.
  split; [reflexivity|]. split; [apply BenchmarkFacts.ipv4Address_not_ipv6|].
  unfold Benchmark.testIpv4KeyGeneration, Benchmark.benchmark.
  assert (S : forall n i,
             Benchmark.repeatM n
               (Benchmark.keyCall Benchmark.ipv4Addresses SubnetFalse)
               (Benchmark.mkState i c)
             = inr (Benchmark.mkState (i + n) c)).
  { apply BenchmarkFacts.repeatM_advance. reflexivity. }
  rewrite S. cbn [bind]. now rewrite S.
Qed.

(* ================================================================== *)
(** * The addresses [isIPv6] accepts, and what [Address6] reads from them *)

(** ** Matches, taken apart and put together *)

Module RegexMore.
Import Regex.
Local Open Scope list_scope.

Lemma matches_Eps (s : list ascii) : matches Eps s = true -> s = [].
Proof.
  destruct s as [|c s]; [reflexivity|].
  simpl. now rewrite RegexFacts.matches_Void.
Qed.

Lemma matches_alt_of (s : list ascii) :
  (forall r1 r2, matches (Alt r1 r2) s = matches r1 s || matches r2 s) ->
  forall r1 r2, matches (alt r1 r2) s = matches r1 s || matches r2 s.
Proof.
  intros H r1 r2.
  destruct r1; try (simpl; now rewrite RegexFacts.matches_Void);
    destruct r2; simpl alt; try apply H;
    now rewrite RegexFacts.matches_Void, orb_false_r.
Qed.

Lemma matches_Alt (s : list ascii) (r1 r2 : regex) :
  matches (Alt r1 r2) s = matches r1 s || matches r2 s.
Proof.
  revert r1 r2. induction s as [|c s IH]; intros r1 r2; [reflexivity|].
  simpl. now apply matches_alt_of.
Qed.

Lemma matches_alt (s : list ascii) (r1 r2 : regex) :
  matches (alt r1 r2) s = matches r1 s || matches r2 s.
Proof. apply matches_alt_of. intros. apply matches_Alt. Qed.

Lemma matches_Seq_Void (s : list ascii) (r : regex) :
  matches (Seq Void r) s = false.
Proof.
  induction s as [|c s IH]; [reflexivity|].
  simpl. apply RegexFacts.matches_Void.
Qed.

Lemma matches_Seq_Eps (s : list ascii) (r : regex) :
  matches (Seq Eps r) s = matches r s.
Proof. destruct s as [|c s]; reflexivity. Qed.

Lemma matches_seq (s : list ascii) (r1 r2 : regex) :
  matches (seq r1 r2) s = matches (Seq r1 r2) s.
Proof.
  destruct r1; try reflexivity; simpl seq.
  - now rewrite matches_Seq_Void, RegexFacts.matches_Void.
  - now rewrite matches_Seq_Eps.
Qed.

Lemma matches_Seq_cons (c : ascii) (s : list ascii) (r1 r2 : regex) :
  matches (Seq r1 r2) (c :: s)
  = matches (Seq (deriv c r1) r2) s || (nullable r1 && matches r2 (c :: s)).
Proof.
  simpl. destruct (nullable r1).
  - now rewrite matches_alt, matches_seq.
  - now rewrite matches_seq, orb_false_r.
Qed.

(** A match of [r1 r2] is a match of [r1] followed by one of [r2]. *)
Lemma matches_Seq_inv (s : list ascii) (r1 r2 : regex) :
  matches (Seq r1 r2) s = true ->
  exists s1 s2, s = s1 ++ s2 /\ matches r1 s1 = true /\ matches r2 s2 = true.
Proof.
  revert r1. induction s as [|c s IH]; intros r1 H.
  - simpl in H. apply andb_true_iff in H as [H1 H2].
    now exists [], [].
  - rewrite matches_Seq_cons in H. apply orb_true_iff in H as [H|H].
    + destruct (IH _ H) as [s1 [s2 [E [H1 H2]]]].
      exists (c :: s1), s2. subst s. now repeat split.
    + apply andb_true_iff in H as [H1 H2].
      now exists [], (c :: s).
Qed.

Lemma matches_Seq_intro (s1 s2 : list ascii) (r1 r2 : regex) :
  matches r1 s1 = true -> matches r2 s2 = true ->
  matches (Seq r1 r2) (s1 ++ s2) = true.
Proof.
  revert r1. induction s1 as [|c s1 IH]; intros r1 H1 H2.
  - simpl in H1. destruct s2 as [|c s2].
    + simpl. now rewrite H1.
    + cbn [app]. rewrite matches_Seq_cons, H1, H2. apply orb_true_r.
  - cbn [app]. rewrite matches_Seq_cons, (IH _ H1 H2). reflexivity.
Qed.

Lemma matches_Range (lo hi : ascii) (s : list ascii) :
  matches (Range lo hi) s = true ->
  exists c, s = [c] /\ in_range lo hi c = true.
Proof.
  destruct s as [|c s]; [discriminate|]. simpl.
  destruct (in_range lo hi c) eqn:E.
  - intros H. apply matches_Eps in H. subst s. now exists c.
  - now rewrite RegexFacts.matches_Void.
Qed.

Lemma matches_Times_inv (n : nat) (r : regex) (s : list ascii) :
  matches (Times n r) s = true ->
  exists parts, List.length parts = n
                /\ Forall (fun p => matches r p = true) parts
                /\ s = List.concat parts.
Proof.
  revert s. induction n as [|n IH]; intros s H.
  - apply matches_Eps in H. now exists [].
  - apply matches_Seq_inv in H as [s1 [s2 [E [H1 H2]]]].
    destruct (IH _ H2) as [parts [L [F C]]].
    exists (s1 :: parts). simpl. subst. repeat split; auto.
Qed.

Lemma matches_Upto_inv (n : nat) (r : regex) (s : list ascii) :
  matches (Upto n r) s = true ->
  exists parts, (List.length parts <= n)%nat
                /\ Forall (fun p => matches r p = true) parts
                /\ s = List.concat parts.
Proof.
  revert s. induction n as [|n IH]; intros s H.
  - apply matches_Eps in H. exists []. now repeat split.
  - cbn [Upto] in H. unfold Opt in H. rewrite matches_Alt in H.
    apply orb_true_iff in H as [H|H].
    + apply matches_Eps in H. exists []. repeat split; auto. simpl. lia.
    + apply matches_Seq_inv in H as [s1 [s2 [E [H1 H2]]]].
      destruct (IH _ H2) as [parts [L [F C]]].
      exists (s1 :: parts). simpl. subst. repeat split; auto. lia.
Qed.

Lemma matches_Between_inv (m n : nat) (r : regex) (s : list ascii) :
  (m <= n)%nat ->
  matches (Between m n r) s = true ->
  exists parts, (m <= List.length parts <= n)%nat
                /\ Forall (fun p => matches r p = true) parts
                /\ s = List.concat parts.
Proof.
  intros Hmn H. apply matches_Seq_inv in H as [s1 [s2 [E [H1 H2]]]].
  apply matches_Times_inv in H1 as [p1 [L1 [F1 C1]]].
  apply matches_Upto_inv in H2 as [p2 [L2 [F2 C2]]].
  exists (p1 ++ p2). rewrite length_app, concat_app. subst.
  repeat split; try lia. now apply Forall_app.
Qed.

(** A starred character class matches the strings over the class. *)
Lemma matches_Star_class (C : regex) (p : ascii -> bool) :
  (forall c, deriv c C = if p c then Eps else Void) ->
  forall s, matches (Star C) s = forallb p s.
Proof.
  intros H. induction s as [|c s IH]; [reflexivity|].
  simpl. rewrite H. destruct (p c); simpl.
  - exact IH.
  - apply RegexFacts.matches_Void.
Qed.

End RegexMore.

(** ** Strings: [split] and [join] *)

Module StrFacts.
Import Str.

Lemma append_assoc (a b c : string) : (a ++ b) ++ c = a ++ (b ++ c).
Proof. induction a as [|x a IH]; simpl; [reflexivity|]. now rewrite IH. Qed.

Lemma length_append (a b : string) :
  String.length (a ++ b) = (String.length a + String.length b)%nat.
Proof. induction a as [|x a IH]; simpl; [reflexivity|]. now rewrite IH. Qed.

Lemma chars_of_list (l : list ascii) : chars (string_of_list_ascii l) = l.
Proof. apply list_ascii_of_string_of_list_ascii. Qed.

Lemma of_list_app (l1 l2 : list ascii) :
  string_of_list_ascii (l1 ++ l2)
  = string_of_list_ascii l1 ++ string_of_list_ascii l2.
Proof. induction l1 as [|c l1 IH]; simpl; [reflexivity|]. now rewrite IH. Qed.

(** A string whose characters are [l1 ++ l2] is two strings. *)
Lemma chars_split (s : string) (l1 l2 : list ascii) :
  chars s = (l1 ++ l2)%list ->
  exists s1 s2, s = s1 ++ s2 /\ chars s1 = l1 /\ chars s2 = l2.
Proof.
  intros E. exists (string_of_list_ascii l1), (string_of_list_ascii l2).
  rewrite !chars_of_list. repeat split.
  rewrite <- of_list_app, <- E. symmetry. apply string_of_list_ascii_of_string.
Qed.

Lemma chars_nil (s : string) : chars s = [] -> s = "".
Proof. now destruct s. Qed.

Lemma chars_one (s : string) (c : ascii) : chars s = [c] -> s = String c "".
Proof.
  destruct s as [|a s]; [discriminate|]. cbn. intros [= -> E].
  now rewrite (chars_nil _ E).
Qed.

(** *** [split] and [join] *)

Lemma split_nonempty (c : ascii) (s : string) : split c s <> [].
Proof.
  destruct s as [|a s]; simpl; [discriminate|].
  destruct (Ascii.eqb a c); [discriminate|].
  now destruct (split c s).
Qed.

Lemma cons_head_app (a : ascii) (l1 l2 : list string) :
  l1 <> [] -> cons_head a (l1 ++ l2)%list = (cons_head a l1 ++ l2)%list.
Proof. now destruct l1. Qed.

Lemma split_app (c : ascii) (p w : string) :
  split c (p ++ String c w) = (split c p ++ split c w)%list.
Proof.
  induction p as [|a p IH]; simpl.
  - now rewrite Ascii.eqb_refl.
  - rewrite IH. destruct (Ascii.eqb a c); [reflexivity|].
    apply cons_head_app, split_nonempty.
Qed.

Lemma split_without (c : ascii) (g : string) :
  includes c g = false -> split c g = [g].
Proof.
  induction g as [|a g IH]; simpl; [reflexivity|].
  intros H. apply orb_false_iff in H as [Ha Hg].
  now rewrite Ha, (IH Hg).
Qed.

Lemma join_cons (sep x : string) (l : list string) :
  l <> [] -> join sep (x :: l) = x ++ sep ++ join sep l.
Proof. now destruct l. Qed.

Lemma join_snoc (sep x : string) (l : list string) :
  l <> [] -> join sep (l ++ [x])%list = join sep l ++ sep ++ x.
Proof.
  induction l as [|y l IH]; [easy|]. intros _.
  destruct l as [|z l]; [reflexivity|].
  change ((y :: z :: l) ++ [x])%list with (y :: ((z :: l) ++ [x]))%list.
  rewrite join_cons by discriminate.
  rewrite IH by discriminate.
  rewrite (join_cons sep y (z :: l)) by discriminate.
  now rewrite !append_assoc.
Qed.

Lemma join_split (c : ascii) (s : string) :
  join (String c "") (split c s) = s.
Proof.
  induction s as [|a s IH]; [reflexivity|]. cbn [split].
  pose proof (split_nonempty c s) as N.
  destruct (Ascii.eqb a c) eqn:E.
  - apply Ascii.eqb_eq in E. subst a.
    rewrite join_cons by exact N. now rewrite IH.
  - destruct (split c s) as [|x l]; [easy|]. cbn [cons_head].
    destruct l as [|y l].
    + cbn [join] in *. now rewrite IH.
    + rewrite join_cons by discriminate.
      rewrite join_cons in IH by discriminate.
      rewrite <- IH. reflexivity.
Qed.

Lemma split_join (c : ascii) (gs : list string) :
  gs <> [] -> Forall (fun g => includes c g = false) gs ->
  split c (join (String c "") gs) = gs.
Proof.
  induction gs as [|g gs IH]; [easy|]. intros _ F.
  apply Forall_cons_iff in F as [Hg F].
  destruct gs as [|g' gs].
  - now apply split_without.
  - rewrite join_cons by discriminate. cbn [append].
    rewrite split_app, (split_without _ _ Hg), IH; [reflexivity|discriminate|exact F].
Qed.

Lemma includes_join (c d : ascii) (gs : list string) :
  Ascii.eqb d c = false ->
  Forall (fun g => includes c g = false) gs ->
  includes c (join (String d "") gs) = false.
Proof.
  intros Hd. induction gs as [|g gs IH]; [reflexivity|]. intros F.
  apply Forall_cons_iff in F as [Hg F].
  destruct gs as [|g' gs]; [exact Hg|].
  rewrite join_cons by discriminate.
  rewrite !includes_app, Hg, (IH F). simpl. now rewrite Hd.
Qed.

(** A part of a split holds no character the string does not hold. *)
Lemma includes_split (c d : ascii) (s g : string) :
  In g (split c s) -> includes d g = true -> includes d s = true.
Proof.
  revert g. induction s as [|a s IH]; intros g; simpl.
  - intros [<-|[]]. easy.
  - destruct (Ascii.eqb a c).
    + intros [<-|I]; [easy|]. intros H. rewrite (IH _ I H). apply orb_true_r.
    + pose proof (split_nonempty c s) as N.
      destruct (split c s) as [|x l]; [easy|]. cbn [cons_head].
      intros [<-|I].
      * simpl. intros H. apply orb_true_iff in H as [H|H].
        -- now rewrite H.
        -- rewrite (IH x (or_introl eq_refl) H). apply orb_true_r.
      * intros H. rewrite (IH g (or_intror I) H). apply orb_true_r.
Qed.

End StrFacts.

(** ** [test] on strings *)

Module TestFacts.
Import Regex.

Lemma test_Alt (r1 r2 : regex) (s : string) :
  test (Alt r1 r2) s = test r1 s || test r2 s.
Proof. apply RegexMore.matches_Alt. Qed.

Lemma test_Eps (s : string) : test Eps s = true -> s = "".
Proof. intros H. apply RegexMore.matches_Eps in H. now apply StrFacts.chars_nil. Qed.

Lemma test_Seq_inv (r1 r2 : regex) (s : string) :
  test (Seq r1 r2) s = true ->
  exists s1 s2, s = s1 ++ s2 /\ test r1 s1 = true /\ test r2 s2 = true.
Proof.
  intros H. apply RegexMore.matches_Seq_inv in H as [l1 [l2 [E [H1 H2]]]].
  apply StrFacts.chars_split in E as [s1 [s2 [E [E1 E2]]]].
  exists s1, s2. unfold test. now rewrite E1, E2.
Qed.

Lemma test_Seq_intro (r1 r2 : regex) (s1 s2 : string) :
  test r1 s1 = true -> test r2 s2 = true -> test (Seq r1 r2) (s1 ++ s2) = true.
Proof.
  intros H1 H2. unfold test. rewrite BenchmarkFacts.chars_app.
  now apply RegexMore.matches_Seq_intro.
Qed.

Lemma test_Range (lo hi : ascii) (s : string) :
  test (Range lo hi) s = true ->
  exists c, s = String c "" /\ in_range lo hi c = true.
Proof.
  intros H. apply RegexMore.matches_Range in H as [c [E R]].
  exists c. split; [now apply StrFacts.chars_one|exact R].
Qed.

Lemma in_range_same (c a : ascii) : in_range c c a = true -> a = c.
Proof.
  unfold in_range. intros H. apply andb_true_iff in H as [H1 H2].
  apply N.leb_le in H1, H2.
  rewrite <- (ascii_N_embedding a), <- (ascii_N_embedding c).
  f_equal. lia.
Qed.

Lemma test_Chr (c : ascii) (s : string) :
  test (Chr c) s = true -> s = String c "".
Proof.
  intros H. apply test_Range in H as [a [-> R]].
  now rewrite (in_range_same _ _ R).
Qed.

Lemma test_Times_inv (n : nat) (r : regex) (s : string) :
  test (Times n r) s = true ->
  exists parts, List.length parts = n
                /\ Forall (fun p => test r p = true) parts
                /\ s = Text.flat parts.
Proof.
  revert s. induction n as [|n IH]; intros s H.
  - apply test_Eps in H. now exists [].
  - apply test_Seq_inv in H as [s1 [s2 [E [H1 H2]]]].
    destruct (IH _ H2) as [parts [L [F C]]].
    exists (s1 :: parts). simpl. subst. repeat split; auto.
Qed.

Lemma test_Upto_inv (n : nat) (r : regex) (s : string) :
  test (Upto n r) s = true ->
  exists parts, (List.length parts <= n)%nat
                /\ Forall (fun p => test r p = true) parts
                /\ s = Text.flat parts.
Proof.
  revert s. induction n as [|n IH]; intros s H.
  - apply test_Eps in H. exists []. now repeat split.
  - cbn [Upto] in H. unfold Opt in H. rewrite test_Alt in H.
    apply orb_true_iff in H as [H|H].
    + apply test_Eps in H. exists []. repeat split; auto. simpl. lia.
    + apply test_Seq_inv in H as [s1 [s2 [E [H1 H2]]]].
      destruct (IH _ H2) as [parts [L [F C]]].
      exists (s1 :: parts). simpl. subst. repeat split; auto. lia.
Qed.

Lemma flat_app (l1 l2 : list string) :
  Text.flat (l1 ++ l2)%list = Text.flat l1 ++ Text.flat l2.
Proof.
  induction l1 as [|x l1 IH]; [reflexivity|].
  simpl. rewrite IH. symmetry. apply StrFacts.append_assoc.
Qed.

Lemma test_Between_inv (m n : nat) (r : regex) (s : string) :
  (m <= n)%nat ->
  test (Between m n r) s = true ->
  exists parts, (m <= List.length parts <= n)%nat
                /\ Forall (fun p => test r p = true) parts
                /\ s = Text.flat parts.
Proof.
  intros Hmn H. apply test_Seq_inv in H as [s1 [s2 [E [H1 H2]]]].
  apply test_Times_inv in H1 as [p1 [L1 [F1 C1]]].
  apply test_Upto_inv in H2 as [p2 [L2 [F2 C2]]].
  exists (p1 ++ p2)%list. rewrite length_app, flat_app. subst.
  repeat split; try lia. now apply Forall_app.
Qed.

(** A character class: a match is one character of the class. *)
Lemma test_hexdigit (s : string) :
  test Net.hexdigit s = true ->
  exists c, s = String c "" /\ Text.is_hex c = true.
Proof.
  unfold Net.hexdigit, Text.is_hex. rewrite !test_Alt. cbn [mentions Net.hexdigit].
  intros H. apply orb_true_iff in H as [H|H]; [|apply orb_true_iff in H as [H|H]];
    apply test_Range in H as [c [-> R]]; exists c; rewrite R;
    (split; [reflexivity|]); rewrite ?orb_true_r; reflexivity.
Qed.

End TestFacts.

(** ** Groups and the pass over an address *)

Module TextFacts.
Import Regex Text.

Lemma hex_is_not (a c : ascii) :
  is_hex a = true -> is_hex c = false -> Ascii.eqb a c = false.
Proof.
  intros Ha Hc. destruct (Ascii.eqb a c) eqn:E; [|reflexivity].
  apply Ascii.eqb_eq in E. congruence.
Qed.

Lemma hex_not_colon (a : ascii) : is_hex a = true -> Ascii.eqb a ":" = false.
Proof. intros H. now apply hex_is_not. Qed.

Lemma all_hex_without (c : ascii) (g : string) :
  is_hex c = false -> forallb is_hex (Str.chars g) = true ->
  Str.includes c g = false.
Proof.
  intros Hc. induction g as [|a g IH]; [reflexivity|].
  cbn [Str.chars list_ascii_of_string forallb Str.includes].
  intros H. apply andb_true_iff in H as [Ha Hg].
  now rewrite (hex_is_not _ _ Ha Hc), (IH Hg).
Qed.

Lemma group_hex (g : string) :
  group g = true -> forallb is_hex (Str.chars g) = true.
Proof. unfold group. intros H. now apply andb_true_iff in H as [_ H]. Qed.

Lemma group_without (c : ascii) (g : string) :
  is_hex c = false -> group g = true -> Str.includes c g = false.
Proof. intros Hc G. apply all_hex_without; [exact Hc|now apply group_hex]. Qed.

Lemma groups_without (c : ascii) (gs : list string) :
  is_hex c = false -> Forall (fun g => group g = true) gs ->
  Forall (fun g => Str.includes c g = false) gs.
Proof.
  intros Hc F. eapply Forall_impl; [|exact F].
  intros g. now apply group_without.
Qed.

(** A group starts with a hexadecimal digit. *)
Lemma group_head (g : string) :
  group g = true -> exists a g', g = String a g' /\ is_hex a = true.
Proof.
  destruct g as [|a g']; [discriminate|]. intros G.
  apply group_hex in G. cbn [Str.chars list_ascii_of_string forallb] in G.
  apply andb_true_iff in G as [Ha _].
  now exists a, g'.
Qed.

(** *** The pass over an address *)

Lemma scan_app (a b : string) (h c : nat) :
  scan h c (a ++ b)
  = match scan h c a with
    | Some (h', c') => scan h' c' b
    | None => None
    end.
Proof.
  revert h c. induction a as [|x a IH]; intros h c; [reflexivity|].
  cbn [append scan].
  destruct (is_hex x); [destruct (h <? 4)%nat|]; try reflexivity; try apply IH.
  destruct (Ascii.eqb x ":"); [destruct (c <? 2)%nat|]; try reflexivity.
  apply IH.
Qed.

Lemma scan_hex (g : string) (h c : nat) :
  g <> "" -> forallb is_hex (Str.chars g) = true ->
  (h + String.length g <= 4)%nat ->
  scan h c g = Some ((h + String.length g)%nat, 0%nat).
Proof.
  revert h c. induction g as [|a g IH]; [easy|]. intros h c _ H L.
  cbn [Str.chars list_ascii_of_string forallb] in H.
  apply andb_true_iff in H as [Ha Hg]. cbn [String.length] in L.
  cbn [scan]. rewrite Ha.
  replace (h <? 4)%nat with true by (symmetry; apply Nat.ltb_lt; lia).
  destruct g as [|b g].
  - cbn. f_equal. f_equal. lia.
  - rewrite IH; [|discriminate|exact Hg|cbn [String.length] in *; lia].
    f_equal. f_equal. cbn [String.length]. lia.
Qed.

Lemma scan_group (g : string) (c : nat) :
  group g = true -> scan 0 c g = Some (String.length g, 0%nat).
Proof.
  intros G. pose proof (group_hex _ G) as H. unfold group in G.
  apply andb_true_iff in G as [G _]. apply andb_true_iff in G as [G1 G2].
  apply Nat.leb_le in G1, G2.
  apply (scan_hex g 0 c); [|exact H|simpl; lia].
  intros ->. simpl in G1. lia.
Qed.

(** After the groups of a list, joined by colons, no colon has just
    been read. *)
Lemma scan_join (gs : list string) (c : nat) :
  gs <> [] -> Forall (fun g => group g = true) gs ->
  exists h, scan 0 c (Str.join ":" gs) = Some (h, 0%nat).
Proof.
  revert c. induction gs as [|g gs IH]; [easy|]. intros c _ F.
  apply Forall_cons_iff in F as [G F].
  destruct gs as [|g' gs].
  - exists (String.length g). now apply scan_group.
  - rewrite StrFacts.join_cons by discriminate.
    rewrite scan_app, (scan_group _ _ G). cbn [append scan].
    replace (is_hex ":") with false by (vm_compute; reflexivity).
    cbn. apply IH; [discriminate|exact F].
Qed.

(** What the pass accepts holds allowed characters only. *)
Lemma scan_allowed (s : string) (h c : nat) (st : nat * nat) :
  scan h c s = Some st ->
  forallb (fun a => mentions a allowedChar) (Str.chars s) = true.
Proof.
  revert h c. induction s as [|a s IH]; intros h c; [reflexivity|].
  cbn [scan]. cbn [Str.chars list_ascii_of_string forallb].
  destruct (is_hex a) eqn:Ha.
  - destruct (h <? 4)%nat; [|discriminate]. intros H.
    apply andb_true_iff. split; [|exact (IH _ _ H)].
    unfold is_hex in Ha. cbn [mentions allowedChar]. 
    change (mentions a hexdigit) with (mentions a Net.hexdigit).
    now rewrite Ha.
  - destruct (Ascii.eqb a ":") eqn:Ec; [|discriminate].
    destruct (c <? 2)%nat; [|discriminate]. intros H.
    apply andb_true_iff. split; [|exact (IH _ _ H)].
    apply Ascii.eqb_eq in Ec. subst a. vm_compute. reflexivity.
Qed.

Lemma allowed_class (c : ascii) :
  deriv c allowedChar = if mentions c allowedChar then Eps else Void.
Proof. destruct c as [[] [] [] [] [] [] [] []]; vm_compute; reflexivity. Qed.

Lemma scan_no_bad_characters (s : string) (st : nat * nat) :
  scan 0 0 s = Some st -> no_bad_characters s = true.
Proof.
  intros H. unfold no_bad_characters, test.
  rewrite (RegexMore.matches_Star_class _ _ allowed_class).
  exact (scan_allowed _ _ _ _ H).
Qed.

End TextFacts.

(** ** The two screens of [Address6.parse] *)

Module ScreenFacts.
Import Regex Text TestFacts TextFacts.

Lemma test_notColon (s : string) :
  test notColon s = true ->
  exists a, s = String a "" /\ Ascii.eqb a ":" = false.
Proof.
  unfold notColon. rewrite test_Alt. intros H.
  apply orb_true_iff in H as [H|H];
    apply test_Range in H as [a [-> R]]; exists a; (split; [reflexivity|]);
    destruct (Ascii.eqb a ":") eqn:E; try reflexivity;
    apply Ascii.eqb_eq in E; subst a; vm_compute in R; discriminate.
Qed.

(** Five hexadecimal digits in a row end the pass. *)
Lemma scan_five (a1 a2 a3 a4 a5 : ascii) (v : string) (h c : nat) :
  is_hex a1 = true -> is_hex a2 = true -> is_hex a3 = true ->
  is_hex a4 = true -> is_hex a5 = true ->
  scan h c (String a1 (String a2 (String a3 (String a4 (String a5 v))))) = None.
Proof.
  intros H1 H2 H3 H4 H5. cbn [scan]. rewrite H1, H2, H3, H4, H5.
  destruct h as [|[|[|[|h]]]]; reflexivity.
Qed.

Lemma scan_three_colons (v : string) (h c : nat) :
  scan h c (String ":" (String ":" (String ":" v))) = None.
Proof.
  cbn [scan].
  replace (is_hex ":") with false by (vm_compute; reflexivity).
  rewrite Ascii.eqb_refl.
  destruct c as [|[|c]]; reflexivity.
Qed.

(** An address the pass accepts, that does not end with a single colon
    nor start with one, passes [RE_BAD_ADDRESS]. *)
Lemma scan_bad_address (s : string) (h c : nat) :
  scan 0 0 s = Some (h, c) -> c <> 1%nat -> starts_single_colon s = false ->
  test RE_BAD_ADDRESS s = false.
Proof.
  intros S C1 C2. destruct (test RE_BAD_ADDRESS s) eqn:T; [exfalso|reflexivity].
  unfold RE_BAD_ADDRESS in T. rewrite !test_Alt in T.
  apply orb_true_iff in T as [T|T]; [|apply orb_true_iff in T as [T|T];
    [|apply orb_true_iff in T as [T|T]; [|apply orb_true_iff in T as [T|T]]]].
  - (* five digits *)
    apply test_Seq_inv in T as [u [m [-> [_ T]]]].
    apply test_Seq_inv in T as [x [v [-> [T _]]]].
    apply test_Times_inv in T as [parts [L [F ->]]].
    destruct parts as [|p1 [|p2 [|p3 [|p4 [|p5 [|p6 parts]]]]]]; try discriminate.
    repeat match goal with
           | F : Forall _ (_ :: _) |- _ => apply Forall_cons_iff in F as [?H F]
           end.
    repeat match goal with
           | H : test hexdigit _ = true |- _ =>
               apply test_hexdigit in H as [? [-> ?]]
           end.
    rewrite scan_app in S. destruct (scan 0 0 u) as [[h' c']|]; [|discriminate].
    cbn [flat fold_right append] in S.
    now rewrite scan_five in S.
  - (* three colons *)
    apply test_Seq_inv in T as [u [m [-> [_ T]]]].
    apply test_Seq_inv in T as [x [v [-> [T _]]]].
    apply test_Times_inv in T as [parts [L [F ->]]].
    destruct parts as [|p1 [|p2 [|p3 [|p4 parts]]]]; try discriminate.
    repeat match goal with
           | F : Forall _ (_ :: _) |- _ => apply Forall_cons_iff in F as [?H F]
           end.
    repeat match goal with
           | H : test (Chr _) _ = true |- _ => apply test_Chr in H; subst
           end.
    rewrite scan_app in S. destruct (scan 0 0 u) as [[h' c']|]; [|discriminate].
    cbn [flat fold_right append] in S.
    now rewrite scan_three_colons in S.
  - (* a single colon at the end *)
    apply test_Seq_inv in T as [u [m [-> [_ T]]]].
    apply test_Seq_inv in T as [x [y [-> [Tx Ty]]]].
    apply test_notColon in Tx as [a [-> Na]]. apply test_Chr in Ty. subst y.
    rewrite scan_app in S. destruct (scan 0 0 u) as [[h' c']|]; [|discriminate].
    cbn [append scan] in S. rewrite Na in S.
    replace (is_hex ":") with false in S by (vm_compute; reflexivity).
    rewrite Ascii.eqb_refl in S.
    destruct (is_hex a); [|discriminate].
    destruct (h' <? 4)%nat; [|discriminate].
    cbn in S. injection S as _ <-. now apply C1.
  - (* a single colon at the start *)
    apply test_Seq_inv in T as [x [m [-> [Tx T]]]].
    apply test_Seq_inv in T as [y [v [-> [Ty _]]]].
    apply test_Chr in Tx. subst x.
    apply test_notColon in Ty as [a [-> Na]].
    cbn in C2. now rewrite Na in C2.
  - (* a slash at the end *)
    apply test_Seq_inv in T as [u [m [-> [_ T]]]].
    apply test_Chr in T. subst m.
    rewrite scan_app in S. destruct (scan 0 0 u) as [[h' c']|]; [|discriminate].
    vm_compute in S. discriminate.
Qed.

End ScreenFacts.

(** ** [Address6.parse] on groups joined by colons *)

Module ParseFacts.
Import Regex Text TestFacts TextFacts.

(** *** [split("::")] *)

Lemma elision_char (a : ascii) (s : string) (x : string) (l : list string) :
  Ascii.eqb a ":" = false -> Str.split_elision s = x :: l -> s <> "" ->
  Str.split_elision (String a s) = String a x :: l.
Proof.
  intros Ha E N. destruct s as [|b s]; [easy|].
  change (Str.split_elision (String a (String b s)))
    with (if Ascii.eqb a ":" && Ascii.eqb b ":"
          then "" :: Str.split_elision s
          else Str.cons_head a (Str.split_elision (String b s))).
  now rewrite Ha, E.
Qed.

Lemma elision_word (p s x : string) (l : list string) :
  Str.includes ":" p = false -> Str.split_elision s = x :: l -> s <> "" ->
  Str.split_elision (p ++ s) = (p ++ x) :: l.
Proof.
  intros P E N. induction p as [|a p IH]; [exact E|].
  cbn [Str.includes] in P. apply orb_false_iff in P as [Pa Pp].
  cbn [append]. apply elision_char; [exact Pa|now apply IH|].
  destruct p; [exact N|discriminate].
Qed.

Lemma elision_word_end (p : string) :
  Str.includes ":" p = false -> Str.split_elision p = [p].
Proof.
  induction p as [|a p IH]; [reflexivity|]. intros P.
  cbn [Str.includes] in P. apply orb_false_iff in P as [Pa Pp].
  destruct p as [|b p]; [reflexivity|].
  apply elision_char; [exact Pa|now apply IH|discriminate].
Qed.

(** A colon before a hexadecimal digit is no elision. *)
Lemma elision_colon (b : ascii) (s x : string) (l : list string) :
  is_hex b = true -> Str.split_elision (String b s) = x :: l ->
  Str.split_elision (String ":" (String b s)) = String ":" x :: l.
Proof.
  intros Hb E.
  change (Str.split_elision (String ":" (String b s)))
    with (if Ascii.eqb ":" ":" && Ascii.eqb b ":"
          then "" :: Str.split_elision s
          else Str.cons_head ":" (Str.split_elision (String b s))).
  now rewrite (hex_not_colon _ Hb), andb_false_r, E.
Qed.

Lemma join_head (g : string) (gs : list string) :
  group g = true ->
  exists a s, Str.join ":" (g :: gs) = String a s /\ is_hex a = true.
Proof.
  intros G. destruct (group_head _ G) as [a [g' [-> Ha]]].
  destruct gs as [|g2 gs].
  - now exists a, g'.
  - rewrite StrFacts.join_cons by discriminate.
    now exists a, (g' ++ ":" ++ Str.join ":" (g2 :: gs)).
Qed.

Lemma elision_join (gs : list string) :
  gs <> [] -> Forall (fun g => group g = true) gs ->
  Str.split_elision (Str.join ":" gs) = [Str.join ":" gs].
Proof.
  induction gs as [|g gs IH]; [easy|]. intros _ F.
  apply Forall_cons_iff in F as [G F].
  pose proof (group_without ":" g eq_refl G) as Gc.
  destruct gs as [|g' gs].
  - now apply elision_word_end.
  - rewrite StrFacts.join_cons by discriminate.
    apply Forall_cons_iff in F as [G' F].
    destruct (join_head g' gs G') as [a [s [E Ha]]].
    assert (F' : Forall (fun g => group g = true) (g' :: gs)) by now constructor.
    specialize (IH ltac:(discriminate) F').
    rewrite E in *. cbn [append].
    apply (elision_word g _ _ [] Gc); [|discriminate].
    now apply elision_colon.
Qed.

Lemma elision_join_then (gs : list string) (v : string) :
  Forall (fun g => group g = true) gs ->
  Str.split_elision (Str.join ":" gs ++ "::" ++ v)
  = Str.join ":" gs :: Str.split_elision v.
Proof.
  induction gs as [|g gs IH]; [reflexivity|]. intros F.
  apply Forall_cons_iff in F as [G F].
  pose proof (group_without ":" g eq_refl G) as Gc.
  destruct gs as [|g' gs].
  - cbn [Str.join].
    rewrite (elision_word g ("::" ++ v) "" (Str.split_elision v) Gc);
      [now rewrite append_empty|reflexivity|discriminate].
  - rewrite StrFacts.join_cons by discriminate.
    pose proof F as F'. apply Forall_cons_iff in F as [G' F].
    destruct (join_head g' gs G') as [a [s [E Ha]]].
    specialize (IH F').
    rewrite !StrFacts.append_assoc.
    rewrite E in *. cbn [append] in *.
    rewrite (elision_word g _ _ _ Gc
               (elision_colon _ _ _ _ Ha IH)); [|discriminate].
    reflexivity.
Qed.

(** *** The groups of a half *)

Lemma split_groups_join (gs : list string) :
  Forall (fun g => group g = true) gs ->
  split_groups (Str.join ":" gs) = gs.
Proof.
  intros F. destruct gs as [|g gs]; [reflexivity|].
  unfold split_groups.
  rewrite (StrFacts.split_join ":" (g :: gs));
    [|discriminate|now apply groups_without].
  apply Forall_cons_iff in F as [G _].
  destruct (group_head _ G) as [a [g' [-> _]]]. reflexivity.
Qed.

(** *** Numbers from groups *)

Lemma hex_value_hex (c : ascii) :
  is_hex c = true -> exists d, Num.hex_value c = Some d /\ (d <? 16)%N = true.
Proof.
  destruct c as [[] [] [] [] [] [] [] []]; intros H; vm_compute in H;
    try discriminate; eexists; split; vm_compute; reflexivity.
Qed.

Lemma parse_prefix_hex (s : string) (seen : bool) (acc : N) :
  forallb is_hex (Str.chars s) = true -> seen = true \/ s <> "" ->
  exists n, Num.parse_prefix 16 s seen acc = Some n
            /\ (n < (acc + 1) * 16 ^ N.of_nat (String.length s))%N.
Proof.
  revert seen acc. induction s as [|c s IH]; intros seen acc H N.
  - destruct N as [->|N]; [|easy]. exists acc. split; [reflexivity|].
    cbn. lia.
  - cbn [Str.chars list_ascii_of_string forallb] in H.
    apply andb_true_iff in H as [Hc Hs].
    destruct (hex_value_hex _ Hc) as [d [E D]].
    cbn [Num.parse_prefix]. rewrite E, D.
    destruct (IH true (acc * 16 + d)%N Hs (or_introl eq_refl)) as [n [P B]].
    exists n. split; [exact P|].
    apply N.ltb_lt in D. cbn [String.length].
    rewrite Nat2N.inj_succ, N.pow_succ_r'.
    assert (M : ((acc * 16 + d + 1) * 16 ^ N.of_nat (String.length s)
                 <= (acc + 1) * 16 * 16 ^ N.of_nat (String.length s))%N)
      by (apply N.mul_le_mono_r; lia).
    lia.
Qed.

Lemma group_reads (g : string) :
  group g = true -> exists n, reads g n /\ (n < 65536)%N.
Proof.
  intros G. destruct (group_head _ G) as [a [g' [E _]]].
  destruct (parse_prefix_hex g false 0 (group_hex _ G)) as [n [P B]];
    [right; now rewrite E|].
  exists n. split; [exact P|].
  unfold group in G. apply andb_true_iff in G as [G _].
  apply andb_true_iff in G as [_ G]. apply Nat.leb_le in G.
  assert (M : (16 ^ N.of_nat (String.length g) <= 16 ^ 4)%N)
    by (apply N.pow_le_mono_r; lia).
  change (16 ^ 4)%N with 65536%N in M. lia.
Qed.

Lemma groups_read (gs : list string) :
  Forall (fun g => group g = true) gs ->
  exists ns, Forall2 reads gs ns /\ Forall (fun n => (n < 65536)%N) ns.
Proof.
  induction gs as [|g gs IH]; intros F; [now exists []|].
  apply Forall_cons_iff in F as [G F].
  destruct (group_reads _ G) as [n [R B]]. destruct (IH F) as [ns [Rs Bs]].
  exists (n :: ns). split; now constructor.
Qed.

Lemma parse_groups_reads (gs : list string) (ns : list N) :
  Forall2 reads gs ns -> parse_groups gs = ok ns.
Proof.
  induction 1 as [|g n gs ns R _ IH]; [reflexivity|].
  cbn [parse_groups]. unfold reads in R. now rewrite R, IH.
Qed.

Lemma reads_zeros (k : nat) : Forall2 reads (repeat "0" k) (repeat 0%N k).
Proof. induction k as [|k IH]; constructor; [reflexivity|exact IH]. Qed.

(** *** An address without an IPv4 part *)

Lemma In_last {A : Type} (l : list A) (d : A) : l <> [] -> In (last l d) l.
Proof.
  induction l as [|x l IH]; [easy|]. intros _.
  destruct l as [|y l]; [now left|]. right. now apply IH.
Qed.

Lemma RE_ADDRESS_dot (g : string) :
  test RE_ADDRESS g = true -> Str.includes "." g = true.
Proof.
  intros T. unfold RE_ADDRESS in T.
  apply test_Seq_inv in T as [s1 [s2 [-> [T _]]]].
  apply test_Times_inv in T as [parts [L [F ->]]].
  destruct parts as [|p parts]; [discriminate|].
  apply Forall_cons_iff in F as [T _].
  apply test_Seq_inv in T as [o [d [-> [_ T]]]].
  apply test_Chr in T. subst d.
  cbn [flat fold_right]. rewrite !includes_app. cbn [Str.includes].
  rewrite Ascii.eqb_refl. cbn. now rewrite orb_true_r.
Qed.

Lemma parse4in6_plain (s : string) :
  Str.includes "." s = false -> parse4in6 s = ok s.
Proof.
  intros H. unfold parse4in6, init_last.
  destruct (test RE_ADDRESS (last (Str.split ":" s) "")) eqn:T; [|reflexivity].
  apply RE_ADDRESS_dot in T.
  rewrite (StrFacts.includes_split ":" "." s _
             (In_last _ _ (StrFacts.split_nonempty _ _)) T) in H.
  discriminate.
Qed.

(** *** Addresses of groups *)

Lemma starts_hex (a : ascii) (s : string) :
  is_hex a = true -> starts_single_colon (String a s) = false.
Proof.
  intros H. unfold starts_single_colon.
  destruct s; [reflexivity|]. now rewrite (hex_not_colon _ H).
Qed.

(** [Address6.parse] of eight groups joined by colons. *)
Lemma parse_full (gs : list string) (ns : list N) :
  List.length gs = 8%nat -> Forall (fun g => group g = true) gs ->
  Forall2 reads gs ns ->
  parse (Str.join ":" gs) = ok ns.
Proof.
  intros L F R.
  assert (N : gs <> []) by (intros ->; discriminate).
  unfold parse.
  rewrite parse4in6_plain
    by (apply StrFacts.includes_join; [reflexivity|now apply groups_without]).
  cbn [bind ok].
  destruct (scan_join gs 0 N F) as [h S].
  rewrite (scan_no_bad_characters _ _ S). cbn [negb].
  rewrite (ScreenFacts.scan_bad_address _ _ _ S); [|discriminate|].
  - rewrite (elision_join gs N F).
    rewrite (StrFacts.split_join ":" gs N (groups_without ":" gs eq_refl F)).
    cbn [bind ok]. rewrite (parse_groups_reads _ _ R). cbn [bind ok].
    rewrite <- (Forall2_length R), L. reflexivity.
  - destruct gs as [|g gs]; [easy|].
    apply Forall_cons_iff in F as [G _].
    destruct (join_head g gs G) as [a [s [-> Ha]]]. now apply starts_hex.
Qed.

(** [Address6.parse] of an address with an elision: the groups before
    it, the groups after it, and zeros between them to make eight. *)
Lemma parse_elided (first last : list string) (nf nl : list N) :
  Forall (fun g => group g = true) first ->
  Forall (fun g => group g = true) last ->
  Forall2 reads first nf -> Forall2 reads last nl ->
  (List.length first + List.length last <= 7)%nat ->
  parse (Str.join ":" first ++ "::" ++ Str.join ":" last)
  = ok (nf ++ repeat 0%N (8 - (List.length first + List.length last)) ++ nl)%list.
Proof.
  intros Ff Fl Rf Rl L.
  set (k := (8 - (List.length first + List.length last))%nat).
  unfold parse.
  rewrite parse4in6_plain.
  2:{ rewrite !includes_app.
      rewrite !StrFacts.includes_join;
        try reflexivity; now apply groups_without. }
  cbn [bind ok].
  assert (S : exists h c, scan 0 0 (Str.join ":" first ++ "::" ++ Str.join ":" last)
                          = Some (h, c) /\ c <> 1%nat).
  { rewrite scan_app.
    assert (S1 : exists h, scan 0 0 (Str.join ":" first) = Some (h, 0%nat)).
    { destruct first as [|g first]; [now exists 0%nat|].
      now apply scan_join. }
    destruct S1 as [h1 ->]. rewrite scan_app.
    replace (scan h1 0 "::") with (Some (0%nat, 2%nat)) by reflexivity.
    destruct last as [|g last].
    - exists 0%nat, 2%nat. split; [reflexivity|discriminate].
    - destruct (scan_join (g :: last) 2 ltac:(discriminate) Fl) as [h2 S2].
      exists h2, 0%nat. split; [exact S2|discriminate]. }
  destruct S as [h [c [S C]]].
  rewrite (scan_no_bad_characters _ _ S). cbn [negb].
  rewrite (ScreenFacts.scan_bad_address _ _ _ S C).
  2:{ destruct first as [|g first]; [reflexivity|].
      apply Forall_cons_iff in Ff as [G _].
      destruct (join_head g first G) as [a [s [-> Ha]]].
      cbn [append]. now apply starts_hex. }
  rewrite (elision_join_then first _ Ff).
  replace (Str.split_elision (Str.join ":" last)) with [Str.join ":" last].
  2:{ destruct last as [|g last]; [reflexivity|].
      symmetry. now apply elision_join. }
  rewrite !split_groups_join by assumption.
  replace (Z.of_nat GROUPS - Z.of_nat (List.length first + List.length last))
    with (Z.of_nat k) by (unfold GROUPS, k; lia).
  replace (Z.of_nat k =? 0) with false
    by (symmetry; apply Z.eqb_neq; unfold k; lia).
  rewrite Nat2Z.id. cbn [bind ok].
  assert (R : Forall2 reads (first ++ repeat "0" k ++ last)%list
                              (nf ++ repeat 0%N k ++ nl)%list)
    by (repeat apply Forall2_app; auto using reads_zeros).
  rewrite (parse_groups_reads _ _ R). cbn [bind ok].
  rewrite <- (Forall2_length R), !length_app, repeat_length.
  replace (List.length first + (k + List.length last))%nat with 8%nat
    by (unfold k; lia).
  reflexivity.
Qed.

End ParseFacts.

(** ** [fromBigInt], and the key from the bits *)

Module BitsFacts.
Import Text ParseFacts.

Lemma nibbles_ok : forallb nibble_ok (Benchmark.indices 16) = true.
Proof. vm_compute. reflexivity. Qed.

Lemma nibble_hex (k : N) : (k < 16)%N -> is_hex (nibble k) = true.
Proof.
  intros L. pose proof (BenchmarkFacts.forall_indices _ _ nibbles_ok k L) as H.
  unfold nibble_ok in H. now apply andb_true_iff in H as [H _].
Qed.

Lemma nibble_value (k : N) : (k < 16)%N -> Num.hex_value (nibble k) = Some k.
Proof.
  intros L. pose proof (BenchmarkFacts.forall_indices _ _ nibbles_ok k L) as H.
  unfold nibble_ok in H. apply andb_true_iff in H as [_ H].
  destruct (Num.hex_value (nibble k)) as [d|]; [|discriminate].
  apply N.eqb_eq in H. now subst d.
Qed.

Lemma all16_spec (P : N -> N -> N -> N -> bool) :
  all16 P = true ->
  forall a b c d,
    (a < 16)%N -> (b < 16)%N -> (c < 16)%N -> (d < 16)%N -> P a b c d = true.
Proof.
  unfold all16. cbv zeta. intros H a b c d La Lb Lc Ld.
  pose proof (BenchmarkFacts.forall_indices _ _ H a La) as Ha. cbv beta in Ha.
  pose proof (BenchmarkFacts.forall_indices _ _ Ha b Lb) as Hb. cbv beta in Hb.
  pose proof (BenchmarkFacts.forall_indices _ _ Hb c Lc) as Hc. cbv beta in Hc.
  exact (BenchmarkFacts.forall_indices _ _ Hc d Ld).
Qed.

Lemma hex4_checked : all16 hex4_ok = true.
Proof. vm_compute. reflexivity. Qed.

Lemma hex4_digits (a b c d : N) :
  (a < 16)%N -> (b < 16)%N -> (c < 16)%N -> (d < 16)%N ->
  Num.padStart0 4 (Num.toHex (number4 a b c d)) = digits4 a b c d.
Proof.
  intros La Lb Lc Ld. apply String.eqb_eq.
  exact (all16_spec hex4_ok hex4_checked a b c d La Lb Lc Ld).
Qed.

Lemma digits4_group (a b c d : N) :
  (a < 16)%N -> (b < 16)%N -> (c < 16)%N -> (d < 16)%N ->
  group (digits4 a b c d) = true.
Proof.
  intros La Lb Lc Ld. unfold group, digits4.
  cbn [String.length Nat.leb Str.chars list_ascii_of_string forallb andb].
  now rewrite !nibble_hex.
Qed.

Lemma digits4_reads (a b c d : N) :
  (a < 16)%N -> (b < 16)%N -> (c < 16)%N -> (d < 16)%N ->
  reads (digits4 a b c d) (number4 a b c d).
Proof.
  intros La Lb Lc Ld. unfold reads, Num.parseInt, digits4.
  cbn [Num.parse_prefix].
  rewrite !nibble_value by assumption.
  apply N.ltb_lt in La, Lb, Lc, Ld. rewrite La, Lb, Lc, Ld.
  reflexivity.
Qed.

(** A number below [16^4] is its four digits. *)
Lemma number4_digits (n : N) :
  (n < 65536)%N ->
  exists a b c d, (a < 16)%N /\ (b < 16)%N /\ (c < 16)%N /\ (d < 16)%N
                  /\ n = number4 a b c d.
Proof.
  intros L.
  exists (n / 4096)%N, (n / 256 mod 16)%N, (n / 16 mod 16)%N, (n mod 16)%N.
  unfold number4.
  pose proof (N.div_mod n 16 ltac:(discriminate)) as E1.
  pose proof (N.div_mod (n / 16) 16 ltac:(discriminate)) as E2.
  pose proof (N.div_mod (n / 16 / 16) 16 ltac:(discriminate)) as E3.
  rewrite !N.Div0.div_div in E2, E3. change (16 * 16)%N with 256%N in *.
  rewrite N.Div0.div_div in E3. change (256 * 16)%N with 4096%N in *.
  pose proof (N.mod_lt n 16 ltac:(discriminate)).
  pose proof (N.mod_lt (n / 16) 16 ltac:(discriminate)).
  pose proof (N.mod_lt (n / 256) 16 ltac:(discriminate)).
  assert (n / 4096 < 16)%N by (apply N.Div0.div_lt_upper_bound; exact L).
  assert (E4 : ((n / 4096) mod 16 = n / 4096)%N) by now apply N.mod_small.
  repeat split; try assumption. lia.
Qed.

Lemma hex_group_ok (z : Z) (i : nat) :
  group (hex_group z i) = true
  /\ reads (hex_group z i)
           (Z.to_N (Z.land (Z.shiftr z (16 * (7 - Z.of_nat i))) 65535)).
Proof.
  unfold hex_group.
  set (n := Z.to_N (Z.land (Z.shiftr z (16 * (7 - Z.of_nat i))) 65535)).
  assert (L : (n < 65536)%N).
  { unfold n. change 65535 with (Z.ones 16).
    rewrite Z.land_ones by lia.
    pose proof (Z.mod_pos_bound (Z.shiftr z (16 * (7 - Z.of_nat i))) (2 ^ 16)
                  ltac:(lia)).
    lia. }
  destruct (number4_digits n L) as [a [b [c [d [La [Lb [Lc [Ld ->]]]]]]]].
  rewrite hex4_digits by assumption.
  split; [now apply digits4_group|now apply digits4_reads].
Qed.

Lemma Forall2_map_same {A B C : Type} (R : B -> C -> Prop)
    (f : A -> B) (g : A -> C) (l : list A) :
  (forall x, R (f x) (g x)) -> Forall2 R (map f l) (map g l).
Proof. intros H. induction l; constructor; auto. Qed.

(** [Address6.fromBigInt] returns the address whose groups are the
    sixteen-bit fields of the number. *)
Lemma fromBigInt_groups (z : Z) :
  exists text, fromBigInt z = ok (mkAddress6 text 128 "" text (groupsOfBits z)).
Proof.
  unfold fromBigInt.
  set (gs := map (hex_group z) (List.seq 0 GROUPS)).
  assert (F : Forall (fun g => group g = true) gs).
  { apply Forall_map, Forall_forall. intros i _. apply hex_group_ok. }
  assert (R : Forall2 reads gs (groupsOfBits z)).
  { apply Forall2_map_same. intros i. apply hex_group_ok. }
  exists (Str.join ":" gs). unfold new_Address6.
  rewrite take_subnet_bare
    by (apply StrFacts.includes_join;
        [reflexivity|now apply TextFacts.groups_without]).
  cbn [bind ok].
  rewrite split_zone_none
    by (apply StrFacts.includes_join;
        [reflexivity|now apply TextFacts.groups_without]).
  rewrite (parse_full gs _ eq_refl F R). reflexivity.
Qed.

(** What a miss computes is the key of the subnet of the address. *)
Lemma computed_subnet_key (ip : string) (n z : Z) :
  Net.isIPv6 ip = true -> 1 <= n <= 128 -> addressBits ip = inr z ->
  computed ip (SubnetNumber n) = inr (subnetKeyOf z n).
Proof.
  intros V R B. rewrite (computed_from_bits _ _ _ V R B).
  unfold BITS. fold (subnetBits z n).
  destruct (fromBigInt_groups (subnetBits z n)) as [text ->].
  reflexivity.
Qed.

End BitsFacts.

(** ** The pieces of [IPv6Reg] *)

Module ShapeFacts.
Import Regex Text TestFacts TextFacts ParseFacts.

(** *** What the pieces of [IPv6Reg] match *)

Lemma flat_hex (parts : list string) :
  Forall (fun p => test Net.hexdigit p = true) parts ->
  String.length (flat parts) = List.length parts
  /\ forallb is_hex (Str.chars (flat parts)) = true.
Proof.
  induction 1 as [|p parts T _ [IH1 IH2]]; [now split|].
  apply test_hexdigit in T as [c [-> Hc]].
  cbn [flat fold_right append String.length List.length
       Str.chars list_ascii_of_string forallb].
  fold (flat parts). fold (Str.chars (flat parts)).
  now rewrite IH1, Hc, IH2.
Qed.

Lemma v6Seg_group (g : string) : test Net.v6Seg g = true -> group g = true.
Proof.
  intros T. apply test_Between_inv in T as [parts [L [F ->]]]; [|lia].
  destruct (flat_hex _ F) as [E H]. unfold group. rewrite E, H.
  replace (1 <=? List.length parts)%nat with true
    by (symmetry; apply Nat.leb_le; lia).
  replace (List.length parts <=? 4)%nat with true
    by (symmetry; apply Nat.leb_le; lia).
  reflexivity.
Qed.

Lemma Forall_images {A B : Type} (P : A -> Prop) (f : A -> B) (l : list B) :
  Forall (fun y => exists x, P x /\ y = f x) l ->
  exists xs, Forall P xs /\ l = map f xs.
Proof.
  induction 1 as [|y l [x [Px ->]] _ [xs [F ->]]]; [now exists []|].
  exists (x :: xs). split; [now constructor|reflexivity].
Qed.

(** [(?:v6Seg:){n}]: [n] groups, a colon after each. *)
Lemma segs_inv (n : nat) (s : string) :
  test (Net.segs n) s = true ->
  exists gs, List.length gs = n /\ Forall (fun g => group g = true) gs
             /\ s = flat (map (fun g => g ++ ":") gs).
Proof.
  intros T. apply test_Times_inv in T as [parts [L [F ->]]].
  destruct (Forall_images (fun g => group g = true) (fun g => g ++ ":") parts)
    as [gs [G ->]].
  - eapply Forall_impl; [|exact F]. intros p T.
    apply test_Seq_inv in T as [g [c [-> [Tg Tc]]]].
    apply test_Chr in Tc. subst c. exists g.
    split; [now apply v6Seg_group|reflexivity].
  - exists gs. rewrite length_map in L. now repeat split.
Qed.

(** [(?::v6Seg){m,n}]: [m] to [n] groups, a colon before each. *)
Lemma tails_inv (m n : nat) (s : string) :
  (m <= n)%nat ->
  test (Net.tails m n) s = true ->
  exists gs, (m <= List.length gs <= n)%nat
             /\ Forall (fun g => group g = true) gs
             /\ s = flat (map (fun g => String ":" g) gs).
Proof.
  intros Hmn T. apply test_Between_inv in T as [parts [L [F ->]]]; [|exact Hmn].
  destruct (Forall_images (fun g => group g = true) (fun g => String ":" g) parts)
    as [gs [G ->]].
  - eapply Forall_impl; [|exact F]. intros p T.
    apply test_Seq_inv in T as [c [g [-> [Tc Tg]]]].
    apply test_Chr in Tc. subst c. exists g.
    split; [now apply v6Seg_group|reflexivity].
  - exists gs. rewrite length_map in L. now repeat split.
Qed.

Lemma segs_text (gs : list string) :
  gs <> [] -> flat (map (fun g => g ++ ":") gs) = Str.join ":" gs ++ ":".
Proof.
  induction gs as [|g gs IH]; [easy|]. intros _.
  destruct gs as [|g' gs].
  - cbn. now rewrite append_empty.
  - rewrite StrFacts.join_cons by discriminate.
    cbn [map flat fold_right] in *. rewrite IH by discriminate.
    now rewrite !StrFacts.append_assoc.
Qed.

Lemma tails_text (gs : list string) :
  gs <> [] -> flat (map (fun g => String ":" g) gs) = String ":" (Str.join ":" gs).
Proof.
  induction gs as [|g gs IH]; [easy|]. intros _.
  destruct gs as [|g' gs].
  - cbn. now rewrite append_empty.
  - rewrite StrFacts.join_cons by discriminate.
    cbn [map flat fold_right] in *. rewrite IH by discriminate.
    reflexivity.
Qed.

End ShapeFacts.

(** ** The IPv4 part *)

Module V4Facts.
Import Regex Text TestFacts TextFacts ParseFacts.

Lemma in_range_chars (lo hi c : ascii) :
  in_range lo hi c = true -> In c (range_chars lo hi).
Proof.
  unfold in_range, range_chars. intros H.
  apply andb_true_iff in H as [H1 H2]. apply N.leb_le in H1, H2.
  apply in_map_iff. exists (N.to_nat (N_of_ascii c)). split.
  - rewrite N2Nat.id. apply ascii_N_embedding.
  - apply in_seq. lia.
Qed.

Lemma test_strings (r : regex) (s : string) :
  star_free r = true -> test r s = true -> In s (strings r).
Proof.
  revert s. induction r as [| |lo hi|r1 IH1 r2 IH2|r1 IH1 r2 IH2|r1 IH1];
    intros s SF T; cbn [strings star_free] in *.
  - unfold test in T. now rewrite RegexFacts.matches_Void in T.
  - left. symmetry. now apply test_Eps.
  - apply test_Range in T as [c [-> R]].
    apply (in_map (fun c => String c "")). now apply in_range_chars.
  - apply andb_true_iff in SF as [S1 S2]. rewrite test_Alt in T.
    apply in_or_app. apply orb_true_iff in T as [T|T]; auto.
  - apply andb_true_iff in SF as [S1 S2].
    apply test_Seq_inv in T as [s1 [s2 [-> [T1 T2]]]].
    apply in_flat_map. exists s1. split; [auto|].
    apply (in_map (append s1)). auto.
  - discriminate.
Qed.

Lemma octets_ok : forallb octet_ok (strings Net.v4Seg) = true.
Proof. vm_compute. reflexivity. Qed.

Lemma v4Seg_ok (o : string) : test Net.v4Seg o = true -> octet_ok o = true.
Proof.
  intros T. pose proof octets_ok as H. rewrite forallb_forall in H.
  apply H. now apply test_strings.
Qed.

Lemma hex2_group (a b : string) :
  hex2 a = true -> hex2 b = true -> group (a ++ b) = true.
Proof.
  unfold hex2, group. intros Ha Hb.
  apply andb_true_iff in Ha as [La Ha], Hb as [Lb Hb].
  apply Nat.eqb_eq in La, Lb.
  rewrite StrFacts.length_append, La, Lb, BenchmarkFacts.chars_app, forallb_app.
  now rewrite Ha, Hb.
Qed.

(** An IPv4 part [isIPv6] accepts is one [Address4] accepts: four
    octets, none with a leading zero. *)
Lemma v4Str_octets (v : string) :
  test Net.v4Str v = true ->
  test RE_ADDRESS v = true
  /\ exists o1 o2 o3 o4,
       octet_ok o1 = true /\ octet_ok o2 = true /\ octet_ok o3 = true
       /\ octet_ok o4 = true
       /\ v = o1 ++ String "." (o2 ++ String "." (o3 ++ String "." o4)).
Proof.
  intros T. unfold Net.v4Str in T.
  apply test_Seq_inv in T as [s1 [o4 [-> [T T4]]]].
  apply test_Times_inv in T as [parts [L [F ->]]].
  destruct parts as [|p1 [|p2 [|p3 [|p parts]]]]; try discriminate.
  apply Forall_cons_iff in F as [T1 F]. apply Forall_cons_iff in F as [T2 F].
  apply Forall_cons_iff in F as [T3 _].
  apply test_Seq_inv in T1 as [o1 [d1 [-> [T1 D1]]]].
  apply test_Seq_inv in T2 as [o2 [d2 [-> [T2 D2]]]].
  apply test_Seq_inv in T3 as [o3 [d3 [-> [T3 D3]]]].
  apply test_Chr in D1, D2, D3. subst d1 d2 d3.
  apply v4Seg_ok in T1, T2, T3, T4.
  split.
  - assert (O : forall o, octet_ok o = true -> test octet o = true).
    { intros o H. unfold octet_ok in H.
      now repeat (apply andb_true_iff in H as [H _]). }
    assert (P : forall o, octet_ok o = true ->
                          test (Seq octet (Chr ".")) (o ++ ".") = true)
      by (intros o H; apply test_Seq_intro; [now apply O|reflexivity]).
    unfold RE_ADDRESS. apply test_Seq_intro; [|now apply O].
    cbn [flat fold_right Times].
    repeat (apply test_Seq_intro; [now apply P|]). reflexivity.
  - exists o1, o2, o3, o4. repeat (split; [assumption|]).
    cbn [flat fold_right]. rewrite !StrFacts.append_assoc.
    reflexivity.
Qed.

Lemma octet_parts (o : string) :
  octet_ok o = true ->
  test RE_LEADING_ZERO o = false /\ Str.includes ":" o = false
  /\ Str.includes "." o = false /\ hex2 (stringToPaddedHex o) = true.
Proof.
  unfold octet_ok. intros H.
  apply andb_true_iff in H as [H H5]. apply andb_true_iff in H as [H H4].
  apply andb_true_iff in H as [H H3]. apply andb_true_iff in H as [_ H2].
  apply negb_true_iff in H2, H3, H4. now repeat split.
Qed.

(** [Address6.parse4in6] on an address that ends with an IPv4 part:
    the part becomes two groups. *)
Lemma parse4in6_v4 (q v : string) :
  test Net.v4Str v = true ->
  exists h1 h2,
    group h1 = true /\ group h2 = true
    /\ parse4in6 (q ++ String ":" v) = ok (q ++ String ":" (h1 ++ String ":" h2)).
Proof.
  intros T. destruct (v4Str_octets _ T) as [A [o1 [o2 [o3 [o4 [K1 [K2 [K3 [K4 E]]]]]]]]].
  destruct (octet_parts _ K1) as [Z1 [C1 [D1 X1]]].
  destruct (octet_parts _ K2) as [Z2 [C2 [D2 X2]]].
  destruct (octet_parts _ K3) as [Z3 [C3 [D3 X3]]].
  destruct (octet_parts _ K4) as [Z4 [C4 [D4 X4]]].
  exists (stringToPaddedHex o1 ++ stringToPaddedHex o2),
         (stringToPaddedHex o3 ++ stringToPaddedHex o4).
  split; [now apply hex2_group|]. split; [now apply hex2_group|].
  assert (Cv : Str.includes ":" v = false).
  { subst v. rewrite !includes_app. cbn [Str.includes].
    rewrite !includes_app. cbn [Str.includes].
    rewrite includes_app. cbn [Str.includes].
    rewrite C1, C2, C3, C4. reflexivity. }
  assert (Sv : Str.split "." v = [o1; o2; o3; o4]).
  { subst v. rewrite !StrFacts.split_app.
    now rewrite !StrFacts.split_without by assumption. }
  unfold parse4in6, init_last.
  rewrite StrFacts.split_app, (StrFacts.split_without _ _ Cv).
  rewrite removelast_last, last_last, A, Sv.
  cbn [existsb]. rewrite Z1, Z2, Z3, Z4. cbn [orb toGroup6].
  rewrite StrFacts.join_snoc by apply StrFacts.split_nonempty.
  rewrite StrFacts.join_split. reflexivity.
Qed.

(** [Address6.parse] on an address that ends with an IPv4 part. *)
Lemma parse_v4 (q v : string) :
  Str.includes "." q = false -> test Net.v4Str v = true ->
  exists h1 h2,
    group h1 = true /\ group h2 = true
    /\ parse (q ++ String ":" v) = parse (q ++ String ":" (h1 ++ String ":" h2)).
Proof.
  intros Q T. destruct (parse4in6_v4 q v T) as [h1 [h2 [G1 [G2 E]]]].
  exists h1, h2. split; [exact G1|]. split; [exact G2|].
  unfold parse. rewrite E, parse4in6_plain; [reflexivity|].
  rewrite includes_app. cbn [Str.includes]. rewrite includes_app.
  cbn [Str.includes].
  now rewrite Q, (group_without "." h1 eq_refl G1),
    (group_without "." h2 eq_refl G2).
Qed.

End V4Facts.

(** ** What [isIPv6] accepts, [Address6] reads *)

Module ValidFacts.
Import Regex Text TestFacts TextFacts ParseFacts ShapeFacts V4Facts.

Lemma parse_full_ex (gs : list string) :
  List.length gs = 8%nat -> Forall (fun g => group g = true) gs ->
  readable (Str.join ":" gs).
Proof.
  intros L F. destruct (groups_read _ F) as [ns [R B]].
  exists ns. split; [now apply parse_full|].
  split; [|exact B]. now rewrite <- (Forall2_length R).
Qed.

Lemma parse_elided_ex (first last : list string) :
  Forall (fun g => group g = true) first ->
  Forall (fun g => group g = true) last ->
  (List.length first + List.length last <= 7)%nat ->
  readable (Str.join ":" first ++ "::" ++ Str.join ":" last).
Proof.
  intros Ff Fl L.
  destruct (groups_read _ Ff) as [nf [Rf Bf]].
  destruct (groups_read _ Fl) as [nl [Rl Bl]].
  eexists. split; [now apply (parse_elided first last nf nl)|].
  split.
  - rewrite !length_app, repeat_length.
    rewrite <- (Forall2_length Rf), <- (Forall2_length Rl). lia.
  - repeat (apply Forall_app; split); try assumption.
    apply Forall_forall. intros n I. apply repeat_spec in I. now subst n.
Qed.

Lemma join_snoc2 (gs : list string) (h1 h2 : string) :
  gs <> [] ->
  Str.join ":" (gs ++ [h1; h2])%list
  = Str.join ":" gs ++ String ":" (h1 ++ String ":" h2).
Proof.
  intros N. change (gs ++ [h1; h2])%list with (gs ++ [h1] ++ [h2])%list.
  rewrite app_assoc, StrFacts.join_snoc by (destruct gs; easy).
  rewrite StrFacts.join_snoc by exact N.
  rewrite !StrFacts.append_assoc. reflexivity.
Qed.

Lemma join_without (c : ascii) (gs : list string) :
  is_hex c = false -> Ascii.eqb ":" c = false -> Forall (fun g => group g = true) gs ->
  Str.includes c (Str.join ":" gs) = false.
Proof.
  intros Hc Nc F. apply StrFacts.includes_join; [exact Nc|].
  now apply groups_without.
Qed.

(** *** What may follow the leading groups and their colon *)

Lemma tail_colon (first : list string) :
  Forall (fun g => group g = true) first -> (List.length first <= 7)%nat ->
  readable ((Str.join ":" first ++ ":") ++ ":").
Proof.
  intros F L.
  replace ((Str.join ":" first ++ ":") ++ ":")
    with (Str.join ":" first ++ "::" ++ Str.join ":" [])
    by (now rewrite StrFacts.append_assoc).
  apply parse_elided_ex; [exact F|constructor|simpl; lia].
Qed.

Lemma tail_groups (first last : list string) :
  Forall (fun g => group g = true) first ->
  Forall (fun g => group g = true) last -> last <> [] ->
  (List.length first + List.length last <= 7)%nat ->
  readable ((Str.join ":" first ++ ":")
            ++ flat (map (fun g => String ":" g) last)).
Proof.
  intros Ff Fl N L. rewrite (tails_text _ N), StrFacts.append_assoc.
  now apply parse_elided_ex.
Qed.

Lemma readable_as (s s' : string) :
  parse s = parse s' -> readable s' -> readable s.
Proof. unfold readable. now intros ->. Qed.

Lemma tail_v4 (first last : list string) (v : string) :
  Forall (fun g => group g = true) first ->
  Forall (fun g => group g = true) last ->
  test Net.v4Str v = true ->
  (List.length first + List.length last <= 5)%nat ->
  readable ((Str.join ":" first ++ ":")
            ++ (flat (map (fun g => String ":" g) last) ++ String ":" v)).
Proof.
  intros Ff Fl T L.
  pose proof (join_without "." first eq_refl eq_refl Ff) as Df.
  destruct last as [|g last].
  - cbn [map flat fold_right append].
    destruct (parse_v4 (Str.join ":" first ++ ":") v) as [h1 [h2 [G1 [G2 E]]]];
      [rewrite includes_app, Df; reflexivity|exact T|].
    apply (readable_as _ _ E).
    replace ((Str.join ":" first ++ ":") ++ String ":" (h1 ++ String ":" h2))
      with (Str.join ":" first ++ "::" ++ Str.join ":" [h1; h2])
      by (now rewrite StrFacts.append_assoc).
    apply parse_elided_ex; [exact Ff|now repeat constructor|simpl in *; lia].
  - pose proof (join_without "." (g :: last) eq_refl eq_refl Fl) as Dl.
    rewrite tails_text by discriminate.
    replace ((Str.join ":" first ++ ":")
             ++ (String ":" (Str.join ":" (g :: last)) ++ String ":" v))
      with ((Str.join ":" first ++ "::" ++ Str.join ":" (g :: last))
            ++ String ":" v)
      by (now rewrite !StrFacts.append_assoc).
    destruct (parse_v4 (Str.join ":" first ++ "::" ++ Str.join ":" (g :: last)) v)
      as [h1 [h2 [G1 [G2 E]]]];
      [rewrite !includes_app, Df, Dl; reflexivity|exact T|].
    apply (readable_as _ _ E).
    rewrite !StrFacts.append_assoc.
    rewrite <- join_snoc2 by discriminate.
    apply parse_elided_ex; [exact Ff| |rewrite length_app; simpl in *; lia].
    apply Forall_app. split; [exact Fl|now repeat constructor].
Qed.

Lemma tail_last (first : list string) (g : string) :
  Forall (fun g => group g = true) first ->
  List.length first = 7%nat -> group g = true ->
  readable ((Str.join ":" first ++ ":") ++ g).
Proof.
  intros F L G.
  rewrite StrFacts.append_assoc.
  rewrite <- StrFacts.join_snoc by (intros ->; discriminate).
  apply parse_full_ex; [rewrite length_app; simpl; lia|].
  apply Forall_app. split; [exact F|now repeat constructor].
Qed.

Lemma tail_last4 (first : list string) (v : string) :
  Forall (fun g => group g = true) first ->
  List.length first = 6%nat -> test Net.v4Str v = true ->
  readable ((Str.join ":" first ++ ":") ++ v).
Proof.
  intros F L T.
  pose proof (join_without "." first eq_refl eq_refl F) as Df.
  rewrite StrFacts.append_assoc. cbn [append].
  destruct (parse_v4 (Str.join ":" first) v Df T) as [h1 [h2 [G1 [G2 E]]]].
  apply (readable_as _ _ E).
  rewrite <- join_snoc2 by (intros ->; discriminate).
  apply parse_full_ex; [rewrite length_app; simpl; lia|].
  apply Forall_app. split; [exact F|now repeat constructor].
Qed.

Lemma tail_alt (first : list string) (j4 j6 : nat) (t : string) :
  Forall (fun g => group g = true) first ->
  (List.length first + j4 <= 5)%nat -> (List.length first + j6 <= 7)%nat ->
  (1 <= j6)%nat ->
  test (Alt (Seq (Net.tails 0 j4) (Seq Net.colon Net.v4Str))
            (Alt (Net.tails 1 j6) Net.colon)) t = true ->
  readable ((Str.join ":" first ++ ":") ++ t).
Proof.
  intros F L4 L6 J T. rewrite !test_Alt in T.
  apply orb_true_iff in T as [T|T]; [|apply orb_true_iff in T as [T|T]].
  - apply test_Seq_inv in T as [t1 [t2 [-> [T1 T2]]]].
    apply tails_inv in T1 as [gs [Lg [G ->]]]; [|lia].
    apply test_Seq_inv in T2 as [c [v [-> [Tc Tv]]]].
    apply test_Chr in Tc. subst c.
    apply (tail_v4 first gs v F G Tv). lia.
  - apply tails_inv in T as [gs [Lg [G ->]]]; [|exact J].
    apply tail_groups; [exact F|exact G| |lia].
    intros ->. simpl in Lg. lia.
  - apply test_Chr in T. subst t. apply tail_colon; [exact F|lia].
Qed.

(** The address part of what [isIPv6] accepts is an address
    [Address6.parse] reads. *)
Lemma isIPv6_shape (ip : string) :
  Net.isIPv6 ip = true ->
  exists a z, ip = a ++ z
              /\ readable a
              /\ Str.includes "%" a = false
              /\ test Net.zone z = true.
Proof.
  unfold Net.isIPv6, Net.IPv6Reg. intros T.
  apply test_Seq_inv in T as [a [z [-> [Ta Tz]]]].
  exists a, z. split; [reflexivity|].
  split; [|split; [|exact Tz]].
  2:{ destruct (Str.includes "%" a) eqn:E; [|reflexivity].
      apply includes_chars in E.
      pose proof (RegexFacts.matches_mentions _ _ _ Ta E) as M.
      vm_compute in M. discriminate. }
  clear Tz. rewrite !test_Alt in Ta.
  apply orb_true_iff in Ta as [T|Ta];
    [|apply orb_true_iff in Ta as [T|Ta];
      [|apply orb_true_iff in Ta as [T|Ta];
        [|apply orb_true_iff in Ta as [T|Ta];
          [|apply orb_true_iff in Ta as [T|Ta];
            [|apply orb_true_iff in Ta as [T|Ta];
              [|apply orb_true_iff in Ta as [T|T]]]]]]];
    apply test_Seq_inv in T as [p [t [-> [Tp Tt]]]].
  - (* seven groups *)
    apply segs_inv in Tp as [gs [L [F ->]]].
    rewrite segs_text by (intros ->; discriminate).
    rewrite test_Alt in Tt. apply orb_true_iff in Tt as [Tt|Tt].
    + apply tail_last; [exact F|exact L|now apply v6Seg_group].
    + apply test_Chr in Tt. subst t. apply tail_colon; [exact F|lia].
  - (* six groups *)
    apply segs_inv in Tp as [gs [L [F ->]]].
    rewrite segs_text by (intros ->; discriminate).
    rewrite !test_Alt in Tt.
    apply orb_true_iff in Tt as [Tt|Tt]; [|apply orb_true_iff in Tt as [Tt|Tt]].
    + now apply tail_last4.
    + apply test_Seq_inv in Tt as [c [g [-> [Tc Tg]]]].
      apply test_Chr in Tc. subst c. apply v6Seg_group in Tg.
      replace (":" ++ g) with (flat (map (fun g => String ":" g) [g]))
        by (cbn; now rewrite append_empty).
      apply tail_groups; [exact F|now repeat constructor|discriminate|].
      simpl. lia.
    + apply test_Chr in Tt. subst t. apply tail_colon; [exact F|lia].
  - (* five groups *)
    apply segs_inv in Tp as [gs [L [F ->]]].
    rewrite segs_text by (intros ->; discriminate).
    rewrite !test_Alt in Tt.
    apply orb_true_iff in Tt as [Tt|Tt]; [|apply orb_true_iff in Tt as [Tt|Tt]].
    + apply test_Seq_inv in Tt as [c [v [-> [Tc Tv]]]].
      apply test_Chr in Tc. subst c.
      apply (tail_v4 gs [] v F); [constructor|exact Tv|simpl; lia].
    + apply tails_inv in Tt as [gs' [Lg [G ->]]]; [|lia].
      apply tail_groups; [exact F|exact G| |lia].
      intros ->. simpl in Lg. lia.
    + apply test_Chr in Tt. subst t. apply tail_colon; [exact F|lia].
  - apply segs_inv in Tp as [gs [L [F ->]]].
    rewrite segs_text by (intros ->; discriminate).
    apply (tail_alt gs 1 3 t F); [lia|lia|lia|exact Tt].
  - apply segs_inv in Tp as [gs [L [F ->]]].
    rewrite segs_text by (intros ->; discriminate).
    apply (tail_alt gs 2 4 t F); [lia|lia|lia|exact Tt].
  - apply segs_inv in Tp as [gs [L [F ->]]].
    rewrite segs_text by (intros ->; discriminate).
    apply (tail_alt gs 3 5 t F); [lia|lia|lia|exact Tt].
  - apply segs_inv in Tp as [gs [L [F ->]]].
    rewrite segs_text by (intros ->; discriminate).
    apply (tail_alt gs 4 6 t F); [lia|lia|lia|exact Tt].
  - (* no group before the elision *)
    apply test_Chr in Tp. subst p.
    apply (tail_alt [] 5 7 t); [constructor|simpl; lia|simpl; lia|lia|exact Tt].
Qed.

Lemma bigInt_bound (a : Address6) :
  List.length (parsedAddress a) = 8%nat ->
  Forall (fun n => (n < 65536)%N) (parsedAddress a) ->
  0 <= bigInt a < 2 ^ 128.
Proof.
  unfold bigInt. intros L B.
  destruct (parsedAddress a) as [|g0 [|g1 [|g2 [|g3 [|g4 [|g5 [|g6 [|g7 [|g8 l]]]]]]]]];
    try discriminate.
  repeat match goal with
         | B : Forall _ (_ :: _) |- _ => apply Forall_cons_iff in B as [?H B]
         end.
  cbn [fold_left]. rewrite !Z.shiftl_mul_pow2 by lia.
  change (2 ^ 16) with 65536. change (2 ^ 128) with (65536 * 65536 * 65536 * 65536
    * 65536 * 65536 * 65536 * 65536). lia.
Qed.

(** [Address6] reads every address [isIPv6] accepts, as a number of
    128 bits. *)
Lemma isIPv6_read (ip : string) :
  Net.isIPv6 ip = true ->
  exists z, addressBits ip = inr z /\ 0 <= z < 2 ^ 128.
Proof.
  intros V. destruct (isIPv6_shape _ V) as [a [zz [E [[ns [P [L B]]] [Pa Tz]]]]].
  unfold addressBits, new_Address6.
  rewrite (take_subnet_bare _ (isIPv6_no_slash _ V)). cbn [bind ok].
  assert (S : exists zone0, split_zone ip = (a, zone0)).
  { unfold Net.zone, Opt in Tz. rewrite test_Alt in Tz.
    apply orb_true_iff in Tz as [Tz|Tz].
    - apply test_Eps in Tz. subst zz. rewrite append_empty in E. subst ip.
      exists "". now apply split_zone_none.
    - apply test_Seq_inv in Tz as [c [w [-> [Tc _]]]].
      apply test_Chr in Tc. subst c. cbn [append] in E. subst ip.
      exists (String "%" w). apply split_zone_at; [exact Pa|].
      pose proof (no_line_terminator_app _ _ (isIPv6_no_line_terminator _ V)) as T.
      cbn [no_line_terminator] in T. now apply andb_true_iff in T as [_ T]. }
  destruct S as [zone0 ->]. rewrite P. cbn [bind ok].
  eexists. split; [reflexivity|]. now apply bigInt_bound.
Qed.

End ValidFacts.

(* ================================================================== *)
(** * The default subnet size *)

(** C8: a call without the second argument works with the subnet size
    56, and with it every valid IPv6 address is collapsed to the key of
    its /56 subnet, never passed through.  The call equals, on every
    cache, the call with 56.  For an address [isIPv6] accepts,
    [Address6] reads a number [z] of 128 bits from it, and in every
    state of the cache the call returns a string: the canonical text of
    the address that has the first 56 bits of [z] and zeros in the other
    72, followed by [/56].  That string is what the cache-free reference
    returns, and it is not the address passed in. *)
Theorem default_subnet_is_56 (calls : list Call) (ip : string) :
  (forall c : JsMap.Map,
      ipKeyGenerator c ip None = ipKeyGenerator c ip (Some (SubnetNumber 56)))
  /\ (Net.isIPv6 ip = true ->
      exists z,
        addressBits ip = inr z /\ 0 <= z < 2 ^ 128
        /\ fst (ipKeyGenerator (history calls) ip None)
           = inr (subnetKeyOf z 56)
        /\ normalize_reference ip 56 = inr (subnetKeyOf z 56)
        /\ subnetKeyOf z 56 <> ip).
Proof.
  split; [reflexivity|]. intros V.
  destruct (ValidFacts.isIPv6_read _ V) as [z [B R]]. exists z.
  pose proof (BitsFacts.computed_subnet_key ip 56 z V ltac:(lia) B) as C.
  split; [exact B|]. split; [exact R|]. split; [|split].
  - rewrite (collapsing_call (history calls) ip None
               (cache_ok_history calls) eq_refl V).
    exact C.
  - now rewrite <- computed_reference.
  - intros E. apply computed_has_slash in C. rewrite E in C.
    now rewrite (isIPv6_no_slash _ V) in C.
Qed.

Lemma default_subnet_is_56_sample :
  fst (ipKeyGenerator (history sample_calls) sample_ip None)
  = inr "2001:db8:85a3::/56".
Proof.
  destruct (proj2 (default_subnet_is_56 sample_calls sample_ip))
    as [z [B [_ [E _]]]].
  - vm_compute. reflexivity.
  - rewrite E. vm_compute in B. injection B as <-. vm_compute. reflexivity.
Defined.
